(** * Form Handler component: validation, submission, loading state, toasts

    A shallow embedding of [static/js/components/form-handler.js] (class
    [FormHandler]) and the properties of its behaviour.

    Definitions:
    - [JS]          : the ECMAScript string primitives the component calls
                      ([trim], [toLowerCase], [parseInt], [RegExp.prototype.test]);
    - [Html]        : the fragment of the HTML tokenizer that decides whether a
                      markup string still contains an element of a given class;
    - [Json]        : parsed response bodies and the coercions applied to them;
    - [Dom]         : fields, form groups, forms, the document and the window;
    - [FormHandler] : the methods of the class, one definition per method;
    - [Rules]       : what validation decides for a field, as a function of the
                      form before the call;
    - [Samples]     : concrete pages;
    - [Toasts]      : the toasts of the container with their identity, and
                      [removeNotification] with the timeout and the
                      [animationend] listeners, as events on the container;
    - [Shapes]      : predicates and constants used to state properties;
    - [Scenarios]   : more concrete pages and containers;
    - [Groups]      : the elements around the controls as a tree, with
                      [clearFieldValidation], [markFieldAsInvalid],
                      [validateForm] and the listeners as they act on it,
                      exceptions included;
    - [Pages]       : concrete pages with their form groups.

    Properties: [JSFacts] (strings and patterns), [ValidationFacts]
    ([validateForm] and the blur listener), [SubmitFacts] (the submit
    listener and the toasts), [DocumentFacts] (construction), [EmailFacts]
    (the addresses accepted), [AnnotationFacts] (classes and messages),
    [LoadingFacts] (whole loading cycles), [OutcomeFacts] (further outcomes
    of a submission), [ToastFacts] (dismissal), [ConstructionFacts] (what
    construction adds), [GroupFacts] (flat pages, and the forms of [Dom] as
    their view), [PageFacts] ([validateForm] and the listeners on the
    page). *)

From Stdlib Require Import ZArith String Ascii List Bool Lia.
From stdpp Require Import gmap strings list pretty.

(** ** ECMAScript string primitives *)

Module JS.

(** Strings are sequences of code units; the model covers the code units
    0..255 (Latin-1), which is where every character the component tests
    for lives. *)

(** [WhiteSpace] and [LineTerminator] code units below 256: TAB, LF, VT, FF,
    CR, SP and NBSP.  This is the set stripped by [String.prototype.trim]
    and matched by the class escape [\s]. *)
Definition isWhiteSpace (c : ascii) : bool :=
  let n := nat_of_ascii c in
  (n =? 9) || (n =? 10) || (n =? 11) || (n =? 12) || (n =? 13)
  || (n =? 32) || (n =? 160).

Definition isEmpty (s : string) : bool :=
  match s with EmptyString => true | String _ _ => false end.

(** Truthiness of a string value: only the empty string is falsy. *)
Definition truthy (s : string) : bool := negb (isEmpty s).

Fixpoint trimStart (s : string) : string :=
  match s with
  | EmptyString => EmptyString
  | String c s' => if isWhiteSpace c then trimStart s' else s
  end.

Fixpoint trimEnd (s : string) : string :=
  match s with
  | EmptyString => EmptyString
  | String c s' =>
      let t := trimEnd s' in
      if isWhiteSpace c && isEmpty t then EmptyString else String c t
  end.

(** White space only (the empty string included). *)
Fixpoint allWhiteSpace (s : string) : bool :=
  match s with
  | EmptyString => true
  | String c s' => isWhiteSpace c && allWhiteSpace s'
  end.

(** [String.prototype.trim] *)
Definition trim (s : string) : string := trimEnd (trimStart s).

Definition toLowerChar (c : ascii) : ascii :=
  let n := nat_of_ascii c in
  if ((65 <=? n) && (n <=? 90))
     || ((192 <=? n) && (n <=? 222) && negb (n =? 215))
  then ascii_of_nat (n + 32) else c.

(** [String.prototype.toLowerCase] *)
Fixpoint toLowerCase (s : string) : string :=
  match s with
  | EmptyString => EmptyString
  | String c s' => String (toLowerChar c) (toLowerCase s')
  end.

(** [String.prototype.includes] for a single code unit. *)
Fixpoint includes (c : ascii) (s : string) : bool :=
  match s with
  | EmptyString => false
  | String d s' => if Ascii.eqb c d then true else includes c s'
  end.

Definition digitValue (c : ascii) : option Z :=
  let n := nat_of_ascii c in
  if (48 <=? n) && (n <=? 57) then Some (Z.of_nat (n - 48)) else None.

(** The longest prefix of decimal digits, read as a number; [None] when the
    prefix is empty.  [acc] is the value of the digits read so far and
    [seen] tells whether there was one. *)
Fixpoint parseDigits (s : string) (acc : Z) (seen : bool) : option Z :=
  match s with
  | EmptyString => if seen then Some acc else None
  | String c s' =>
      match digitValue c with
      | Some d => parseDigits s' (10 * acc + d)%Z true
      | None => if seen then Some acc else None
      end
  end.

(** [parseInt(s, 10)]: leading white space is skipped, one sign is
    accepted, then the longest run of decimal digits is read; [None] stands
    for [NaN].  (The result is exact; ECMAScript rounds it to a double,
    which differs only beyond 2^53.) *)
Definition parseInt (s : string) : option Z :=
  match trimStart s with
  | String "-" s' => Z.opp <$> parseDigits s' 0%Z false
  | String "+" s' => parseDigits s' 0%Z false
  | s' => parseDigits s' 0%Z false
  end.

(** Template-literal interpolation [${n}] of an integral number, in
    decimal.  This is what the engine prints for a number of magnitude up to
    2^53, which it holds exactly; beyond, it holds the nearest double and
    prints that one in its own digits, with an exponent from 10^21 on.
    Statements about the text of a message that carries a number are made
    for numbers up to 2^53. *)
Definition numberToString (n : Z) : string := pretty n.

(** *** Regular expressions

    The fragment of the pattern language used by the component: character
    classes, concatenation and [+].  Matching is by Brzozowski derivatives,
    which needs alternation and the empty language as well. *)

Inductive regex : Type :=
| Void : regex
| Eps : regex
| Class (p : ascii → bool) : regex
| Cat (r1 r2 : regex) : regex
| Alt (r1 r2 : regex) : regex
| Star (r : regex) : regex.

Definition Plus (r : regex) : regex := Cat r (Star r).
Definition Lit (c : ascii) : regex := Class (Ascii.eqb c).

Fixpoint nullable (r : regex) : bool :=
  match r with
  | Void => false
  | Eps => true
  | Class _ => false
  | Cat r1 r2 => nullable r1 && nullable r2
  | Alt r1 r2 => nullable r1 || nullable r2
  | Star _ => true
  end.

Fixpoint deriv (c : ascii) (r : regex) : regex :=
  match r with
  | Void => Void
  | Eps => Void
  | Class p => if p c then Eps else Void
  | Cat r1 r2 =>
      if nullable r1 then Alt (Cat (deriv c r1) r2) (deriv c r2)
      else Cat (deriv c r1) r2
  | Alt r1 r2 => Alt (deriv c r1) (deriv c r2)
  | Star r1 => Cat (deriv c r1) (Star r1)
  end.

(** [re.test(s)] for a pattern anchored at both ends ([^...$], no flags). *)
Fixpoint test (r : regex) (s : string) : bool :=
  match s with
  | EmptyString => nullable r
  | String c s' => test (deriv c r) s'
  end.

(** The denotation of a pattern: the strings it matches as a whole. *)
Inductive Matches : regex → string → Prop :=
| MEps : Matches Eps EmptyString
| MClass p c : p c = true → Matches (Class p) (String c EmptyString)
| MCat r1 r2 s1 s2 : Matches r1 s1 → Matches r2 s2 → Matches (Cat r1 r2) (s1 +:+ s2)
| MAltL r1 r2 s : Matches r1 s → Matches (Alt r1 r2) s
| MAltR r1 r2 s : Matches r2 s → Matches (Alt r1 r2) s
| MStarNil r : Matches (Star r) EmptyString
| MStarCons r s1 s2 : Matches r s1 → Matches (Star r) s2 → Matches (Star r) (s1 +:+ s2).

End JS.

(** ** HTML tokenizer fragment

    Assigning to [innerHTML] runs the HTML fragment parser on the string, and
    [querySelector] then searches the resulting tree.  What the component
    depends on is whether the parsed fragment still contains an element
    carrying a given class.  [Html.hasElementWithClass] answers that for the
    tokenizer states that matter for markup spliced into a template: data,
    tags with their attributes, comments and bogus comments.  Character
    references, the RCDATA/RAWTEXT/script content models and the insertion
    modes of the tree constructor are outside this fragment. *)

Module Html.

(** TAB, LF, FF, CR, SP *)
Definition isSpace (c : ascii) : bool :=
  let n := nat_of_ascii c in
  (n =? 9) || (n =? 10) || (n =? 12) || (n =? 13) || (n =? 32).

Definition isAlpha (c : ascii) : bool :=
  let n := nat_of_ascii c in
  ((65 <=? n) && (n <=? 90)) || ((97 <=? n) && (n <=? 122)).

Definition lowerAscii (c : ascii) : ascii :=
  let n := nat_of_ascii c in
  if (65 <=? n) && (n <=? 90) then ascii_of_nat (n + 32) else c.

Definition snoc (s : string) (c : ascii) : string := s +:+ String c EmptyString.

(** Does the space-separated token list [s] contain the token [cls]?
    [cur] is the token being read. *)
Fixpoint hasTokenGo (cls cur s : string) : bool :=
  match s with
  | EmptyString => String.eqb cur cls
  | String c s' =>
      if isSpace c then String.eqb cur cls || hasTokenGo cls EmptyString s'
      else hasTokenGo cls (snoc cur c) s'
  end.

Definition hasToken (cls s : string) : bool := hasTokenGo cls EmptyString s.

(** The tag token under construction: start or end tag, and the value of
    its first [class] attribute, if it has one so far. *)
Record tag : Type := mkTag { isEnd : bool; classAttr : option string }.

Inductive state : Type :=
| Data
| TagOpen
| EndTagOpen
| TagName (t : tag)
| BeforeAttrName (t : tag)
| AttrName (t : tag) (name : string)
| AfterAttrName (t : tag) (isClass : bool)
| BeforeAttrValue (t : tag) (isClass : bool)
| AttrValueDQ (t : tag) (isClass : bool)
| AttrValueSQ (t : tag) (isClass : bool)
| AttrValueUnq (t : tag) (isClass : bool)
| AfterAttrValueQ (t : tag)
| SelfClosing (t : tag)
| BogusComment
| MarkupDeclOpen
| MarkupDeclDash
| CommentStart
| CommentStartDash
| Comment
| CommentEndDash
| CommentEnd
| CommentEndBang
| Found.

Section Tokenizer.
(** The class looked for. *)
Variable cls : string.

(** A tag token is emitted: a start tag whose class list has [cls] ends
    the search. *)
Definition emit (t : tag) : state :=
  match isEnd t, classAttr t with
  | false, Some v => if hasToken cls v then Found else Data
  | _, _ => Data
  end.

(** An attribute name is complete.  A second attribute of the same name
    is dropped, so only the first [class] is recorded. *)
Definition registerAttr (t : tag) (name : string) : tag * bool :=
  match classAttr t with
  | None =>
      if String.eqb name "class"
      then (mkTag (isEnd t) (Some EmptyString), true) else (t, false)
  | Some _ => (t, false)
  end.

Definition appendValue (t : tag) (isClass : bool) (c : ascii) : tag :=
  if isClass then mkTag (isEnd t) ((λ v, snoc v c) <$> classAttr t) else t.

Definition isChar (n : nat) (c : ascii) : bool := nat_of_ascii c =? n.

Definition afterAttrName (t : tag) (isClass : bool) (c : ascii) : state :=
  if isSpace c then AfterAttrName t isClass
  else if isChar 47 c then SelfClosing t
  else if isChar 61 c then BeforeAttrValue t isClass
  else if isChar 62 c then emit t
  else AttrName t (String (lowerAscii c) EmptyString).

Definition beforeAttrName (t : tag) (c : ascii) : state :=
  if isSpace c then BeforeAttrName t
  else if isChar 47 c then SelfClosing t
  else if isChar 62 c then emit t
  else AttrName t (String (lowerAscii c) EmptyString).

Definition step (st : state) (c : ascii) : state :=
  match st with
  | Found => Found
  | Data => if isChar 60 c then TagOpen else Data
  | TagOpen =>
      if isChar 33 c then MarkupDeclOpen
      else if isChar 47 c then EndTagOpen
      else if isAlpha c then TagName (mkTag false None)
      else if isChar 63 c then BogusComment
      else if isChar 60 c then TagOpen else Data
  | EndTagOpen =>
      if isAlpha c then TagName (mkTag true None)
      else if isChar 62 c then Data
      else BogusComment
  | TagName t =>
      if isSpace c then BeforeAttrName t
      else if isChar 47 c then SelfClosing t
      else if isChar 62 c then emit t
      else TagName t
  | BeforeAttrName t => beforeAttrName t c
  | AttrName t name =>
      if isSpace c || isChar 47 c || isChar 62 c then
        let '(t', k) := registerAttr t name in afterAttrName t' k c
      else if isChar 61 c then
        let '(t', k) := registerAttr t name in BeforeAttrValue t' k
      else AttrName t (snoc name (lowerAscii c))
  | AfterAttrName t k => afterAttrName t k c
  | BeforeAttrValue t k =>
      if isSpace c then BeforeAttrValue t k
      else if isChar 34 c then AttrValueDQ t k
      else if isChar 39 c then AttrValueSQ t k
      else if isChar 62 c then emit t
      else AttrValueUnq (appendValue t k c) k
  | AttrValueDQ t k =>
      if isChar 34 c then AfterAttrValueQ t else AttrValueDQ (appendValue t k c) k
  | AttrValueSQ t k =>
      if isChar 39 c then AfterAttrValueQ t else AttrValueSQ (appendValue t k c) k
  | AttrValueUnq t k =>
      if isSpace c then BeforeAttrName t
      else if isChar 62 c then emit t
      else AttrValueUnq (appendValue t k c) k
  | AfterAttrValueQ t => beforeAttrName t c
  | SelfClosing t => beforeAttrName t c
  | BogusComment => if isChar 62 c then Data else BogusComment
  | MarkupDeclOpen =>
      if isChar 45 c then MarkupDeclDash
      else if isChar 62 c then Data else BogusComment
  | MarkupDeclDash =>
      if isChar 45 c then CommentStart
      else if isChar 62 c then Data else BogusComment
  | CommentStart =>
      if isChar 45 c then CommentStartDash
      else if isChar 62 c then Data else Comment
  | CommentStartDash =>
      if isChar 45 c then CommentEnd
      else if isChar 62 c then Data else Comment
  | Comment => if isChar 45 c then CommentEndDash else Comment
  | CommentEndDash => if isChar 45 c then CommentEnd else Comment
  | CommentEnd =>
      if isChar 62 c then Data
      else if isChar 33 c then CommentEndBang
      else if isChar 45 c then CommentEnd else Comment
  | CommentEndBang =>
      if isChar 45 c then CommentEndDash
      else if isChar 62 c then Data else Comment
  end.

(** Run the tokenizer over the input.  A tag still open at the end of
    the input is never emitted. *)
Fixpoint run (st : state) (s : string) : state :=
  match s with
  | EmptyString => st
  | String c s' => run (step st c) s'
  end.

Definition hasElementWithClass (markup : string) : bool :=
  match run Data markup with Found => true | _ => false end.
End Tokenizer.

End Html.

(** ** Parsed response bodies *)

Module Json.

(** A value produced by [response.json()].  A number is carried by its
    [Number::toString] rendering, which together with being zero or not is
    all the component observes of it.  The members of an object are in
    source order; a later member overrides an earlier one of the same
    name. *)
#[local] Unset Elimination Schemes.
Inductive value : Type :=
| Null
| Bool (b : bool)
| Number (repr : string)
| Str (s : string)
| Array (items : list value)
| Object (members : list (string * value)).
#[local] Set Elimination Schemes.

(** [ToBoolean] *)
Definition truthy (v : value) : bool :=
  match v with
  | Null => false
  | Bool b => b
  | Number r => negb (String.eqb r "0")
  | Str s => JS.truthy s
  | Array _ | Object _ => true
  end.

Definition join (sep : string) (l : list string) : string :=
  match l with
  | [] => EmptyString
  | x :: rest => fold_left (λ acc y, acc +:+ sep +:+ y) rest x
  end.

(** [ToString].  An array is rendered as its elements joined by commas,
    where [null] elements render as the empty string. *)
Fixpoint toString (v : value) : string :=
  match v with
  | Null => "null"
  | Bool true => "true"
  | Bool false => "false"
  | Number r => r
  | Str s => s
  | Array items =>
      join "," (map (λ x, match x with Null => EmptyString | _ => toString x end) items)
  | Object _ => "[object Object]"
  end.

Fixpoint lookupLast (k : string) (members : list (string * value)) : option value :=
  match members with
  | [] => None
  | (k', v) :: rest =>
      match lookupLast k rest with
      | Some v' => Some v'
      | None => if String.eqb k k' then Some v else None
      end
  end.

End Json.

(** ** The page: fields, forms, document, window *)

Module Dom.

Inductive tagName : Type := INPUT | TEXTAREA | SELECT.

(** A form control.  [group] identifies the element
    [field.closest('.form-group') || field.parentElement]; several fields
    may share one.  [isInvalid] is membership of [is-invalid] in the class
    list. *)
Record Field : Type := mkField {
  tag : tagName;
  name : string;
  type : string;
  required : bool;
  value : string;
  defaultValue : string;
  minLength : option string;   (* dataset.minLength, absent when there is no data-min-length *)
  confirm : bool;              (* the data-confirm attribute is present *)
  isInvalid : bool;
  group : nat;
}.

Definition setInvalid (b : bool) (f : Field) : Field :=
  mkField (tag f) (name f) (type f) (required f) (value f) (defaultValue f)
          (minLength f) (confirm f) b (group f).

Definition setValue (v : string) (f : Field) : Field :=
  mkField (tag f) (name f) (type f) (required f) v (defaultValue f)
          (minLength f) (confirm f) (isInvalid f) (group f).

(** The first element matching [button[type=submit]] (or whichever
    selector was configured). [label] is its [textContent]; it is taken to
    hold no markup characters ([Shapes.plainText]), so that writing it into
    [innerHTML] and reading [textContent] back returns it: the fragment
    parser would read tags and character references in a label that has
    them. *)
Record Button : Type := mkButton {
  disabled : bool;
  btnLoading : bool;             (* class btn-loading *)
  originalText : option string;  (* dataset.originalText *)
  label : string;
  spinner : bool;                (* a span.spinner child is present *)
}.

(** A managed form.  [feedback] maps a form group to the texts of its
    [.invalid-feedback] elements, first one first; they are children of the
    group itself and form groups do not nest.  [listeners] counts how many
    times the component wired its handlers onto the form. *)
Record Form : Type := mkForm {
  fields : list Field;
  feedback : gmap nat (list string);
  submitButton : option Button;
  formLoading : bool;              (* class form-loading *)
  action : string;
  method : string;
  resetOnSuccess : option string;  (* dataset.resetOnSuccess *)
  listeners : nat;
}.

Definition withFields (fs : list Field) (fb : gmap nat (list string)) (form : Form) : Form :=
  mkForm fs fb (submitButton form) (formLoading form) (action form) (method form)
         (resetOnSuccess form) (listeners form).

Definition withLoading (b : option Button) (l : bool) (form : Form) : Form :=
  mkForm (fields form) (feedback form) b l (action form) (method form)
         (resetOnSuccess form) (listeners form).

Definition withListeners (n : nat) (form : Form) : Form :=
  mkForm (fields form) (feedback form) (submitButton form) (formLoading form)
         (action form) (method form) (resetOnSuccess form) n.

(** The messages shown in a form group. *)
Definition messages (fb : gmap nat (list string)) (g : nat) : list string := fb !!! g.

(** [form.querySelector(sel)] over the controls of the form: the first one
    in document order that matches, with its position. *)
Fixpoint querySelectorFrom (k : nat) (sel : Field → bool) (fs : list Field) : option (nat * Field) :=
  match fs with
  | [] => None
  | f :: rest => if sel f then Some (k, f) else querySelectorFrom (S k) sel rest
  end.

Definition querySelector (sel : Field → bool) (fs : list Field) : option (nat * Field) :=
  querySelectorFrom 0 sel fs.

(** [input[type=password]] and [input[type=password][data-confirm]] *)
Definition isPasswordInput (f : Field) : bool :=
  match tag f with INPUT => String.eqb (type f) "password" | _ => false end.

Definition isConfirmInput (f : Field) : bool := isPasswordInput f && confirm f.

(** [form.reset()]: every control goes back to its default value. *)
Definition reset (form : Form) : Form :=
  withFields ((λ f, setValue (defaultValue f) f) <$> fields form) (feedback form) form.

(** [new FormData(form)]: the named controls with their values. *)
Definition formData (form : Form) : list (string * string) :=
  map (λ f, (name f, value f)) (filter (λ f, JS.truthy (name f) = true) (fields form)).

(** Elements of the document that can be found by id, in tree order. *)
Record Element : Type := mkElement {
  elemTag : string;
  elemId : string;
  elemClass : string;
}.

Record Document : Type := mkDocument {
  headNodes : list Element;
  bodyNodes : list Element;
}.

Definition hasId (i : string) (e : Element) : bool := String.eqb (elemId e) i.

Definition getElementById (i : string) (d : Document) : option Element :=
  find (hasId i) (headNodes d ++ bodyNodes d).

(** How many elements of the document carry the id. *)
Definition countId (i : string) (d : Document) : nat :=
  length (List.filter (hasId i) (headNodes d ++ bodyNodes d)).

Record Toast : Type := mkToast {
  className : string;
  innerHTML : string;
}.

Record Request : Type := mkRequest {
  url : string;
  httpMethod : string;
  payload : list (string * string);
}.

Record JsError : Type := mkError {
  errorName : string;
  message : string;
}.

Record Response : Type := mkResponse {
  ok : bool;
  json : option Json.value;   (* [None]: the body does not parse and [response.json()] rejects *)
}.

Inductive FetchResult : Type :=
| Rejected (e : JsError)
| Resolved (r : Response).

(** Effects in program order. *)
Inductive Event : Type :=
| LoadingOn
| LoadingOff
| Fetch (r : Request)
| ConsoleError (e : JsError).

(** The part of the window the handlers act on: the children of the
    notification container, the location, and the trace of effects. *)
Record Window : Type := mkWindow {
  notifications : list Toast;
  href : string;
  trace : list Event;
}.

Record Page : Type := mkPage {
  form : Form;
  window : Window;
}.

End Dom.

(** ** The component *)

Module FormHandler.
Import Dom.

(** *** Completions and the handler monad

    A method either returns or throws, and what it did to the page before
    throwing stays done. *)

Inductive Completion (A : Type) : Type :=
| Normal (a : A)
| Throw (e : JsError).
Arguments Normal {A} a.
Arguments Throw {A} e.

Definition M (A : Type) : Type := Page → Page * Completion A.

Definition ret {A} (a : A) : M A := λ p, (p, Normal a).
Definition throw {A} (e : JsError) : M A := λ p, (p, Throw e).

Definition bind {A B} (m : M A) (k : A → M B) : M B :=
  λ p, match m p with
       | (p', Normal a) => k a p'
       | (p', Throw e) => (p', Throw e)
       end.

Notation "'let*' x ':=' m 'in' k" := (bind m (λ x, k))
  (at level 10, x pattern, m at level 100, k at level 200, only parsing).

(** [try { body } catch (error) { handler } finally { final }] *)
Definition tryCatchFinally (body : M unit) (handler : JsError → M unit) (final : M unit) : M unit :=
  λ p,
    let '(p1, c1) :=
      match body p with
      | (p', Normal a) => (p', Normal a)
      | (p', Throw e) => handler e p'
      end in
    match final p1 with
    | (p2, Normal _) => (p2, c1)
    | (p2, Throw e) => (p2, Throw e)
    end.

Definition getForm : M Form := λ p, (p, Normal (form p)).
Definition getWindow : M Window := λ p, (p, Normal (window p)).
Definition putForm (f : Form) : M unit := λ p, (mkPage f (window p), Normal tt).
Definition putWindow (w : Window) : M unit := λ p, (mkPage (form p) w, Normal tt).

Definition emitEvent (e : Event) : M unit :=
  let* w := getWindow in
  putWindow (mkWindow (notifications w) (href w) (trace w ++ [e])).

(** The messages of engine-raised TypeErrors are given in the wording of
    V8; other engines word them differently. *)
Definition typeError (msg : string) : JsError := mkError "TypeError" msg.

(** *** String constants of the templates *)

Definition LF : string := String "010" EmptyString.
Definition quote : string := String "034" EmptyString.
Definition sp4 : string := "    ".
Definition sp6 : string := "      ".
Definition sp8 : string := "        ".

(** *** isValidEmail *)

(** [[^\s@]] *)
Definition notSpaceNorAt (c : ascii) : bool :=
  negb (JS.isWhiteSpace c) && negb (Ascii.eqb c "@").

(** [/^[^\s@]+@[^\s@]+\.[^\s@]+$/] *)
Definition emailPattern : JS.regex :=
  JS.Cat (JS.Plus (JS.Class notSpaceNorAt))
    (JS.Cat (JS.Lit "@")
       (JS.Cat (JS.Plus (JS.Class notSpaceNorAt))
          (JS.Cat (JS.Lit ".") (JS.Plus (JS.Class notSpaceNorAt))))).

Definition isValidEmail (email : string) : bool :=
  JS.test emailPattern (JS.toLowerCase email).

(** *** clearFieldValidation, markFieldAsInvalid *)

(** Removes the class from the field and the first [.invalid-feedback] of
    its form group, if there is one.  This is the method on a flat page,
    where the feedback below a form group is among its children
    ([Groups.flat]); the method as it acts on any page, where [removeChild]
    can throw, is [Groups.clearFieldValidation], and
    [GroupFacts.clearFieldValidation_refines] relates the two. *)
Definition clearFieldValidation (field : Field) (fb : gmap nat (list string))
  : Field * gmap nat (list string) :=
  (setInvalid false field, alter (drop 1) (group field) fb).

Definition markFieldAsInvalid (field : Field) (msg : string) (fb : gmap nat (list string))
  : Field * gmap nat (list string) :=
  let '(field1, fb1) := clearFieldValidation field fb in
  (setInvalid true field1, <[group field := messages fb1 (group field) ++ [msg]]> fb1).

(** *** validateForm *)

Definition requiredMessage : string := "This field is required".
Definition emailMessage : string := "Please enter a valid email address".
Definition mismatchMessage : string := "Passwords do not match".
Definition passwordMessage (minLength : Z) : string :=
  "Password must be at least " +:+ JS.numberToString minLength +:+ " characters".

Definition optTruthy (o : option string) : bool :=
  match o with Some s => JS.truthy s | None => false end.

(** The callback of [requiredFields.forEach]: the field and the feedback
    after the call, and the value of [isValid]. *)
Definition checkRequiredField (field : Field) (fb : gmap nat (list string)) (isValid : bool)
  : Field * gmap nat (list string) * bool :=
  if negb (JS.truthy (JS.trim (value field))) then
    (markFieldAsInvalid field requiredMessage fb, false)
  else if String.eqb (type field) "email" && negb (isValidEmail (value field)) then
    (markFieldAsInvalid field emailMessage fb, false)
  else if String.eqb (type field) "password" && optTruthy (minLength field) then
    match JS.parseInt (default EmptyString (minLength field)) with
    | Some n =>
        if (Z.of_nat (String.length (value field)) <? n)%Z then
          (markFieldAsInvalid field (passwordMessage n) fb, false)
        else (field, fb, isValid)
    | None => (field, fb, isValid)
    end
  else (field, fb, isValid).

(** [form.querySelectorAll('[required]').forEach(...)], in document
    order. *)
Fixpoint forEachRequired (fs : list Field) (fb : gmap nat (list string)) (isValid : bool)
  : list Field * gmap nat (list string) * bool :=
  match fs with
  | [] => ([], fb, isValid)
  | f :: rest =>
      if required f then
        let '(f', fb', isValid') := checkRequiredField f fb isValid in
        let '(rest', fb'', isValid'') := forEachRequired rest fb' isValid' in
        (f' :: rest', fb'', isValid'')
      else
        let '(rest', fb', isValid') := forEachRequired rest fb isValid in
        (f :: rest', fb', isValid')
  end.

Definition validateForm (form : Form) : Form * bool :=
  let '(fs, fb, isValid) := forEachRequired (fields form) (feedback form) true in
  let password := querySelector isPasswordInput fs in
  let confirmPassword := querySelector isConfirmInput fs in
  match password, confirmPassword with
  | Some (_, p), Some (j, c) =>
      if negb (String.eqb (value p) (value c)) then
        let '(c', fb') := markFieldAsInvalid c mismatchMessage fb in
        (withFields (<[j := c']> fs) fb' form, false)
      else (withFields fs fb form, isValid)
  | _, _ => (withFields fs fb form, isValid)
  end.

(** *** setupValidation: the input and blur listeners of one control *)

Definition onInput (input : Field) (fb : gmap nat (list string))
  : Field * gmap nat (list string) :=
  clearFieldValidation input fb.

Definition onBlur (input : Field) (fb : gmap nat (list string))
  : Field * gmap nat (list string) :=
  if required input && negb (JS.truthy (JS.trim (value input))) then
    markFieldAsInvalid input requiredMessage fb
  else if String.eqb (type input) "email" && JS.truthy (value input)
          && negb (isValidEmail (value input)) then
    markFieldAsInvalid input emailMessage fb
  else (input, fb).

(** An event dispatched at the [i]-th control of the form: its listener
    runs on that control. *)
Definition dispatchAt (listener : Field → gmap nat (list string) → Field * gmap nat (list string))
    (i : nat) (form : Form) : Form :=
  match fields form !! i with
  | Some f =>
      let '(f', fb') := listener f (feedback form) in
      withFields (<[i := f']> (fields form)) fb' form
  | None => form
  end.

(** The user replaces the value of the [i]-th control; the browser fires
    [input] at it. *)
Definition userTypes (i : nat) (v : string) (form : Form) : Form :=
  dispatchAt onInput i
    (withFields (alter (setValue v) i (fields form)) (feedback form) form).

(** *** setFormLoading *)

Definition loadingLabel (text : string) : string :=
  LF +:+ sp8 +:+ LF +:+ sp8 +:+ text +:+ LF +:+ sp6.

Definition setFormLoading (isLoading : bool) : M unit :=
  let* form := getForm in
  match submitButton form with
  | None =>
      throw (typeError "Cannot set properties of null (setting 'disabled')")
  | Some b =>
      if isLoading then
        let b' := mkButton true true (originalText b) (loadingLabel (label b)) true in
        let* _ := putForm (withLoading (Some b') true form) in
        emitEvent LoadingOn
      else
        let text :=
          if optTruthy (originalText b) then default EmptyString (originalText b)
          else JS.trim (label b) in
        let b' := mkButton false false (originalText b) text false in
        let* _ := putForm (withLoading (Some b') false form) in
        emitEvent LoadingOff
  end.

(** *** createNotificationContainer, addStyles *)

Definition containerId : string := "notification-container".
Definition stylesId : string := "form-handler-styles".

Definition createNotificationContainer (d : Document) : Document * Element :=
  match getElementById containerId d with
  | Some container => (d, container)
  | None =>
      let container := mkElement "div" containerId "toast-container" in
      (mkDocument (headNodes d) (bodyNodes d ++ [container]), container)
  end.

Definition addStyles (d : Document) : Document :=
  match getElementById stylesId d with
  | Some _ => d
  | None =>
      mkDocument (headNodes d ++ [mkElement "style" stylesId EmptyString]) (bodyNodes d)
  end.

(** *** showNotification *)

(** The template literal of [showNotification]: three literal chunks with
    [${title}] and [${message}] between them. *)
Definition toastBefore : string :=
  LF +:+ sp6 +:+ "<div class=" +:+ quote +:+ "toast-content" +:+ quote +:+ ">"
  +:+ LF +:+ sp8 +:+ "<h4 class=" +:+ quote +:+ "toast-title" +:+ quote +:+ ">".

Definition toastBetween : string :=
  "</h4>"
  +:+ LF +:+ sp8 +:+ "<p class=" +:+ quote +:+ "toast-message" +:+ quote +:+ ">".

Definition toastAfter : string :=
  "</p>"
  +:+ LF +:+ sp6 +:+ "</div>"
  +:+ LF +:+ sp6 +:+ "<button class=" +:+ quote +:+ "toast-close" +:+ quote
  +:+ " aria-label=" +:+ quote +:+ "Close" +:+ quote +:+ ">&times;</button>"
  +:+ LF +:+ sp4.

Definition toastMarkup (title message : string) : string :=
  toastBefore +:+ title +:+ toastBetween +:+ message +:+ toastAfter.

(** [s || fallback] on strings *)
Definition orElse (s fallback : string) : string :=
  if JS.truthy s then s else fallback.

(** The request of a submission: [form.action || window.location.href],
    [form.method || 'POST'], and the form data. *)
Definition submitRequest (form : Form) (w : Window) : Request :=
  mkRequest (orElse (action form) (href w)) (orElse (method form) "POST") (formData form).

Section Platform.

(** The browser: [hasCloseControl markup] tells whether, after
    [toast.innerHTML = markup], [toast.querySelector('.toast-close')]
    finds an element; [fetch] is the network. *)
Variable hasCloseControl : string → bool.
Variable fetch : Request → FetchResult.

(** The toast is built, its close control is looked up to receive a click
    listener, and the toast is appended to the container.  The auto-dismiss
    timer and the listener only act later and are not part of the call. *)
Definition showNotification (title message type : string) : M Toast :=
  let toast := mkToast ("toast " +:+ type) (toastMarkup title message) in
  if hasCloseControl (innerHTML toast) then
    let* w := getWindow in
    let* _ := putWindow (mkWindow (notifications w ++ [toast]) (href w) (trace w)) in
    ret toast
  else
    throw (typeError "Cannot read properties of null (reading 'addEventListener')").

(** *** The submit listener installed by setupForm *)

(** [await fetch(...)] *)
Definition awaitFetch (r : Request) : M Response :=
  let* _ := emitEvent (Fetch r) in
  match fetch r with
  | Rejected e => throw e
  | Resolved response => ret response
  end.

(** [await response.json().catch(() => ({}))] *)
Definition awaitJson (response : Response) : M Json.value :=
  ret (default (Json.Object []) (json response)).

(** [result.redirect], [result.message]: reading a property of [null]
    throws; on any other value an absent property is [undefined]. *)
Definition getProperty (result : Json.value) (key : string) : M (option Json.value) :=
  match result with
  | Json.Null =>
      throw (typeError ("Cannot read properties of null (reading '" +:+ key +:+ "')"))
  | Json.Object members => ret (Json.lookupLast key members)
  | _ => ret None
  end.

Definition optValueTruthy (o : option Json.value) : bool :=
  match o with Some v => Json.truthy v | None => false end.

Definition navigate (target : string) : M unit :=
  let* w := getWindow in
  putWindow (mkWindow (notifications w) target (trace w)).

Definition validateFormM : M bool :=
  let* form := getForm in
  let '(form', isValid) := validateForm form in
  let* _ := putForm form' in
  ret isValid.

Definition resetIfConfigured : M unit :=
  let* form := getForm in
  match resetOnSuccess form with
  | Some flag => if String.eqb flag "true" then putForm (reset form) else ret tt
  | None => ret tt
  end.

Definition submitBody : M unit :=
  let* form := getForm in
  let* w := getWindow in
  let* response := awaitFetch (submitRequest form w) in
  let* result := awaitJson response in
  if ok response then
    let* _ := showNotification "Success!" "Operation completed successfully." "success" in
    let* redirect := getProperty result "redirect" in
    match redirect with
    | Some target =>
        if Json.truthy target then navigate (Json.toString target)
        else resetIfConfigured
    | None => resetIfConfigured
    end
  else
    let* msg := getProperty result "message" in
    match msg with
    | Some v =>
        if Json.truthy v then throw (mkError "Error" (Json.toString v))
        else throw (mkError "Error" "An error occurred")
    | None => throw (mkError "Error" "An error occurred")
    end.

Definition submitCatch (error : JsError) : M unit :=
  let* _ := emitEvent (ConsoleError error) in
  let* _ := showNotification "Error"
              (orElse (message error) "An error occurred. Please try again.") "error" in
  ret tt.

(** The listener.  [e.preventDefault()] has no effect on the page
    model. *)
Definition onSubmit : M unit :=
  let* isValid := validateFormM in
  if negb isValid then ret tt
  else
    let* _ := setFormLoading true in
    tryCatchFinally submitBody submitCatch (setFormLoading false).

End Platform.

(** *** setupForm, init, constructor *)

(** [setupForm]: looks up the submit control (the result, possibly null,
    is not used), installs the submit listener and the validation
    listeners.  None of these calls can throw. *)
Definition setupForm (form : Form) : Form :=
  withListeners (S (listeners form)) form.

Definition init (d : Document) (forms : list Form) : Document * list Form :=
  (addStyles d, setupForm <$> forms).

(** [new FormHandler(options)]: the container is created first, then
    [init] adds the styles and sets up every form. *)
Definition construct (d : Document) (forms : list Form) : Document * list Form :=
  init (createNotificationContainer d).1 forms.

Fixpoint constructTimes (n : nat) (d : Document) (forms : list Form)
  : Document * list Form :=
  match n with
  | 0 => (d, forms)
  | S k => let '(d', forms') := construct d forms in constructTimes k d' forms'
  end.

End FormHandler.

(** ** What validation decides for a field

    The outcome of the checks as a function of the form before the call:
    required-empty first, then the email pattern, then the minimum length of
    a password; the confirmation check comes last and overrides. *)

Module Rules.
Import Dom FormHandler.

Definition requiredEmpty (f : Field) : bool := JS.allWhiteSpace (value f).

Definition emailMalformed (f : Field) : bool :=
  String.eqb (type f) "email" && negb (isValidEmail (value f)).

(** The configured minimum, when the field is a password shorter than
    it. *)
Definition passwordTooShort (f : Field) : option Z :=
  if String.eqb (type f) "password" then
    match minLength f with
    | Some s =>
        match JS.parseInt s with
        | Some n =>
            if JS.truthy s && (Z.of_nat (String.length (value f)) <? n)%Z
            then Some n else None
        | None => None
        end
    | None => None
    end
  else None.

(** The message a required field earns, if any. *)
Definition fieldRule (f : Field) : option string :=
  if requiredEmpty f then Some requiredMessage
  else if emailMalformed f then Some emailMessage
  else passwordMessage <$> passwordTooShort f.

Definition failsRule (f : Field) : bool :=
  required f && bool_decide (is_Some (fieldRule f)).

(** The position of the confirmation field that is found to differ from
    the password, if any. *)
Definition confirmTarget (fs : list Field) : option nat :=
  match querySelector isPasswordInput fs, querySelector isConfirmInput fs with
  | Some (_, p), Some (j, c) =>
      if String.eqb (value p) (value c) then None else Some j
  | _, _ => None
  end.

(** The message the [i]-th control is left with by [validateForm], if it
    was marked during the call. *)
Definition failing (form : Form) (i : nat) : option string :=
  match fields form !! i with
  | None => None
  | Some f =>
      if bool_decide (confirmTarget (fields form) = Some i) then Some mismatchMessage
      else if required f then fieldRule f else None
  end.

(** Replacing the first message of a group by a new last one. *)
Definition replaceMessage (ms : list string) (m : string) : list string :=
  drop 1 ms ++ [m].

(** The messages that the loop over the required fields sends to the form
    group [g], in order. *)
Definition loopMessages (g : nat) (fs : list Field) : list string :=
  omap (λ f, if required f && bool_decide (group f = g) then fieldRule f else None) fs.

Definition annotate (f : Field) : Field :=
  if failsRule f then setInvalid true f else f.

(** The message that the confirmation check sends to the form group
    [g]. *)
Definition confirmMessages (g : nat) (fs : list Field) : list string :=
  match confirmTarget fs with
  | Some j =>
      match fs !! j with
      | Some c => if bool_decide (group c = g) then [mismatchMessage] else []
      | None => []
      end
  | None => []
  end.

(** No other control of the form lives in the form group of the [i]-th
    one. *)
Definition ownGroup (fs : list Field) (i : nat) : bool :=
  match fs !! i with
  | Some f =>
      forallb (λ jf, (jf.1 =? i) || negb (group jf.2 =? group f)) (imap pair fs)
  | None => true
  end.

(** The messages that one call sends to the field itself. *)
Definition ownMessages (fs : list Field) (i : nat) (f : Field) : list string :=
  (if required f then option_list (fieldRule f) else [])
  ++ (if bool_decide (confirmTarget fs = Some i) then [mismatchMessage] else []).

(** The label that [setFormLoading(form, false)] writes back. *)
Definition restoredLabel (b : Button) : string :=
  if optTruthy (originalText b) then default EmptyString (originalText b)
  else JS.trim (label b).

(** The body of the response names no redirect target: it does not parse,
    or it is a value other than [null] whose [redirect] is absent or
    falsy. *)
Definition noRedirect (r : Response) : bool :=
  match json r with
  | None => true
  | Some Json.Null => false
  | Some (Json.Object members) =>
      negb (optValueTruthy (Json.lookupLast "redirect" members))
  | Some _ => true
  end.

(** The body of the response carries no message: it does not parse, or it
    is a value other than [null] whose [message] is absent or falsy. *)
Definition noMessage (r : Response) : bool :=
  match json r with
  | None => true
  | Some Json.Null => false
  | Some (Json.Object members) =>
      negb (optValueTruthy (Json.lookupLast "message" members))
  | Some _ => true
  end.

(** The page on which the [try] block of the submit listener starts: the
    validated form with its submit control disabled and the loading classes
    set. *)
Definition loadingPage (b : Button) (p : Page) : Page :=
  mkPage
    (withLoading (Some (mkButton true true (originalText b) (loadingLabel (label b)) true))
       true (validateForm (form p)).1)
    (mkWindow (notifications (window p)) (href (window p)) (trace (window p) ++ [LoadingOn])).

Definition errorToast (text : string) : Toast :=
  mkToast "toast error" (toastMarkup "Error" text).

(** The [i]-th control [f] ends the call marked with [m]: the call
    answers false, the control carries the class, and, when it has its
    form group to itself, the first message of the group has been replaced
    by [m] at the end. *)
Definition markedWith (form : Form) (i : nat) (f : Field) (m : string) : Prop :=
  (validateForm form).2 = false
  ∧ fields (validateForm form).1 !! i = Some (setInvalid true f)
  ∧ messages (feedback (validateForm form).1) (group f) ≠ []
  ∧ (ownGroup (fields form) i = true →
     messages (feedback (validateForm form).1) (group f)
     = replaceMessage (messages (feedback form) (group f)) m).

End Rules.

(** ** Sample pages *)

Module Samples.
Import Dom FormHandler.

Definition textInput (nm ty : string) (req : bool) (v : string) (g : nat) : Field :=
  mkField INPUT nm ty req v EmptyString None false false g.

Definition plainForm (fs : list Field) (b : option Button) : Form :=
  mkForm fs ∅ b false "/submit" "post" None 1.

Definition saveButton : Button := mkButton false false None "Save" false.

(** A confirmation field still annotated from an earlier submit, after the
    user has fixed the password field (whose input listener cleared only
    the password field). *)
Definition staleConfirm : Field :=
  mkField INPUT "confirm" "password" true "secret1" EmptyString None true true 1.

Definition staleForm : Form :=
  mkForm [textInput "password" "password" true "secret1" 0; staleConfirm]
         {[ 1 := [mismatchMessage] ]} (Some saveButton) false "/register" "post" None 1.

(** The form of the earlier submit: the two passwords differ. *)
Definition mismatchedConfirm : Field :=
  mkField INPUT "confirm" "password" true "secret1" EmptyString None true false 1.

Definition mismatchedForm : Form :=
  mkForm [textInput "password" "password" true "secret" 0; mismatchedConfirm]
         ∅ (Some saveButton) false "/register" "post" None 1.

(** An email field that is not required. *)
Definition optionalEmail : Field := textInput "cc" "email" false "not-an-email" 0.
Definition optionalEmailForm : Form := plainForm [optionalEmail] (Some saveButton).

Definition requiredEmail : Field := textInput "email" "email" true "not-an-email" 0.
Definition requiredEmailForm : Form := plainForm [requiredEmail] (Some saveButton).

(** A required password of three characters where eight are asked for. *)
Definition shortPassword : Field :=
  mkField INPUT "password" "password" true "abc" EmptyString (Some "8") false false 0.


(** The confirmation field comes first in the document. *)
Definition confirmFirstForm : Form :=
  plainForm
    [mkField INPUT "confirm" "password" true "secret2" EmptyString None true false 0;
     textInput "password" "password" true "secret1" 1]
    (Some saveButton).

Definition passwordFirstForm : Form :=
  plainForm
    [textInput "password" "password" true "secret1" 0;
     mkField INPUT "confirm" "password" true "secret2" EmptyString None true false 1]
    (Some saveButton).

Definition emptyWindow : Window := mkWindow [] "https://example.org/form" [].

(** A valid form whose submit control does not match the selector, for
    instance an [input type=submit]. *)
Definition buttonlessForm : Form :=
  plainForm [textInput "q" "text" true "hello" 0] None.
Definition buttonlessPage : Page := mkPage buttonlessForm emptyWindow.

(** The same form with its required field left empty. *)
Definition buttonlessEmptyPage : Page :=
  mkPage (plainForm [textInput "q" "text" true EmptyString 0] None) emptyWindow.

(** A profile form whose email is prefilled by the server and then edited,
    set to reset on success. *)
Definition prefilledForm : Form :=
  mkForm [mkField INPUT "email" "email" true "bob@example.org" "alice@example.org"
                  None false false 0]
         ∅ (Some saveButton) false "/profile" "post" (Some "true") 1.
Definition prefilledPage : Page := mkPage prefilledForm emptyWindow.

Definition contactPage : Page :=
  mkPage (plainForm [textInput "q" "text" true "hello" 0] (Some saveButton)) emptyWindow.

(** The tokenizer fragment as the browser. *)
Definition tokenizerHasCloseControl : string → bool :=
  Html.hasElementWithClass "toast-close".

Definition respond (status : bool) (body : option Json.value) : Request → FetchResult :=
  λ _, Resolved (mkResponse status body).

Definition emptyDocument : Document := mkDocument [] [].

Definition numericMessageBody : Json.value := Json.Object [("message", Json.Number "42")].
Definition messageBody : Json.value := Json.Object [("message", Json.Str "bad input")].

End Samples.

(** ** Toasts over time: close control, timer, exit animation

    [FormHandler.showNotification] gives the effect of one call on the
    children of the container.  Here the toasts keep their identity, so that
    [removeNotification], the click listener of the close control, the
    auto-dismiss timeout and the [animationend] listeners can be followed
    across events. *)

Module Toasts.
Import Dom FormHandler.

(** The container and what hangs off its toasts.  A toast is named by the
    number of the [showNotification] call that made it. *)
Record Tray : Type := mkTray {
  attached : list (nat * Toast);   (* the children of the container, first child first *)
  exiting : gset nat;              (* toasts whose style.animation is the reversed slide *)
  endListeners : gmap nat nat;     (* how many once-listeners for animationend a toast holds *)
  timers : gset nat;               (* toasts with a pending auto-dismiss timeout *)
  nextId : nat;
}.

Definition emptyTray : Tray := mkTray [] ∅ ∅ ∅ 0.

(** [toast.parentNode === this.notificationContainer] *)
Definition isAttached (i : nat) (t : Tray) : bool :=
  bool_decide (i ∈ (attached t).*1).

Definition pendingListeners (i : nat) (t : Tray) : nat :=
  default 0 (endListeners t !! i).

(** [removeNotification(toast)]: on a toast that is a child of the
    container, start the exit animation and wait for its end; on null or on
    any other toast, nothing. *)
Definition removeNotification (toast : option nat) (t : Tray) : Tray :=
  match toast with
  | Some i =>
      if isAttached i t then
        mkTray (attached t) ({[i]} ∪ exiting t)
               (<[i := S (pendingListeners i t)]> (endListeners t))
               (timers t) (nextId t)
      else t
  | None => t
  end.

(** [container.removeChild(toast)] *)
Definition removeChild (i : nat) (children : list (nat * Toast)) : list (nat * Toast) :=
  filter (λ c, c.1 ≠ i) children.

(** [animationend] reaches the toast: each of its listeners runs and, being
    registered with [once], is dropped.  The first one finds the toast in
    the container and removes it; the others find it gone. *)
Definition animationEnd (i : nat) (t : Tray) : Tray :=
  match pendingListeners i t with
  | 0 => t
  | S _ =>
      mkTray (removeChild i (attached t)) (exiting t) (delete i (endListeners t))
             (timers t) (nextId t)
  end.

(** [showNotification(title, message, type, duration)] with the identity of
    the toast: the close control gets its click listener, the toast is
    appended, and a positive duration sets the timeout. *)
Definition showNotification (hasCloseControl : string → bool)
    (title message type : string) (duration : Z) (t : Tray) : Tray * Completion nat :=
  let toast := mkToast ("toast " +:+ type) (toastMarkup title message) in
  if hasCloseControl (innerHTML toast) then
    (mkTray (attached t ++ [(nextId t, toast)]) (exiting t) (endListeners t)
            (if (0 <? duration)%Z then {[nextId t]} ∪ timers t else timers t)
            (S (nextId t)),
     Normal (nextId t))
  else
    (t, Throw (typeError "Cannot read properties of null (reading 'addEventListener')")).

(** What can happen to the container. *)
Inductive Event : Type :=
| Show (title message type : string) (duration : Z)
| ClickClose (i : nat)
| TimerFires (i : nat)
| AnimationEnd (i : nat).

Section Browser.
Variable hasCloseControl : string → bool.

Definition step (t : Tray) (e : Event) : Tray :=
  match e with
  | Show title message type duration =>
      (showNotification hasCloseControl title message type duration t).1
  | ClickClose i => removeNotification (Some i) t
  | TimerFires i =>
      if bool_decide (i ∈ timers t) then
        removeNotification (Some i)
          (mkTray (attached t) (exiting t) (endListeners t) (timers t ∖ {[i]}) (nextId t))
      else t
  | AnimationEnd i => animationEnd i t
  end.

Definition run (events : list Event) (t : Tray) : Tray := foldl step t events.

End Browser.

(** What holds of every tray that the component can produce: toasts are
    numbered below [nextId], each at most once; timeouts and listeners belong
    to toasts that were made; a toast with a pending listener is in the
    container and has its exit animation running; and a toast that was made
    and is no longer in the container had its exit animation started. *)
Definition TrayOk (t : Tray) : Prop :=
  NoDup (attached t).*1
  ∧ (∀ i, i ∈ (attached t).*1 → i < nextId t)
  ∧ (∀ i, i ∈ timers t → i < nextId t)
  ∧ (∀ i, 0 < pendingListeners i t → isAttached i t = true ∧ i ∈ exiting t)
  ∧ (∀ i, i < nextId t → isAttached i t = true ∨ i ∈ exiting t).

(** The stages of a toast on its way out. *)
Definition leaving (i : nat) (t : Tray) : Prop :=
  isAttached i t = true ∧ 0 < pendingListeners i t ∧ i < nextId t.

Definition gone (i : nat) (t : Tray) : Prop :=
  isAttached i t = false ∧ i < nextId t.

Definition armed (i : nat) (t : Tray) : Prop :=
  isAttached i t = true ∧ i ∈ timers t ∧ i < nextId t.

(** Resting: in the container, with no timeout and no listener pending. *)
Definition resting (i : nat) (t : Tray) : Prop :=
  isAttached i t = true ∧ (i ∉ timers t) ∧ pendingListeners i t = 0 ∧ i < nextId t.

Definition mentionsClick (i : nat) (e : Event) : bool :=
  match e with ClickClose j => bool_decide (j = i) | _ => false end.

End Toasts.


(** ** Shapes used to state further properties *)

Module Shapes.
Import Dom FormHandler.

(** Every code unit of the string satisfies the test. *)
Fixpoint every (p : ascii → bool) (s : string) : bool :=
  match s with
  | EmptyString => true
  | String c s' => p c && every p s'
  end.

(** A non-empty run of code units none of which is white space or an at
    sign. *)
Definition addressPart (s : string) : bool :=
  JS.truthy s && every notSpaceNorAt s.

(** [f'] is [f] except, possibly, for the is-invalid class. *)
Definition sameButClass (f' f : Field) : Prop := f' = setInvalid (isInvalid f') f.

(** No form group shows more than one message. *)
Definition singleMessages (fb : gmap nat (list string)) : Prop :=
  ∀ g, length (messages fb g) ≤ 1.

(** Loading switched on and off again. *)
Definition loadingCycle : M unit :=
  bind (setFormLoading true) (λ _, setFormLoading false).

(** Text that the HTML fragment parser reads back as it is: no tag and no
    character reference can start in it, and it holds no NUL, which the
    parser drops, and no CR, which it turns into LF. *)
Definition plainChar (c : ascii) : bool :=
  negb (Ascii.eqb c "<") && negb (Ascii.eqb c "&")
  && negb (Ascii.eqb c "000") && negb (Ascii.eqb c "013").

Definition plainText (s : string) : bool := every plainChar s.

(** The toast of a successful submission. *)
Definition successToast : Toast :=
  mkToast "toast success" (toastMarkup "Success!" "Operation completed successfully.").

(** The text of the error toast for a caught error:
    [error.message || 'An error occurred. Please try again.'] *)
Definition errorText (e : JsError) : string :=
  orElse (message e) "An error occurred. Please try again.".

(** What reading [result.redirect] throws when the body is [null]. *)
Definition nullRedirectError : JsError :=
  typeError "Cannot read properties of null (reading 'redirect')".

(** What [showNotification] throws when the parsed markup has lost its
    close control. *)
Definition noCloseControlError : JsError :=
  typeError "Cannot read properties of null (reading 'addEventListener')".

End Shapes.


(** ** More sample pages *)

Module Scenarios.
Import Dom FormHandler.

(** A container holding one toast shown with the default duration, and one
    holding a toast that is to stay until dismissed. *)
Definition timedTray : Toasts.Tray :=
  (Toasts.showNotification Samples.tokenizerHasCloseControl
     "Error" "bad input" "error" 5000 Toasts.emptyTray).1.

Definition stickyTray : Toasts.Tray :=
  (Toasts.showNotification Samples.tokenizerHasCloseControl
     "Saved" "Draft stored" "info" 0 Toasts.emptyTray).1.

(** A toast is shown with the default duration and dismissed by a click;
    its exit animation ends and it has left the container, with its
    timeout still pending. *)
Definition departure : list Toasts.Event :=
  [Toasts.Show "Error" "bad input" "error" 5000; Toasts.ClickClose 0; Toasts.AnimationEnd 0].

Definition departedTray : Toasts.Tray :=
  Toasts.run Samples.tokenizerHasCloseControl departure Toasts.emptyTray.

(** Things that happen to other toasts, and stray events for toast 0. *)
Definition otherTraffic : list Toasts.Event :=
  [Toasts.TimerFires 0; Toasts.AnimationEnd 0;
   Toasts.Show "Error" "bad input" "error" 5000;
   Toasts.ClickClose 1; Toasts.AnimationEnd 1].

(** Two required text fields in one form group, both left empty. *)
Definition sharedFirst : Field := Samples.textInput "first" "text" true EmptyString 0.
Definition sharedSecond : Field := Samples.textInput "last" "text" true EmptyString 0.

Definition shortPasswordForm : Form :=
  Samples.plainForm [Samples.shortPassword] (Some Samples.saveButton).

(** A submit control that was disabled by the page, with a padded
    label. *)
Definition paddedButton : Button := mkButton true false None "  Save  " false.
Definition paddedPage : Page :=
  mkPage (Samples.plainForm [Samples.textInput "q" "text" true "hello" 0] (Some paddedButton))
         Samples.emptyWindow.

(** No connection: the request is rejected. *)
Definition failedToFetch : JsError := mkError "TypeError" "Failed to fetch".
Definition offline : Request → FetchResult := λ _, Rejected failedToFetch.

(** The prefilled form with a reset flag that is not the string
    [true]. *)
Definition looselyFlaggedPage : Page :=
  mkPage (mkForm (fields Samples.prefilledForm) ∅ (Some Samples.saveButton) false "/profile"
            "post" (Some "yes") 1)
         Samples.emptyWindow.

(** A server message that opens a comment. *)
Definition commentBody : Json.value := Json.Object [("message", Json.Str "<!--")].

End Scenarios.

(** ** Form groups as a tree

    [Dom.Form] keeps, for each form group, the list of its messages, which is
    all there is to say on a page where the [.invalid-feedback] elements are
    children of the form groups and the form groups of the controls do not
    contain one another.  Here the elements around the controls form a tree,
    [querySelector] searches the descendants of the form group and
    [removeChild] insists on a child, as in the DOM, so that the methods
    can throw. *)

Module Groups.
Import Dom FormHandler.

(** The elements that matter for feedback: the elements of class
    [invalid-feedback], taken to hold text only, and the other elements
    with their element children in document order.  Controls, text nodes
    and elements that hold neither feedback nor a form group may be left
    out.  [Field.group] is the id of the element
    [field.closest('.form-group') || field.parentElement]. *)
#[warnings="-register-all"]
Inductive Node : Type :=
| Feedback (text : string)
| Element (id : nat) (children : list Node).

Fixpoint hasFeedback (n : Node) : bool :=
  match n with
  | Feedback _ => true
  | Element _ children => existsb hasFeedback children
  end.

(** The ids of the elements of a subtree, in document order. *)
Fixpoint ids (n : Node) : list nat :=
  match n with
  | Feedback _ => []
  | Element i children => i :: flat_map ids children
  end.

(** The children of the first element of id [g]. *)
Fixpoint childrenOf (g : nat) (n : Node) : option (list Node) :=
  match n with
  | Feedback _ => None
  | Element i children =>
      if i =? g then Some children else head (omap (childrenOf g) children)
  end.

(** The children of the element of id [g] become [h children]. *)
Fixpoint alterChildren (g : nat) (h : list Node → list Node) (n : Node) : Node :=
  match n with
  | Feedback text => Feedback text
  | Element i children =>
      if i =? g then Element i (h children)
      else Element i (alterChildren g h <$> children)
  end.

(** Where [formGroup.querySelector('.invalid-feedback')] finds its first
    match, over the children of the form group: nowhere, among the
    children, or further down. *)
Inductive Found : Type := Nowhere | Child | Deeper.

Fixpoint firstFeedback (children : list Node) : Found :=
  match children with
  | [] => Nowhere
  | Feedback _ :: _ => Child
  | Element i grandchildren :: rest =>
      if hasFeedback (Element i grandchildren) then Deeper else firstFeedback rest
  end.

(** The children without the first [.invalid-feedback] among them. *)
Fixpoint removeFirstFeedback (children : list Node) : list Node :=
  match children with
  | [] => []
  | Feedback _ :: rest => rest
  | Element i grandchildren :: rest => Element i grandchildren :: removeFirstFeedback rest
  end.

Definition feedbackText (n : Node) : option string :=
  match n with Feedback text => Some text | Element _ _ => None end.

(** The texts of the [.invalid-feedback] children of the element of id
    [g], first child first. *)
Definition directTexts (g : nat) (root : Node) : list string :=
  match childrenOf g root with
  | Some children => omap feedbackText children
  | None => []
  end.

(** What [removeChild] throws for a node that is not a child (the message
    is Chrome's). *)
Definition notFoundError : JsError :=
  mkError "NotFoundError"
    "Failed to execute 'removeChild' on 'Node': The node to be removed is not a child of this node.".

(** What [formGroup.querySelector] throws when the control has no parent
    element at all. *)
Definition noGroupError : JsError :=
  typeError "Cannot read properties of null (reading 'querySelector')".

(** *** clearFieldValidation, markFieldAsInvalid *)

(** The class is removed first; then the first [.invalid-feedback]
    descendant of the form group is looked up and, if there is one, removed
    as a child of the form group, which throws when it is not a child. *)
Definition clearFieldValidation (field : Field) (root : Node)
  : Field * Node * Completion unit :=
  match childrenOf (group field) root with
  | None => (setInvalid false field, root, Throw noGroupError)
  | Some children =>
      match firstFeedback children with
      | Nowhere => (setInvalid false field, root, Normal tt)
      | Child =>
          (setInvalid false field,
           alterChildren (group field) removeFirstFeedback root, Normal tt)
      | Deeper => (setInvalid false field, root, Throw notFoundError)
      end
  end.

Definition markFieldAsInvalid (field : Field) (msg : string) (root : Node)
  : Field * Node * Completion unit :=
  match clearFieldValidation field root with
  | (field1, root1, Normal _) =>
      (setInvalid true field1,
       alterChildren (group field) (λ children, children ++ [Feedback msg]) root1,
       Normal tt)
  | (field1, root1, Throw e) => (field1, root1, Throw e)
  end.

(** *** validateForm *)

(** The callback of [requiredFields.forEach]. *)
Definition checkRequiredField (field : Field) (root : Node) (isValid : bool)
  : Field * Node * Completion bool :=
  let marking (msg : string) :=
    match markFieldAsInvalid field msg root with
    | (field', root', Normal _) => (field', root', Normal false)
    | (field', root', Throw e) => (field', root', Throw e)
    end in
  if negb (JS.truthy (JS.trim (value field))) then marking requiredMessage
  else if String.eqb (type field) "email" && negb (isValidEmail (value field)) then
    marking emailMessage
  else if String.eqb (type field) "password" && optTruthy (minLength field) then
    match JS.parseInt (default EmptyString (minLength field)) with
    | Some n =>
        if (Z.of_nat (String.length (value field)) <? n)%Z then marking (passwordMessage n)
        else (field, root, Normal isValid)
    | None => (field, root, Normal isValid)
    end
  else (field, root, Normal isValid).

(** The loop over the required fields; a callback that throws ends it, and
    the fields after it are not looked at. *)
Fixpoint forEachRequired (fs : list Field) (root : Node) (isValid : bool)
  : list Field * Node * Completion bool :=
  match fs with
  | [] => ([], root, Normal isValid)
  | f :: rest =>
      if required f then
        match checkRequiredField f root isValid with
        | (f', root', Normal isValid') =>
            let '(rest', root'', c) := forEachRequired rest root' isValid' in
            (f' :: rest', root'', c)
        | (f', root', Throw e) => (f' :: rest, root', Throw e)
        end
      else
        let '(rest', root', c) := forEachRequired rest root isValid in
        (f :: rest', root', c)
  end.

Definition validateForm (fs : list Field) (root : Node)
  : list Field * Node * Completion bool :=
  match forEachRequired fs root true with
  | (fs1, root1, Normal isValid) =>
      match querySelector isPasswordInput fs1, querySelector isConfirmInput fs1 with
      | Some (_, p), Some (j, c) =>
          if negb (String.eqb (value p) (value c)) then
            match markFieldAsInvalid c mismatchMessage root1 with
            | (c', root2, Normal _) => (<[j := c']> fs1, root2, Normal false)
            | (c', root2, Throw e) => (<[j := c']> fs1, root2, Throw e)
            end
          else (fs1, root1, Normal isValid)
      | _, _ => (fs1, root1, Normal isValid)
      end
  | (fs1, root1, Throw e) => (fs1, root1, Throw e)
  end.

(** *** setupValidation: the input and blur listeners *)

Definition onInput (input : Field) (root : Node) : Field * Node * Completion unit :=
  clearFieldValidation input root.

Definition onBlur (input : Field) (root : Node) : Field * Node * Completion unit :=
  if required input && negb (JS.truthy (JS.trim (value input))) then
    markFieldAsInvalid input requiredMessage root
  else if String.eqb (type input) "email" && JS.truthy (value input)
          && negb (isValidEmail (value input)) then
    markFieldAsInvalid input emailMessage root
  else (input, root, Normal tt).

Definition dispatchAt (listener : Field → Node → Field * Node * Completion unit)
    (i : nat) (fs : list Field) (root : Node) : list Field * Node * Completion unit :=
  match fs !! i with
  | Some f =>
      let '(f', root', c) := listener f root in (<[i := f']> fs, root', c)
  | None => (fs, root, Normal tt)
  end.

Definition userTypes (i : nat) (v : string) (fs : list Field) (root : Node)
  : list Field * Node * Completion unit :=
  dispatchAt onInput i (alter (setValue v) i fs) root.

(** *** Flat pages *)

(** A subtree that holds no feedback and no form group of a control. *)
Definition clean (used : list nat) (n : Node) : bool :=
  negb (hasFeedback n) && forallb (λ i, bool_decide (i ∉ used)) (ids n).

(** A child that is feedback itself, or clean. *)
Definition tidy (used : list nat) (c : Node) : bool :=
  match c with Feedback _ => true | Element _ _ => clean used c end.

Definition flatGroup (used : list nat) (root : Node) (g : nat) : bool :=
  match childrenOf g root with
  | Some children => forallb (tidy used) children
  | None => false
  end.

(** The page is flat for the form groups [used]: ids name one element
    each, every form group is there, and below a form group the only
    feedback is among its children and there is no other form group. *)
Definition flatFor (used : list nat) (root : Node) : bool :=
  bool_decide (NoDup (ids root)) && forallb (flatGroup used root) used.

Definition flat (fs : list Field) (root : Node) : bool := flatFor (group <$> fs) root.

(** No element shows more than one message among its children. *)
Definition singleTexts (root : Node) : bool :=
  forallb (λ g, length (directTexts g root) <=? 1) (ids root).

(** The element children, which neither removal nor insertion of feedback
    touches. *)
Definition elements (children : list Node) : list Node :=
  filter (λ c, feedbackText c = None) children.

(** [h] only inserts or removes feedback. *)
Definition keepsElements (h : list Node → list Node) : Prop :=
  ∀ children, elements (h children) = elements children.

(** *** The page as a form *)

(** The messages of every element, as [Dom.Form] keeps them. *)
Definition view (root : Node) : gmap nat (list string) :=
  foldr (λ i fb, <[i := directTexts i root]> fb) ∅ (ids root).

Definition formOf (fs : list Field) (root : Node) : Form :=
  mkForm fs (view root) None false EmptyString EmptyString None 0.

(** [fb] lists, for every element, the messages among its children. *)
Definition Shows (root : Node) (fb : gmap nat (list string)) : Prop :=
  ∀ g, directTexts g root = messages fb g.


(** The [i]-th control [f] ends [validateForm] marked with [m] on the
    page: the call returns false, the control carries the class, its form
    group shows a message and, when the control has its form group to
    itself, the first message of the group has been replaced by [m] at the
    end. *)
Definition markedOnPage (fs : list Field) (root : Node) (i : nat) (f : Field) (m : string)
  : Prop :=
  ∃ fs' root',
    validateForm fs root = (fs', root', Normal false)
    ∧ fs' !! i = Some (setInvalid true f)
    ∧ directTexts (group f) root' ≠ []
    ∧ (Rules.ownGroup fs i = true →
       directTexts (group f) root'
       = Rules.replaceMessage (directTexts (group f) root) m).

End Groups.

(** ** Sample pages with their form groups *)

Module Pages.
Import Dom FormHandler Groups.

(** A form (element 100) holding two form groups (elements 0 and 1), with
    no feedback yet. *)
Definition twoGroups : Node := Element 100 [Element 0 []; Element 1 []].

(** One form group for two required text fields left empty. *)
Definition sharedFields : list Field := [Scenarios.sharedFirst; Scenarios.sharedSecond].
Definition oneGroup : Node := Element 100 [Element 0 []].

(** A required field that is a child of the form itself, followed by a
    required field wrapped in a form group: the form group of the first
    field is the form, and it contains the form group of the second. *)
Definition unwrappedThenWrapped : list Field :=
  [Samples.textInput "a" "text" true EmptyString 100;
   Samples.textInput "b" "text" true EmptyString 0].

(** A form group whose feedback, rendered by the server, sits in a wrapper
    (element 7). *)
Definition wrappedFeedback : Node :=
  Element 100 [Element 0 [Element 7 [Feedback "Rejected by the server"]]].

Definition wrappedField : Field := Samples.textInput "q" "text" true "hello" 0.

(** The page of [Samples.staleForm]: the form group of the confirmation
    field still shows the message of an earlier call. *)
Definition stalePage : Node :=
  Element 100 [Element 0 []; Element 1 [Feedback mismatchMessage]].

End Pages.

(** * Properties *)

(** ** Strings and patterns *)

Module JSFacts.
Import JS.

Lemma append_nil (s : string) : EmptyString +:+ s = s.
Proof. reflexivity. Qed.

Lemma append_cons (c : ascii) (s1 s2 : string) :
  String c s1 +:+ s2 = String c (s1 +:+ s2).
Proof. reflexivity. Qed.

Lemma append_empty_r (s : string) : s +:+ EmptyString = s.
Proof.
  induction s as [|c s IH]; [reflexivity |].
  rewrite append_cons. f_equal. exact IH.
Qed.

Lemma append_assoc (s1 s2 s3 : string) : (s1 +:+ s2) +:+ s3 = s1 +:+ (s2 +:+ s3).
Proof.
  induction s1 as [|c s1 IH]; [reflexivity |].
  rewrite !append_cons. f_equal. exact IH.
Qed.

Lemma append_eq_empty (s1 s2 : string) :
  s1 +:+ s2 = EmptyString → s1 = EmptyString ∧ s2 = EmptyString.
Proof. destruct s1; [now split | discriminate]. Qed.

(** A concatenation that starts with [c] takes it from the left part, or
    the left part is empty. *)
Lemma append_eq_cons (s1 s2 s : string) (c : ascii) :
  s1 +:+ s2 = String c s →
  (s1 = EmptyString ∧ s2 = String c s) ∨ (∃ s1', s1 = String c s1' ∧ s = s1' +:+ s2).
Proof.
  destruct s1 as [|d s1]; intros H.
  - left; split; [reflexivity | exact H].
  - right. rewrite append_cons in H. injection H as -> <-.
    exists s1; split; reflexivity.
Qed.

Lemma includes_append (c : ascii) (s1 s2 : string) :
  includes c (s1 +:+ s2) = includes c s1 || includes c s2.
Proof.
  induction s1 as [|d s1 IH]; [reflexivity |].
  rewrite append_cons. simpl.
  destruct (Ascii.eqb c d); [reflexivity | exact IH].
Qed.

(** *** Trimming *)

Example trim_samples :
  trim "  a b  " = "a b" ∧ trim "   " = EmptyString ∧ trim "x" = "x".
Proof. vm_compute. repeat split. Qed.

Example parseInt_samples :
  parseInt "8" = Some 8%Z ∧ parseInt "  08px" = Some 8%Z ∧ parseInt "-3" = Some (-3)%Z
  ∧ parseInt "eight" = None ∧ parseInt EmptyString = None.
Proof. vm_compute. repeat split. Qed.

Lemma trimEnd_empty (s : string) : isEmpty (trimEnd s) = allWhiteSpace s.
Proof.
  induction s as [|c s IH]; simpl; [reflexivity |].
  rewrite IH. destruct (isWhiteSpace c), (allWhiteSpace s); reflexivity.
Qed.

Lemma trimStart_allWhiteSpace (s : string) :
  allWhiteSpace (trimStart s) = allWhiteSpace s.
Proof.
  induction s as [|c s IH]; simpl; [reflexivity |].
  destruct (isWhiteSpace c) eqn:E; simpl; [exact IH | now rewrite E].
Qed.

(** The trimmed value is empty exactly when the value is white space
    only. *)
Lemma trim_empty (s : string) : isEmpty (trim s) = allWhiteSpace s.
Proof. unfold trim. now rewrite trimEnd_empty, trimStart_allWhiteSpace. Qed.


Lemma trim_truthy_nonempty (s : string) : truthy (trim s) = true → truthy s = true.
Proof.
  unfold truthy. rewrite trim_empty. destruct s; simpl; [discriminate | reflexivity].
Qed.

(** *** Derivatives compute the denotation *)

Lemma nullable_Matches (r : regex) : nullable r = true ↔ Matches r EmptyString.
Proof.
  induction r as [| |p|r1 IH1 r2 IH2|r1 IH1 r2 IH2|r IH]; simpl.
  - split; [discriminate | inversion 1].
  - split; [constructor | reflexivity].
  - split; [discriminate | inversion 1].
  - rewrite andb_true_iff, IH1, IH2. split.
    + intros [H1 H2]. exact (MCat _ _ _ _ H1 H2).
    + intros H. inversion H as [| |? ? s1 s2 H1 H2 Er Es| | | |]; subst.
      apply append_eq_empty in Es as [-> ->]. now split.
  - rewrite orb_true_iff, IH1, IH2. split.
    + intros [H|H]; [now apply MAltL | now apply MAltR].
    + inversion 1; subst; [now left | now right].
  - split; [constructor | reflexivity].
Qed.

Lemma deriv_sound (r : regex) : ∀ c s, Matches (deriv c r) s → Matches r (String c s).
Proof.
  induction r as [| |p|r1 IH1 r2 IH2|r1 IH1 r2 IH2|r IH]; simpl; intros c s H.
  - inversion H.
  - inversion H.
  - destruct (p c) eqn:E; inversion H; subst. now constructor.
  - destruct (nullable r1) eqn:N.
    + inversion H as [| | |? ? ? HL|? ? ? HR| |]; subst.
      * inversion HL as [| |? ? s1 s2 H1 H2| | | |]; subst.
        exact (MCat _ _ (String c s1) s2 (IH1 _ _ H1) H2).
      * apply nullable_Matches in N.
        exact (MCat _ _ EmptyString (String c s) N (IH2 _ _ HR)).
    + inversion H as [| |? ? s1 s2 H1 H2| | | |]; subst.
      exact (MCat _ _ (String c s1) s2 (IH1 _ _ H1) H2).
  - inversion H; subst; [apply MAltL | apply MAltR]; auto.
  - inversion H as [| |? ? s1 s2 H1 H2| | | |]; subst.
    exact (MStarCons _ (String c s1) s2 (IH _ _ H1) H2).
Qed.

Lemma deriv_complete (r : regex) (w : string) :
  Matches r w → ∀ c s, w = String c s → Matches (deriv c r) s.
Proof.
  induction 1 as [|p d Hp|r1 r2 s1 s2 H1 IH1 H2 IH2|r1 r2 s0 H0 IH0|r1 r2 s0 H0 IH0
                 |r|r s1 s2 H1 IH1 H2 IH2]; intros c s E; simpl.
  - discriminate.
  - injection E as -> <-. rewrite Hp. constructor.
  - apply append_eq_cons in E as [[-> ->]|(s1' & -> & ->)].
    + apply nullable_Matches in H1. rewrite H1. apply MAltR. now apply IH2.
    + destruct (nullable r1).
      * apply MAltL. apply MCat; [now apply IH1 | exact H2].
      * apply MCat; [now apply IH1 | exact H2].
  - apply MAltL. now apply IH0.
  - apply MAltR. now apply IH0.
  - discriminate.
  - apply append_eq_cons in E as [[-> ->]|(s1' & -> & ->)].
    + now apply IH2.
    + apply MCat; [now apply IH1 | exact H2].
Qed.

(** [test] decides the denotation. *)
Lemma test_Matches (s : string) : ∀ r, test r s = true ↔ Matches r s.
Proof.
  induction s as [|c s IH]; intros r; simpl.
  - apply nullable_Matches.
  - rewrite IH. split; [apply deriv_sound | intros H; now apply (deriv_complete _ _ H)].
Qed.

(** *** Lower-casing leaves the separators alone *)

Lemma toLowerChar_preserves (d : ascii) (c : ascii) :
  (d = "@" ∨ d = ".")%char → Ascii.eqb d (toLowerChar c) = Ascii.eqb d c.
Proof.
  intros [-> | ->];
    destruct c as [[] [] [] [] [] [] [] []]; vm_compute; reflexivity.
Qed.

Lemma includes_toLowerCase (d : ascii) (s : string) :
  (d = "@" ∨ d = ".")%char → includes d (toLowerCase s) = includes d s.
Proof.
  intros Hd. induction s as [|c s IH]; simpl; [reflexivity |].
  now rewrite (toLowerChar_preserves d c Hd), IH.
Qed.

End JSFacts.

(** ** Validation *)

Module ValidationFacts.
Import Dom FormHandler Rules.

#[local] Arguments markFieldAsInvalid : simpl never.
#[local] Arguments clearFieldValidation : simpl never.

(** *** isValidEmail *)

Example isValidEmail_samples :
  isValidEmail "a@b.c" = true ∧ isValidEmail "First.Last@Mail.Example.ORG" = true
  ∧ isValidEmail "a@b" = false ∧ isValidEmail "a b@c.d" = false
  ∧ isValidEmail "a@@b.c" = false ∧ isValidEmail "a@b." = false
  ∧ isValidEmail "@b.c" = false.
Proof. vm_compute. repeat split. Qed.

Lemma Matches_Lit (c : ascii) (s : string) :
  JS.Matches (JS.Lit c) s → s = String c EmptyString.
Proof.
  inversion 1 as [|p d Hp| | | | |]; subst.
  apply Ascii.eqb_eq in Hp. now subst.
Qed.

(** A string matching the pattern has an at sign, and a dot after it. *)
Lemma emailPattern_shape (s : string) :
  JS.Matches emailPattern s →
  ∃ a b c, s = a +:+ "@" +:+ b +:+ "." +:+ c.
Proof.
  unfold emailPattern. intros H.
  inversion H as [| |? ? a s1 Ha H1| | | |]; subst.
  inversion H1 as [| |? ? at' s2 Hat H2| | | |]; subst.
  inversion H2 as [| |? ? b s3 Hb H3| | | |]; subst.
  inversion H3 as [| |? ? dot c Hdot Hc| | | |]; subst.
  apply Matches_Lit in Hat, Hdot. subst.
  exists a, b, c. reflexivity.
Qed.

Lemma isValidEmail_includes (email : string) :
  isValidEmail email = true →
  JS.includes "@" email = true ∧ JS.includes "." email = true.
Proof.
  unfold isValidEmail. intros H.
  apply JSFacts.test_Matches, emailPattern_shape in H as (a & b & c & E).
  rewrite <- (JSFacts.includes_toLowerCase "@" email) by now left.
  rewrite <- (JSFacts.includes_toLowerCase "." email) by now right.
  rewrite E, !JSFacts.includes_append. simpl.
  split; [| rewrite !orb_true_r]; now rewrite ?orb_true_r.
Qed.

(** *** markFieldAsInvalid, clearFieldValidation *)

Lemma messages_alter (h : list string → list string) (g g' : nat)
      (fb : gmap nat (list string)) :
  h [] = [] →
  messages (alter h g fb) g' = if decide (g = g') then h (messages fb g') else messages fb g'.
Proof.
  intros Hh. unfold messages. rewrite !lookup_total_alt, lookup_alter.
  destruct (decide (g = g')) as [->|]; [|reflexivity].
  destruct (fb !! g'); simpl; [reflexivity | now rewrite Hh].
Qed.

Lemma messages_insert (ms : list string) (g g' : nat) (fb : gmap nat (list string)) :
  messages (<[g := ms]> fb) g' = if decide (g = g') then ms else messages fb g'.
Proof.
  unfold messages. rewrite !lookup_total_alt, lookup_insert.
  destruct (decide (g = g')); reflexivity.
Qed.

Lemma clearFieldValidation_field (f : Field) (fb : gmap nat (list string)) :
  (clearFieldValidation f fb).1 = setInvalid false f.
Proof. reflexivity. Qed.

Lemma clearFieldValidation_messages (f : Field) (fb : gmap nat (list string)) (g : nat) :
  messages (clearFieldValidation f fb).2 g
  = if decide (group f = g) then drop 1 (messages fb g) else messages fb g.
Proof. unfold clearFieldValidation. simpl. now apply messages_alter. Qed.

Lemma markFieldAsInvalid_field (f : Field) (m : string) (fb : gmap nat (list string)) :
  (markFieldAsInvalid f m fb).1 = setInvalid true f.
Proof. reflexivity. Qed.

(** Marking replaces rather than stacks: the first message of the group
    goes, the new one is appended; other groups are untouched. *)
Lemma markFieldAsInvalid_messages (f : Field) (m : string) (fb : gmap nat (list string))
      (g : nat) :
  messages (markFieldAsInvalid f m fb).2 g
  = if decide (group f = g) then replaceMessage (messages fb g) m else messages fb g.
Proof.
  unfold markFieldAsInvalid, clearFieldValidation, replaceMessage. simpl.
  rewrite messages_insert. destruct (decide (group f = g)) as [<-|]; [|].
  - rewrite messages_alter by reflexivity. now rewrite decide_True.
  - rewrite messages_alter by reflexivity. now rewrite decide_False.
Qed.

(** *** The callback of the loop *)

Lemma checkRequiredField_rule (f : Field) (fb : gmap nat (list string)) (isValid : bool) :
  checkRequiredField f fb isValid
  = match fieldRule f with
    | Some m => (markFieldAsInvalid f m fb, false)
    | None => (f, fb, isValid)
    end.
Proof.
  unfold checkRequiredField, fieldRule, requiredEmpty, emailMalformed, passwordTooShort.
  unfold JS.truthy at 1. rewrite JSFacts.trim_empty, negb_involutive.
  destruct (JS.allWhiteSpace (value f)); [reflexivity |].
  destruct (String.eqb (type f) "email" && negb (isValidEmail (value f))); [reflexivity |].
  destruct (String.eqb (type f) "password"); simpl; [|reflexivity].
  destruct (minLength f) as [s|]; simpl; [|reflexivity].
  destruct (JS.truthy s); simpl.
  - destruct (JS.parseInt s) as [n|]; simpl; [|reflexivity].
    destruct (Z.of_nat (String.length (value f)) <? n)%Z; reflexivity.
  - destruct (JS.parseInt s) as [n|]; reflexivity.
Qed.

(** *** The loop over the required fields *)

Lemma failsRule_Some (f : Field) (m : string) :
  required f = true → fieldRule f = Some m → failsRule f = true.
Proof. intros Hr Hm. unfold failsRule. now rewrite Hr, Hm. Qed.

Lemma failsRule_None (f : Field) : fieldRule f = None → failsRule f = false.
Proof. intros Hm. unfold failsRule. rewrite Hm. now destruct (required f). Qed.

Lemma failsRule_optional (f : Field) : required f = false → failsRule f = false.
Proof. intros Hr. unfold failsRule. now rewrite Hr. Qed.

Lemma annotate_required_Some (f : Field) (m : string) :
  required f = true → fieldRule f = Some m → annotate f = setInvalid true f.
Proof.
  intros Hr Hm. unfold annotate, failsRule. rewrite Hr, Hm. reflexivity.
Qed.

Lemma annotate_required_None (f : Field) :
  fieldRule f = None → annotate f = f.
Proof.
  intros Hm. unfold annotate, failsRule. rewrite Hm.
  destruct (required f); reflexivity.
Qed.

Lemma annotate_not_required (f : Field) : required f = false → annotate f = f.
Proof. intros Hr. unfold annotate, failsRule. now rewrite Hr. Qed.

Lemma loopMessages_cons (g : nat) (f : Field) (rest : list Field) :
  loopMessages g (f :: rest)
  = match (if required f && bool_decide (group f = g) then fieldRule f else None) with
    | Some m => m :: loopMessages g rest
    | None => loopMessages g rest
    end.
Proof. reflexivity. Qed.

(** The loop annotates exactly the required fields that fail their rule,
    keeps [isValid] only if there is none, and sends each group the
    messages of its failing fields in document order. *)
Lemma forEachRequired_spec (fs : list Field) :
  ∀ fb isValid fs' fb' isValid',
    forEachRequired fs fb isValid = (fs', fb', isValid') →
    fs' = annotate <$> fs
    ∧ isValid' = isValid && forallb (λ f, negb (failsRule f)) fs
    ∧ ∀ g, messages fb' g = foldl replaceMessage (messages fb g) (loopMessages g fs).
Proof.
  induction fs as [|f rest IH]; intros fb isValid fs' fb' isValid' E.
  - simpl in E. injection E as <- <- <-.
    split; [reflexivity|]. split; [now rewrite andb_true_r | reflexivity].
  - simpl in E. destruct (required f) eqn:Hr.
    + rewrite checkRequiredField_rule in E.
      destruct (fieldRule f) as [m|] eqn:Hm.
      * destruct (markFieldAsInvalid f m fb) as [f1 fb1] eqn:Emark.
        destruct (forEachRequired rest fb1 false) as [[rest' fb''] ok''] eqn:Erest.
        injection E as <- <- <-.
        destruct (IH _ _ _ _ _ Erest) as (-> & -> & Hmsgs).
        assert (f1 = setInvalid true f) as ->
            by (change f1 with (f1, fb1).1; now rewrite <- Emark).
        split; [simpl; now rewrite (annotate_required_Some f m)|].
        split.
        { simpl. rewrite (failsRule_Some f m) by assumption. simpl.
          now rewrite andb_false_r. }
        intros g. rewrite Hmsgs, loopMessages_cons, Hr, Hm. simpl.
        change fb1 with (setInvalid true f, fb1).2.
        rewrite <- Emark, markFieldAsInvalid_messages.
        destruct (decide (group f = g)) as [Hg|Hg].
        -- rewrite bool_decide_eq_true_2 by exact Hg. reflexivity.
        -- rewrite bool_decide_eq_false_2 by exact Hg. reflexivity.
      * destruct (forEachRequired rest fb isValid) as [[rest' fb''] ok''] eqn:Erest.
        injection E as <- <- <-.
        destruct (IH _ _ _ _ _ Erest) as (-> & -> & Hmsgs).
        split; [simpl; now rewrite (annotate_required_None f)|].
        split.
        { simpl. now rewrite (failsRule_None f). }
        intros g. rewrite Hmsgs, loopMessages_cons, Hm, Hr.
        now destruct (true && bool_decide (group f = g)).
    + destruct (forEachRequired rest fb isValid) as [[rest' fb''] ok''] eqn:Erest.
      injection E as <- <- <-.
      destruct (IH _ _ _ _ _ Erest) as (-> & -> & Hmsgs).
      split; [simpl; now rewrite (annotate_not_required f)|].
      split.
      { simpl. now rewrite (failsRule_optional f). }
      intros g. now rewrite Hmsgs, loopMessages_cons, Hr.
Qed.

(** *** querySelector *)

Lemma querySelectorFrom_Some (sel : Field → bool) (fs : list Field) :
  ∀ k j c, querySelectorFrom k sel fs = Some (j, c) →
    ∃ i, j = k + i ∧ fs !! i = Some c ∧ sel c = true.
Proof.
  induction fs as [|f rest IH]; intros k j c E; simpl in E; [discriminate|].
  destruct (sel f) eqn:Hsel.
  - injection E as <- <-. exists 0. split; [lia | now split].
  - destruct (IH _ _ _ E) as (i & -> & Hi & Hc).
    exists (S i). split; [lia | now split].
Qed.

Lemma querySelector_Some (sel : Field → bool) (fs : list Field) (j : nat) (c : Field) :
  querySelector sel fs = Some (j, c) → fs !! j = Some c ∧ sel c = true.
Proof.
  intros E. apply querySelectorFrom_Some in E as (i & -> & Hi & Hc). now split.
Qed.

(** A change of the fields that the selector cannot see does not change
    what it selects. *)
Lemma querySelectorFrom_fmap (sel : Field → bool) (h : Field → Field) (fs : list Field) :
  (∀ f, sel (h f) = sel f) →
  ∀ k, querySelectorFrom k sel (h <$> fs) = prod_map id h <$> querySelectorFrom k sel fs.
Proof.
  intros Hsel. induction fs as [|f rest IH]; intros k; simpl; [reflexivity|].
  rewrite Hsel. destruct (sel f); [reflexivity | apply IH].
Qed.

Lemma annotate_attributes (f : Field) :
  tag (annotate f) = tag f ∧ type (annotate f) = type f
  ∧ value (annotate f) = value f ∧ confirm (annotate f) = confirm f
  ∧ group (annotate f) = group f ∧ required (annotate f) = required f.
Proof. unfold annotate. destruct (failsRule f); repeat split. Qed.

Lemma isPasswordInput_annotate (f : Field) :
  isPasswordInput (annotate f) = isPasswordInput f.
Proof.
  unfold isPasswordInput.
  destruct (annotate_attributes f) as (-> & -> & _). reflexivity.
Qed.

Lemma isConfirmInput_annotate (f : Field) :
  isConfirmInput (annotate f) = isConfirmInput f.
Proof.
  unfold isConfirmInput. rewrite isPasswordInput_annotate.
  destruct (annotate_attributes f) as (_ & _ & _ & -> & _). reflexivity.
Qed.

(** *** validateForm as a whole *)

Lemma foldl_replaceMessage_app (ms : list string) (l1 l2 : list string) :
  foldl replaceMessage ms (l1 ++ l2) = foldl replaceMessage (foldl replaceMessage ms l1) l2.
Proof. apply foldl_app. Qed.

(** The form after the call, in terms of the form before it. *)
Lemma validateForm_spec (form : Form) :
  let fs := fields form in
  let form' := (validateForm form).1 in
  (validateForm form).2
    = forallb (λ f, negb (failsRule f)) fs && bool_decide (confirmTarget fs = None)
  ∧ fields form'
    = match confirmTarget fs with
      | Some j => alter (setInvalid true) j (annotate <$> fs)
      | None => annotate <$> fs
      end
  ∧ (∀ g, messages (feedback form') g
          = foldl replaceMessage (messages (feedback form) g)
              (loopMessages g fs ++ confirmMessages g fs))
  ∧ submitButton form' = submitButton form
  ∧ formLoading form' = formLoading form.
Proof.
  intros fs form'. subst form'. unfold validateForm. fold fs.
  destruct (forEachRequired fs (feedback form) true) as [[fs1 fb1] ok1] eqn:Eloop.
  destruct (forEachRequired_spec _ _ _ _ _ _ Eloop) as (-> & -> & Hmsgs).
  unfold confirmMessages, confirmTarget, querySelector.
  rewrite (querySelectorFrom_fmap _ _ _ isPasswordInput_annotate).
  rewrite (querySelectorFrom_fmap _ _ _ isConfirmInput_annotate).
  destruct (querySelectorFrom 0 isPasswordInput fs) as [[i p]|] eqn:Ep; cbn -[markFieldAsInvalid];
    [| repeat split; [now rewrite andb_true_r
                     | intros g; now rewrite Hmsgs, app_nil_r]].
  destruct (querySelectorFrom 0 isConfirmInput fs) as [[j c]|] eqn:Ec; cbn -[markFieldAsInvalid];
    [| repeat split; [now rewrite andb_true_r
                     | intros g; now rewrite Hmsgs, app_nil_r]].
  destruct (annotate_attributes p) as (_ & _ & -> & _).
  destruct (annotate_attributes c) as (_ & _ & -> & _ & Hgc & _).
  apply (querySelector_Some isConfirmInput) in Ec as [Hj _].
  destruct (String.eqb (value p) (value c)) eqn:Ev; cbn -[markFieldAsInvalid].
  - repeat split; [now rewrite andb_true_r | intros g; now rewrite Hmsgs, app_nil_r].
  - destruct (markFieldAsInvalid (annotate c) mismatchMessage fb1) as [c' fb'] eqn:Em.
    cbn -[markFieldAsInvalid]. split; [now rewrite andb_false_r|]. split.
    + assert (c' = setInvalid true (annotate c)) as ->
          by (change c' with (c', fb').1; now rewrite <- Em).
      apply list_eq. intros k. destruct (decide (j = k)) as [<-|Hne].
      * rewrite list_lookup_insert_eq, list_lookup_alter_eq, list_lookup_fmap, Hj.
        -- reflexivity.
        -- rewrite length_fmap. eapply lookup_lt_Some; eauto.
      * now rewrite list_lookup_insert_ne, list_lookup_alter_ne.
    + split; [|now split]. intros g. rewrite Hj.
      change fb' with (c', fb').2. rewrite <- Em, markFieldAsInvalid_messages, Hgc.
      rewrite foldl_replaceMessage_app, <- Hmsgs.
      destruct (decide (group c = g)) as [Hg|Hg].
      * rewrite bool_decide_eq_true_2 by exact Hg. reflexivity.
      * rewrite bool_decide_eq_false_2 by exact Hg. reflexivity.
Qed.

(** *** Consequences, field by field *)

Lemma confirmTarget_Some (fs : list Field) (j : nat) :
  confirmTarget fs = Some j →
  ∃ i p c, querySelector isPasswordInput fs = Some (i, p)
           ∧ querySelector isConfirmInput fs = Some (j, c)
           ∧ fs !! j = Some c ∧ value p ≠ value c.
Proof.
  unfold confirmTarget.
  destruct (querySelector isPasswordInput fs) as [[i p]|] eqn:Ep; [|discriminate].
  destruct (querySelector isConfirmInput fs) as [[k c]|] eqn:Ec; [|discriminate].
  destruct (String.eqb (value p) (value c)) eqn:Ev; [discriminate|].
  injection 1 as <-. exists i, p, c.
  apply String.eqb_neq in Ev.
  destruct (querySelector_Some _ _ _ _ Ec) as [Hk _]. now repeat split.
Qed.

Lemma failing_Some_inv (form : Form) (i : nat) (m : string) :
  failing form i = Some m →
  ∃ f, fields form !! i = Some f
       ∧ ((confirmTarget (fields form) = Some i ∧ m = mismatchMessage)
          ∨ (confirmTarget (fields form) ≠ Some i ∧ required f = true
             ∧ fieldRule f = Some m)).
Proof.
  unfold failing. destruct (fields form !! i) as [f|]; [|discriminate].
  intros H. exists f. split; [reflexivity|]. case_bool_decide as Ht.
  - left. injection H as <-. now split.
  - right. destruct (required f); [now repeat split | discriminate].
Qed.

Lemma failing_None_inv (form : Form) (i : nat) (f : Field) :
  failing form i = None → fields form !! i = Some f →
  confirmTarget (fields form) ≠ Some i ∧ failsRule f = false.
Proof.
  unfold failing. intros H Hf. rewrite Hf in H. case_bool_decide as Ht; [discriminate|].
  split; [exact Ht|]. destruct (required f) eqn:Hr.
  - now apply failsRule_None.
  - now apply failsRule_optional.
Qed.

Lemma setInvalid_annotate (f : Field) :
  setInvalid true (annotate f) = setInvalid true f.
Proof. unfold annotate. now destruct (failsRule f). Qed.

(** A field that fails is left annotated. *)
Lemma validateForm_marks (form : Form) (i : nat) (m : string) (f : Field) :
  failing form i = Some m → fields form !! i = Some f →
  fields (validateForm form).1 !! i = Some (setInvalid true f).
Proof.
  intros Hfail Hf.
  destruct (validateForm_spec form) as (_ & -> & _).
  apply failing_Some_inv in Hfail as (f0 & Hf0 & Hcase).
  rewrite Hf in Hf0. injection Hf0 as <-.
  destruct Hcase as [[Ht _]|(Ht & Hr & Hm)].
  - rewrite Ht, list_lookup_alter_eq, list_lookup_fmap, Hf. simpl.
    now rewrite setInvalid_annotate.
  - destruct (confirmTarget (fields form)) as [j|].
    + rewrite list_lookup_alter_ne by congruence.
      rewrite list_lookup_fmap, Hf. simpl. now rewrite (annotate_required_Some f m).
    + rewrite list_lookup_fmap, Hf. simpl. now rewrite (annotate_required_Some f m).
Qed.

(** A field that does not fail is left exactly as it was, annotation
    included. *)
Lemma validateForm_keeps (form : Form) (i : nat) :
  failing form i = None →
  fields (validateForm form).1 !! i = fields form !! i.
Proof.
  intros Hfail.
  destruct (validateForm_spec form) as (_ & -> & _).
  destruct (fields form !! i) as [f|] eqn:Hf.
  - destruct (failing_None_inv _ _ _ Hfail Hf) as [Ht Hrule].
    assert (annotate f = f) as Ha by (unfold annotate; now rewrite Hrule).
    destruct (confirmTarget (fields form)) as [j|].
    + rewrite list_lookup_alter_ne by congruence.
      rewrite list_lookup_fmap, Hf. simpl. now rewrite Ha.
    + rewrite list_lookup_fmap, Hf. simpl. now rewrite Ha.
  - destruct (confirmTarget (fields form)) as [j|].
    + destruct (decide (j = i)) as [->|Hne].
      * rewrite list_lookup_alter_eq, list_lookup_fmap, Hf. reflexivity.
      * rewrite list_lookup_alter_ne by exact Hne. now rewrite list_lookup_fmap, Hf.
    + now rewrite list_lookup_fmap, Hf.
Qed.

(** [validateForm] answers true exactly when no field fails. *)
Lemma validateForm_true_iff (form : Form) :
  (validateForm form).2 = true ↔ ∀ i, failing form i = None.
Proof.
  destruct (validateForm_spec form) as (-> & _).
  rewrite andb_true_iff, forallb_forall, bool_decide_eq_true. split.
  - intros [Hall Ht] i. unfold failing.
    destruct (fields form !! i) as [f|] eqn:Hf; [|reflexivity].
    rewrite Ht. rewrite bool_decide_eq_false_2 by discriminate.
    assert (In f (fields form)) as Hin
        by (apply list_elem_of_In, list_elem_of_lookup; eauto).
    specialize (Hall f Hin). apply negb_true_iff in Hall.
    unfold failsRule in Hall. destruct (required f); [|reflexivity].
    destruct (fieldRule f); [discriminate | reflexivity].
  - intros Hnone. split.
    + intros f Hin. apply list_elem_of_In, list_elem_of_lookup in Hin as [i Hf].
      apply negb_true_iff. now destruct (failing_None_inv _ _ _ (Hnone i) Hf).
    + destruct (confirmTarget (fields form)) as [j|] eqn:Ht; [|reflexivity].
      destruct (confirmTarget_Some _ _ Ht) as (i & p & c & _ & _ & Hj & _).
      specialize (Hnone j). unfold failing in Hnone.
      rewrite Hj, Ht, bool_decide_eq_true_2 in Hnone by reflexivity. discriminate.
Qed.

(** *** Consequences, group by group *)

Lemma ownGroup_spec (fs : list Field) (i : nat) (f : Field) :
  ownGroup fs i = true → fs !! i = Some f →
  ∀ j f', j ≠ i → fs !! j = Some f' → group f' ≠ group f.
Proof.
  unfold ownGroup. intros H Hf j f' Hne Hj. rewrite Hf in H.
  rewrite forallb_forall in H.
  specialize (H (j, f')). simpl in H.
  assert (In (j, f') (imap pair fs)) as Hin
      by (apply list_elem_of_In, (elem_of_lookup_imap_2 pair); exact Hj).
  specialize (H Hin). apply orb_true_iff in H as [H|H].
  - apply Nat.eqb_eq in H. contradiction.
  - apply negb_true_iff, Nat.eqb_neq in H. exact H.
Qed.

Lemma last_foldl_replaceMessage (l ms : list string) :
  last (foldl replaceMessage ms l)
  = match last l with Some m => Some m | None => last ms end.
Proof.
  induction l as [|m l IH] using rev_ind; [reflexivity|].
  rewrite foldl_app, !last_snoc. simpl. unfold replaceMessage. apply last_snoc.
Qed.

Lemma foldl_replaceMessage_nonempty (l ms : list string) :
  l ≠ [] → foldl replaceMessage ms l ≠ [].
Proof.
  intros Hl Hnil.
  pose proof (last_foldl_replaceMessage l ms) as H. rewrite Hnil in H.
  apply last_is_Some in Hl as [m Hm]. rewrite Hm in H. discriminate.
Qed.

Lemma loopMessages_elem (fs : list Field) (i : nat) (f : Field) (m : string) :
  fs !! i = Some f → required f = true → fieldRule f = Some m →
  m ∈ loopMessages (group f) fs.
Proof.
  intros Hf Hr Hm. unfold loopMessages. apply list_elem_of_omap.
  exists f. split; [apply list_elem_of_lookup; eauto|].
  now rewrite Hr, bool_decide_eq_true_2.
Qed.

Lemma loopMessages_other (g : nat) (fs : list Field) :
  (∀ j f', fs !! j = Some f' → group f' ≠ g) → loopMessages g fs = [].
Proof.
  induction fs as [|f rest IH]; intros H; [reflexivity|].
  rewrite loopMessages_cons.
  rewrite bool_decide_eq_false_2 by exact (H 0 f eq_refl).
  rewrite andb_false_r. apply IH. intros j f' Hj. exact (H (S j) f' Hj).
Qed.

Lemma loopMessages_own (fs : list Field) :
  ∀ i f, fs !! i = Some f →
    (∀ j f', j ≠ i → fs !! j = Some f' → group f' ≠ group f) →
    loopMessages (group f) fs = if required f then option_list (fieldRule f) else [].
Proof.
  induction fs as [|f0 rest IH]; intros i f Hf Hown; [discriminate|].
  rewrite loopMessages_cons. destruct i as [|i].
  - injection Hf as ->.
    rewrite bool_decide_eq_true_2 by reflexivity. rewrite andb_true_r.
    rewrite (loopMessages_other (group f) rest)
      by (intros j f' Hj; exact (Hown (S j) f' ltac:(lia) Hj)).
    destruct (required f); [|reflexivity]. now destruct (fieldRule f).
  - rewrite bool_decide_eq_false_2 by exact (Hown 0 f0 ltac:(lia) eq_refl).
    rewrite andb_false_r. apply (IH i f Hf).
    intros j f' Hne Hj. exact (Hown (S j) f' ltac:(lia) Hj).
Qed.

Lemma confirmMessages_own (fs : list Field) (i : nat) (f : Field) :
  fs !! i = Some f →
  (∀ j f', j ≠ i → fs !! j = Some f' → group f' ≠ group f) →
  confirmMessages (group f) fs
  = if bool_decide (confirmTarget fs = Some i) then [mismatchMessage] else [].
Proof.
  intros Hf Hown. unfold confirmMessages.
  destruct (confirmTarget fs) as [j|]; [|reflexivity].
  destruct (decide (j = i)) as [->|Hne].
  - rewrite Hf, !bool_decide_eq_true_2 by reflexivity. reflexivity.
  - rewrite (bool_decide_eq_false_2 (Some j = Some i)) by congruence.
    destruct (fs !! j) as [c|] eqn:Hj; [|reflexivity].
    now rewrite bool_decide_eq_false_2 by exact (Hown j c Hne Hj).
Qed.

(** The group of a failing field shows a message after the call. *)
Lemma validateForm_shows_message (form : Form) (i : nat) (m : string) (f : Field) :
  failing form i = Some m → fields form !! i = Some f →
  messages (feedback (validateForm form).1) (group f) ≠ [].
Proof.
  intros Hfail Hf.
  destruct (validateForm_spec form) as (_ & _ & -> & _).
  apply foldl_replaceMessage_nonempty.
  apply failing_Some_inv in Hfail as (f0 & Hf0 & Hcase).
  rewrite Hf in Hf0. injection Hf0 as <-.
  destruct Hcase as [[Ht _]|(_ & Hr & Hm)].
  - unfold confirmMessages. rewrite Ht, Hf, bool_decide_eq_true_2 by reflexivity.
    intros H. apply app_eq_nil in H as [_ H]. discriminate.
  - pose proof (loopMessages_elem _ _ _ _ Hf Hr Hm) as Hin.
    intros H. apply app_eq_nil in H as [H _]. rewrite H in Hin.
    now apply not_elem_of_nil in Hin.
Qed.

(** When the field has its form group to itself, the group receives the
    messages of that field and nothing else. *)
Lemma validateForm_own_messages (form : Form) (i : nat) (f : Field) :
  fields form !! i = Some f → ownGroup (fields form) i = true →
  messages (feedback (validateForm form).1) (group f)
  = foldl replaceMessage (messages (feedback form) (group f))
      (ownMessages (fields form) i f).
Proof.
  intros Hf Hown. pose proof (ownGroup_spec _ _ _ Hown Hf) as Hother.
  destruct (validateForm_spec form) as (_ & _ & -> & _).
  unfold ownMessages.
  now rewrite (loopMessages_own _ _ _ Hf Hother), (confirmMessages_own _ _ _ Hf Hother).
Qed.

(** ... and the last message it shows is the one the field earned. *)
Lemma validateForm_last_message (form : Form) (i : nat) (m : string) (f : Field) :
  failing form i = Some m → fields form !! i = Some f →
  ownGroup (fields form) i = true →
  last (messages (feedback (validateForm form).1) (group f)) = Some m.
Proof.
  intros Hfail Hf Hown.
  rewrite (validateForm_own_messages _ _ _ Hf Hown), last_foldl_replaceMessage.
  unfold ownMessages.
  apply failing_Some_inv in Hfail as (f0 & Hf0 & Hcase).
  rewrite Hf in Hf0. injection Hf0 as <-.
  destruct Hcase as [[Ht ->]|(Ht & Hr & Hm)].
  - rewrite bool_decide_eq_true_2 by exact Ht. now rewrite last_snoc.
  - rewrite bool_decide_eq_false_2 by exact Ht.
    now rewrite Hr, Hm, app_nil_r.
Qed.

(** A group none of whose fields fails keeps its messages. *)
Lemma validateForm_group_frame (form : Form) (g : nat) :
  (∀ i f, fields form !! i = Some f → group f = g → failing form i = None) →
  messages (feedback (validateForm form).1) g = messages (feedback form) g.
Proof.
  intros Hnone.
  destruct (validateForm_spec form) as (_ & _ & -> & _).
  assert (loopMessages g (fields form) = []) as ->.
  { apply elem_of_nil_inv. intros m Hin.
    apply list_elem_of_omap in Hin as (f & Hfin & Hsome).
    apply list_elem_of_lookup in Hfin as [i Hf].
    destruct (required f) eqn:Hr; simpl in Hsome; [|discriminate].
    case_bool_decide as Hg; [|discriminate].
    destruct (failing_None_inv _ _ _ (Hnone i f Hf Hg) Hf) as [_ Hrule].
    now rewrite (failsRule_Some f m) in Hrule. }
  assert (confirmMessages g (fields form) = []) as ->; [|reflexivity].
  unfold confirmMessages.
  destruct (confirmTarget (fields form)) as [j|] eqn:Ht; [|reflexivity].
  destruct (fields form !! j) as [c|] eqn:Hj; [|reflexivity].
  case_bool_decide as Hg; [|reflexivity].
  destruct (failing_None_inv _ _ _ (Hnone j c Hj Hg) Hj) as [Hnot _].
  contradiction.
Qed.

(** *** The claims about validateForm *)

(** On forms, the view of a flat page.  [validateForm] answers true
    exactly when no field is marked during the call.  Every field that
    fails is annotated after the call and its form group shows a message,
    which is the field's own message when the field has the group to
    itself.  A field that does not fail is left as it was, and the messages
    of a form group none of whose fields fails are left as they were. *)
Theorem validateForm_annotations (form : Form) :
  ((validateForm form).2 = true ↔ ∀ i, failing form i = None)
  ∧ (∀ i m f, failing form i = Some m → fields form !! i = Some f →
       fields (validateForm form).1 !! i = Some (setInvalid true f)
       ∧ messages (feedback (validateForm form).1) (group f) ≠ []
       ∧ (ownGroup (fields form) i = true →
          last (messages (feedback (validateForm form).1) (group f)) = Some m))
  ∧ (∀ i, failing form i = None →
       fields (validateForm form).1 !! i = fields form !! i)
  ∧ (∀ g, (∀ i f, fields form !! i = Some f → group f = g → failing form i = None) →
       messages (feedback (validateForm form).1) g = messages (feedback form) g).
Proof.
  split; [apply validateForm_true_iff|].
  split; [|split; [apply validateForm_keeps | apply validateForm_group_frame]].
  intros i m f Hfail Hf.
  split; [now apply (validateForm_marks form i m)|].
  split; [now apply (validateForm_shows_message form i m)|].
  intros Hown. now apply (validateForm_last_message form i m).
Qed.

Lemma validateForm_annotations_witness :
  fields (validateForm Samples.mismatchedForm).1 !! 1
  = Some (setInvalid true Samples.mismatchedConfirm)
  ∧ messages (feedback (validateForm Samples.mismatchedForm).1) 1 ≠ []
  ∧ last (messages (feedback (validateForm Samples.mismatchedForm).1) 1)
    = Some mismatchMessage.
Proof.
  destruct (validateForm_annotations Samples.mismatchedForm) as (_ & Hmarked & _).
  destruct (Hmarked 1 mismatchMessage Samples.mismatchedConfirm eq_refl eq_refl)
    as (Hclass & Hshown & Hlast).
  exact (conj Hclass (conj Hshown (Hlast eq_refl))).
Defined.

(** [staleForm] is what the component itself produces: a submit with
    differing passwords marks the confirmation field, then the user corrects
    the password field, whose input listener clears that field only. *)
Lemma staleForm_reachable :
  (validateForm Samples.mismatchedForm).2 = false
  ∧ userTypes 0 "secret1" (validateForm Samples.mismatchedForm).1 = Samples.staleForm.
Proof. vm_compute. split; reflexivity. Qed.

(** C2, counterexample.  The confirmation field of [staleForm] is
    annotated from an earlier call and no longer fails; the call answers
    true and leaves the class and the message in place. *)
Lemma validateForm_keeps_stale_annotation :
  failing Samples.staleForm 1 = None
  ∧ isInvalid <$> fields Samples.staleForm !! 1 = Some true
  ∧ (validateForm Samples.staleForm).2 = true
  ∧ isInvalid <$> fields (validateForm Samples.staleForm).1 !! 1 = Some true
  ∧ messages (feedback (validateForm Samples.staleForm).1) 1 = [mismatchMessage].
Proof. vm_compute. repeat split. Qed.

Lemma isEmpty_true (s : string) : JS.isEmpty s = true ↔ s = EmptyString.
Proof. destruct s; simpl; split; congruence. Qed.

Lemma isConfirmInput_password (c : Field) :
  isConfirmInput c = true → type c = "password" ∧ confirm c = true.
Proof.
  unfold isConfirmInput, isPasswordInput. intros H.
  apply andb_true_iff in H as [H1 H2]. split; [|exact H2].
  destruct (tag c); try discriminate. now apply String.eqb_eq.
Qed.

Lemma confirmTarget_is_password (fs : list Field) (i : nat) (f : Field) :
  fs !! i = Some f → confirmTarget fs = Some i → type f = "password".
Proof.
  intros Hf Ht.
  destruct (confirmTarget_Some _ _ Ht) as (k & p & c & _ & Hq & Hc & _).
  rewrite Hf in Hc. injection Hc as <-.
  apply querySelector_Some in Hq as [_ Hsel].
  now apply isConfirmInput_password in Hsel.
Qed.

(** A field that fails its own rule and is not the target of the
    confirmation check ends the call marked with its message. *)
Lemma failing_markedWith (form : Form) (i : nat) (f : Field) (m : string) :
  fields form !! i = Some f → required f = true → fieldRule f = Some m →
  confirmTarget (fields form) ≠ Some i →
  markedWith form i f m.
Proof.
  intros Hf Hr Hm Ht.
  assert (failing form i = Some m) as Hfail.
  { unfold failing. rewrite Hf, bool_decide_eq_false_2 by exact Ht. now rewrite Hr. }
  unfold markedWith.
  split.
  { destruct (validateForm form).2 eqn:Hv; [|reflexivity].
    pose proof (proj1 (validateForm_true_iff form) Hv i) as Hn.
    rewrite Hn in Hfail. discriminate. }
  split; [now apply (validateForm_marks form i m)|].
  split; [now apply (validateForm_shows_message form i m)|].
  intros Hown. rewrite (validateForm_own_messages _ _ _ Hf Hown).
  unfold ownMessages. rewrite Hr, Hm, bool_decide_eq_false_2 by exact Ht.
  reflexivity.
Qed.

(** On forms, the view of a flat page.  A required email field whose
    trimmed value is empty is marked with the required message; one whose
    trimmed value is not empty and whose value lacks an at sign or a dot is
    marked with the format message. *)
Theorem validateForm_required_email (form : Form) (i : nat) (f : Field) :
  fields form !! i = Some f → required f = true → type f = "email" →
  (JS.trim (value f) = EmptyString → markedWith form i f requiredMessage)
  ∧ (JS.trim (value f) ≠ EmptyString →
     JS.includes "@" (value f) = false ∨ JS.includes "." (value f) = false →
     markedWith form i f emailMessage).
Proof.
  intros Hf Hr Hty.
  assert (confirmTarget (fields form) ≠ Some i) as Ht.
  { intros Ht. apply (confirmTarget_is_password _ _ _ Hf) in Ht.
    rewrite Hty in Ht. discriminate. }
  split.
  - intros Hempty. apply failing_markedWith; try assumption.
    unfold fieldRule, requiredEmpty.
    rewrite <- JSFacts.trim_empty, Hempty. reflexivity.
  - intros Hne Hlack. apply failing_markedWith; try assumption.
    unfold fieldRule, requiredEmpty, emailMalformed.
    rewrite <- JSFacts.trim_empty.
    destruct (JS.isEmpty (JS.trim (value f))) eqn:He;
      [apply isEmpty_true in He; contradiction|].
    rewrite Hty. simpl.
    destruct (isValidEmail (value f)) eqn:Hvalid; [|reflexivity].
    apply isValidEmail_includes in Hvalid as [Hat Hdot].
    destruct Hlack as [H|H]; congruence.
Qed.

Lemma validateForm_required_email_witness :
  markedWith Samples.requiredEmailForm 0 Samples.requiredEmail emailMessage.
Proof.
  refine (proj2 (validateForm_required_email Samples.requiredEmailForm 0
                   Samples.requiredEmail eq_refl eq_refl eq_refl) _ _).
  - vm_compute. discriminate.
  - left. reflexivity.
Defined.

(** C3, counterexample.  An email field that is not required holds a
    value without an at sign; the call answers true and marks nothing. *)
Lemma validateForm_skips_optional_email :
  type Samples.optionalEmail = "email"
  ∧ JS.includes "@" (value Samples.optionalEmail) = false
  ∧ (validateForm Samples.optionalEmailForm).2 = true
  ∧ fields (validateForm Samples.optionalEmailForm).1 = [Samples.optionalEmail]
  ∧ messages (feedback (validateForm Samples.optionalEmailForm).1) 0 = [].
Proof. vm_compute. repeat split. Qed.

(** *** The blur listener against the loop callback *)




(** *** The confirmation check *)

Lemma querySelectorFrom_first (sel : Field → bool) (fs : list Field) :
  ∀ k j c, querySelectorFrom k sel fs = Some (j, c) →
    ∀ i f, fs !! i = Some f → sel f = true → j ≤ k + i.
Proof.
  induction fs as [|f0 rest IH]; intros k j c E i f Hf Hsel; [discriminate|].
  simpl in E. destruct (sel f0) eqn:H0.
  - injection E as <- <-. lia.
  - destruct i as [|i]; [injection Hf as ->; congruence|].
    specialize (IH _ _ _ E i f Hf Hsel). lia.
Qed.

Lemma querySelectorFrom_found (sel : Field → bool) (fs : list Field) :
  ∀ k i f, fs !! i = Some f → sel f = true →
    ∃ j c, querySelectorFrom k sel fs = Some (j, c).
Proof.
  induction fs as [|f0 rest IH]; intros k i f Hf Hsel; [discriminate|].
  simpl. destruct (sel f0) eqn:H0; [eauto|].
  destruct i as [|i]; [injection Hf as ->; congruence|].
  exact (IH (S k) i f Hf Hsel).
Qed.

(** When the first password input of the form is the one that carries the
    confirmation marker, it is compared with itself and the check never
    fires. *)
Lemma confirmTarget_confirm_first (fs : list Field) (j : nat) (c : Field) :
  querySelector isPasswordInput fs = Some (j, c) → confirm c = true →
  confirmTarget fs = None.
Proof.
  intros Hp Hc. unfold confirmTarget. rewrite Hp.
  destruct (querySelector_Some _ _ _ _ Hp) as [Hj Hsel].
  assert (isConfirmInput c = true) as Hconf
      by (unfold isConfirmInput; now rewrite Hsel, Hc).
  destruct (querySelectorFrom_found isConfirmInput fs 0 j c Hj Hconf) as (j' & c' & Hq).
  unfold querySelector. rewrite Hq.
  pose proof (querySelectorFrom_first _ _ _ _ _ Hq j c Hj Hconf) as Hle1.
  apply (querySelector_Some isConfirmInput) in Hq as [Hj' Hsel'].
  assert (isPasswordInput c' = true) as Hpw'
      by (unfold isConfirmInput in Hsel'; now apply andb_true_iff in Hsel' as [? _]).
  pose proof (querySelectorFrom_first _ _ _ _ _ Hp j' c' Hj' Hpw') as Hle2.
  assert (j' = j) as -> by lia.
  rewrite Hj in Hj'. injection Hj' as <-.
  now rewrite String.eqb_refl.
Qed.

(** When the first password input and the first confirmation input hold
    different values, the confirmation input is marked, the last message
    of its form group is the mismatch message, and the call answers
    false, whatever the per-field checks said. *)
Lemma validateForm_confirm_mismatch (form : Form) (i j : nat) (p c : Field) :
  querySelector isPasswordInput (fields form) = Some (i, p) →
  querySelector isConfirmInput (fields form) = Some (j, c) →
  value p ≠ value c →
  (validateForm form).2 = false
  ∧ fields (validateForm form).1 !! j = Some (setInvalid true c)
  ∧ last (messages (feedback (validateForm form).1) (group c)) = Some mismatchMessage.
Proof.
  intros Hp Hc Hne.
  assert (confirmTarget (fields form) = Some j) as Ht.
  { unfold confirmTarget. rewrite Hp, Hc.
    apply String.eqb_neq in Hne. now rewrite Hne. }
  destruct (querySelector_Some _ _ _ _ Hc) as [Hj _].
  assert (failing form j = Some mismatchMessage) as Hfail.
  { unfold failing. now rewrite Hj, Ht, bool_decide_eq_true_2. }
  split.
  { destruct (validateForm form).2 eqn:Hv; [|reflexivity].
    pose proof (proj1 (validateForm_true_iff form) Hv j) as Hn.
    rewrite Hn in Hfail. discriminate. }
  split; [now apply (validateForm_marks form j mismatchMessage)|].
  destruct (validateForm_spec form) as (_ & _ & -> & _).
  rewrite last_foldl_replaceMessage. unfold confirmMessages.
  rewrite Ht, Hj, bool_decide_eq_true_2 by reflexivity.
  now rewrite last_snoc.
Qed.

Lemma validateForm_confirm_mismatch_sample :
  (validateForm Samples.passwordFirstForm).2 = false
  ∧ isInvalid <$> fields (validateForm Samples.passwordFirstForm).1 !! 1 = Some true
  ∧ messages (feedback (validateForm Samples.passwordFirstForm).1) 1 = [mismatchMessage].
Proof. vm_compute. repeat split. Qed.

(** C5, at the failing input.  The form has two password fields with
    different values, the first of which carries the confirmation marker;
    both pass their own checks.  The call answers true and marks
    nothing. *)
Theorem validateForm_confirm_first_sample :
  value <$> fields Samples.confirmFirstForm = ["secret2"; "secret1"]
  ∧ confirm <$> fields Samples.confirmFirstForm = [true; false]
  ∧ (validateForm Samples.confirmFirstForm).2 = true
  ∧ fields (validateForm Samples.confirmFirstForm).1 = fields Samples.confirmFirstForm
  ∧ ∀ g, messages (feedback (validateForm Samples.confirmFirstForm).1) g = [].
Proof.
  repeat split; vm_compute; reflexivity.
Qed.

End ValidationFacts.

(** ** Submission *)

Module SubmitFacts.
Import Dom FormHandler Rules.

#[local] Arguments toastMarkup : simpl never.

Ltac destruct_inner t :=
  lazymatch t with
  | context [match ?y with _ => _ end] => destruct_inner y
  | _ => destruct t eqn:?
  end.

(** Case analysis on every test the handler makes, innermost first. *)
Ltac crunch :=
  repeat (simpl in *;
          match goal with
          | |- context [match ?x with _ => _ end] => destruct_inner x
          end).

Ltac unfold_handler :=
  unfold onSubmit, tryCatchFinally, validateFormM, setFormLoading, submitBody,
    submitCatch, awaitFetch, awaitJson, showNotification, getProperty,
    resetIfConfigured, navigate, emitEvent, bind, ret, throw, getForm, getWindow,
    putForm, putWindow.

(** *** What validateForm leaves alone *)

Lemma validateForm_shape (form : Form) :
  ∃ fs fb, (validateForm form).1 = withFields fs fb form.
Proof.
  unfold validateForm.
  destruct (forEachRequired (fields form) (feedback form) true) as [[fs fb] ok].
  destruct (querySelector isPasswordInput fs) as [[i p]|]; [|simpl; eauto].
  destruct (querySelector isConfirmInput fs) as [[j c]|]; [|simpl; eauto].
  destruct (negb (String.eqb (value p) (value c))); [|simpl; eauto].
  destruct (markFieldAsInvalid c mismatchMessage fb) as [c' fb']. simpl. eauto.
Qed.

Lemma validateForm_lookup (form : Form) (i : nat) :
  fields (validateForm form).1 !! i
  = (λ f, match failing form i with Some _ => setInvalid true f | None => f end)
      <$> fields form !! i.
Proof.
  destruct (failing form i) as [m|] eqn:Hfail.
  - destruct (ValidationFacts.failing_Some_inv _ _ _ Hfail) as (f & Hf & _).
    rewrite Hf. simpl. now apply (ValidationFacts.validateForm_marks form i m).
  - rewrite (ValidationFacts.validateForm_keeps _ _ Hfail).
    now destruct (fields form !! i).
Qed.

(** An attribute that annotation does not touch reads the same after the
    call. *)
Lemma validateForm_attribute {A} (h : Field → A) (form : Form) :
  (∀ b f, h (setInvalid b f) = h f) →
  h <$> fields (validateForm form).1 = h <$> fields form.
Proof.
  intros Hh. apply list_eq. intros i.
  rewrite !list_lookup_fmap, validateForm_lookup.
  destruct (fields form !! i) as [f|]; [|reflexivity]. simpl.
  destruct (failing form i); [now rewrite Hh | reflexivity].
Qed.



Lemma reset_values (form : Form) :
  value <$> fields (reset form) = defaultValue <$> fields form.
Proof.
  unfold reset. simpl. rewrite <- list_fmap_compose. reflexivity.
Qed.

(** *** setFormLoading *)

Lemma setFormLoading_on (p : Page) (b : Button) :
  submitButton (form p) = Some b →
  setFormLoading true p
  = (mkPage (withLoading
               (Some (mkButton true true (originalText b) (loadingLabel (label b)) true))
               true (form p))
            (mkWindow (notifications (window p)) (href (window p))
               (trace (window p) ++ [LoadingOn])),
     Normal tt).
Proof.
  intros Hb. unfold setFormLoading, bind, getForm. simpl. now rewrite Hb.
Qed.

Lemma setFormLoading_off (p : Page) (b : Button) :
  submitButton (form p) = Some b →
  setFormLoading false p
  = (mkPage (withLoading
               (Some (mkButton false false (originalText b) (restoredLabel b) false))
               false (form p))
            (mkWindow (notifications (window p)) (href (window p))
               (trace (window p) ++ [LoadingOff])),
     Normal tt).
Proof.
  intros Hb. unfold setFormLoading, bind, getForm. simpl. now rewrite Hb.
Qed.

(** The request does not depend on the loading state. *)
Lemma submitRequest_loading (form : Form) (b : option Button) (l : bool)
      (n : list Toast) (t : list Event) (w : Window) :
  submitRequest (withLoading b l form) (mkWindow n (href w) t) = submitRequest form w.
Proof. reflexivity. Qed.

(** Without a submit control the very first assignment throws, in either
    direction, and nothing has been changed. *)
Lemma setFormLoading_null (isLoading : bool) (p : Page) :
  submitButton (form p) = None →
  setFormLoading isLoading p
  = (p, Throw (typeError "Cannot set properties of null (setting 'disabled')")).
Proof.
  intros Hb. unfold setFormLoading, bind, getForm, throw. simpl. now rewrite Hb.
Qed.

Section Platform.
Variable hasCloseControl : string → bool.
Variable fetch : Request → FetchResult.

(** *** showNotification *)

Lemma toastMarkup_verbatim :
  ∃ before between after, ∀ title text,
    toastMarkup title text = before +:+ title +:+ between +:+ text +:+ after.
Proof. exists toastBefore, toastBetween, toastAfter. reflexivity. Qed.

(** *** The submit listener *)

(** Validation failed: the listener returns at once.  The window, and
    with it the trace and the notifications, is as before; so are the
    submit control and the loading class. *)
Lemma onSubmit_invalid (p : Page) :
  (validateForm (form p)).2 = false →
  onSubmit hasCloseControl fetch p = (mkPage (validateForm (form p)).1 (window p), Normal tt).
Proof.
  intros Hv. unfold_handler. simpl.
  destruct (validateForm (form p)) as [form1 ok1]. simpl in *. now subst.
Qed.

(** ... so no request was issued, and the submit control and the loading
    class are as they were. *)
Lemma onSubmit_invalid_quiet (p : Page) :
  (validateForm (form p)).2 = false →
  let p' := (onSubmit hasCloseControl fetch p).1 in
  window p' = window p
  ∧ submitButton (form p') = submitButton (form p)
  ∧ formLoading (form p') = formLoading (form p).
Proof.
  intros Hv. rewrite (onSubmit_invalid p Hv). simpl.
  destruct (ValidationFacts.validateForm_spec (form p)) as (_ & _ & _ & Hb & Hl).
  now repeat split.
Qed.

(** Validation passed and there is no submit control: the listener
    throws out of [setFormLoading] before the [try] block is entered. *)
Lemma onSubmit_no_button (p : Page) :
  (validateForm (form p)).2 = true → submitButton (form p) = None →
  onSubmit hasCloseControl fetch p
  = (mkPage (validateForm (form p)).1 (window p),
     Throw (typeError "Cannot set properties of null (setting 'disabled')")).
Proof.
  intros Hv Hb. unfold_handler. simpl.
  destruct (ValidationFacts.validateForm_spec (form p)) as (_ & _ & _ & Hb1 & _).
  destruct (validateForm (form p)) as [form1 ok1]. simpl in *. subst.
  simpl. now rewrite Hb1, Hb.
Qed.

(** Validation passed and there is a submit control: the [try] block, and
    with it the request, starts on the page with loading engaged. *)
Lemma onSubmit_enters_try (p : Page) (b : Button) :
  (validateForm (form p)).2 = true → submitButton (form p) = Some b →
  onSubmit hasCloseControl fetch p
  = tryCatchFinally (submitBody hasCloseControl fetch) (submitCatch hasCloseControl)
      (setFormLoading false) (loadingPage b p).
Proof.
  intros Hv Hb. unfold onSubmit, validateFormM, bind, getForm, putForm, ret. simpl.
  destruct (ValidationFacts.validateForm_spec (form p)) as (_ & _ & _ & Hb1 & _).
  unfold loadingPage.
  destruct (validateForm (form p)) as [form1 ok1]. simpl in *. subst ok1. simpl.
  rewrite (setFormLoading_on (mkPage form1 (window p)) b) by (simpl; congruence).
  reflexivity.
Qed.

(** Validation passed and there is a submit control: loading is switched
    on, then the request is issued, then, whatever the outcome
    (success, failure status, rejected request, an exception in the
    handlers), loading is switched off, once, and the form ends with the
    control enabled and the loading classes gone. *)
Theorem onSubmit_loading_cycle (p : Page) (b : Button) :
  (validateForm (form p)).2 = true → submitButton (form p) = Some b →
  let p' := (onSubmit hasCloseControl fetch p).1 in
  ∃ errs,
    trace (window p')
    = trace (window p)
      ++ [LoadingOn; Fetch (submitRequest (validateForm (form p)).1 (window p))]
      ++ (ConsoleError <$> errs) ++ [LoadingOff]
    ∧ formLoading (form p') = false
    ∧ ∃ b', submitButton (form p') = Some b'
            ∧ disabled b' = false ∧ btnLoading b' = false ∧ spinner b' = false.
Proof.
  intros Hv Hb. unfold_handler. simpl.
  destruct (ValidationFacts.validateForm_spec (form p)) as (_ & _ & _ & Hb1 & _).
  destruct (validateForm (form p)) as [form1 ok1]. simpl in *. subst.
  simpl. rewrite Hb1, Hb. simpl.
  crunch; rewrite <- ?app_assoc; simpl;
    first [ exists []; simpl; split; [reflexivity | split; [reflexivity | eauto 10]]
          | eexists [_]; simpl; split; [reflexivity | split; [reflexivity | eauto 10]] ].
Qed.

(** *** Outcomes *)


(** C7, as the code has it.  On a response with a failure status whose
    body is an object with a non-empty message string, an error toast
    with that string is shown, provided its markup keeps the close
    control; when the body does not parse, or carries no message, the
    text is the fallback.  A body that does not parse is replaced by an
    empty object and the listener returns normally. *)
Theorem onSubmit_failure (p : Page) (b : Button) (response : Response) :
  (validateForm (form p)).2 = true → submitButton (form p) = Some b →
  fetch (submitRequest (validateForm (form p)).1 (window p)) = Resolved response →
  ok response = false →
  let r := onSubmit hasCloseControl fetch p in
  (∀ members text,
      json response = Some (Json.Object members) →
      Json.lookupLast "message" members = Some (Json.Str text) →
      text ≠ EmptyString →
      hasCloseControl (toastMarkup "Error" text) = true →
      notifications (window r.1) = notifications (window p) ++ [errorToast text]
      ∧ r.2 = Normal tt)
  ∧ (noMessage response = true →
      hasCloseControl (toastMarkup "Error" "An error occurred") = true →
      notifications (window r.1)
      = notifications (window p) ++ [errorToast "An error occurred"]
      ∧ r.2 = Normal tt).
Proof.
  intros Hv Hb Hfetch Hok.
  destruct (ValidationFacts.validateForm_spec (form p)) as (_ & _ & _ & Hb1 & _).
  unfold_handler. simpl.
  destruct (validateForm (form p)) as [form1 ok1]. simpl in *. subst ok1.
  simpl in *. rewrite Hb1, Hb. simpl. rewrite !submitRequest_loading, Hfetch. simpl.
  rewrite Hok. simpl.
  split.
  - intros members text Hjson Hmessage Hne Hclose.
    rewrite Hjson. simpl. rewrite Hmessage. simpl.
    destruct text as [|c text]; [contradiction|]. simpl.
    unfold errorToast in *. unfold orElse. simpl. rewrite Hclose. simpl. now split.
  - intros Hnone Hclose. unfold noMessage in Hnone. unfold errorToast in *.
    destruct (json response) as [[| | | | |members]|]; simpl in *;
      try discriminate;
      try (unfold orElse; simpl; rewrite Hclose; simpl; now split).
    apply negb_true_iff in Hnone.
    destruct (Json.lookupLast "message" members) as [v|]; simpl in *;
      [rewrite Hnone|]; simpl; unfold orElse; simpl; rewrite Hclose; simpl; now split.
Qed.

(** C10, as the code has it.  The markup of a toast is the template
    with title and message spliced in as they are.  When the parsed
    markup still has its close control, exactly one toast, with that
    markup, is appended to the container and nothing else changes. *)
Theorem showNotification_appends (title text type : string) (p : Page) :
  hasCloseControl (toastMarkup title text) = true →
  (∃ before between after, ∀ title' text',
      toastMarkup title' text' = before +:+ title' +:+ between +:+ text' +:+ after)
  ∧ showNotification hasCloseControl title text type p
    = (mkPage (form p)
         (mkWindow
            (notifications (window p)
             ++ [mkToast ("toast " +:+ type) (toastMarkup title text)])
            (href (window p)) (trace (window p))),
       Normal (mkToast ("toast " +:+ type) (toastMarkup title text))).
Proof.
  intros Hclose. split; [apply toastMarkup_verbatim|].
  unfold showNotification, bind, getWindow, putWindow, ret. simpl.
  now rewrite Hclose.
Qed.

(** When the close control is not found, the call throws before the
    toast is attached. *)
Lemma showNotification_throws (title text type : string) (p : Page) :
  hasCloseControl (toastMarkup title text) = false →
  showNotification hasCloseControl title text type p
  = (p, Throw (typeError "Cannot read properties of null (reading 'addEventListener')")).
Proof.
  intros Hclose. unfold showNotification, throw. simpl. now rewrite Hclose.
Qed.

End Platform.

Lemma onSubmit_loading_cycle_witness :
  ∃ errs,
    trace (window (onSubmit Samples.tokenizerHasCloseControl
                     (Samples.respond true None) Samples.contactPage).1)
    = [LoadingOn;
       Fetch (submitRequest (validateForm (form Samples.contactPage)).1 Samples.emptyWindow)]
      ++ (ConsoleError <$> errs) ++ [LoadingOff].
Proof.
  destruct (onSubmit_loading_cycle Samples.tokenizerHasCloseControl
              (Samples.respond true None) Samples.contactPage Samples.saveButton
              eq_refl eq_refl) as (errs & Htrace & _).
  exists errs. exact Htrace.
Defined.

(** *** The form without a submit control *)

(** C1, at the failing input.  The form is valid and no element matches
    the submit-control selector.  The listener ends with the loading
    state never engaged and no request issued: the trace is empty and no
    notification is shown. *)
Theorem onSubmit_without_button_never_loads
        (hasCloseControl : string → bool) (fetch : Request → FetchResult) :
  (validateForm Samples.buttonlessForm).2 = true
  ∧ trace (window (onSubmit hasCloseControl fetch Samples.buttonlessPage).1) = []
  ∧ notifications (window (onSubmit hasCloseControl fetch Samples.buttonlessPage).1) = []
  ∧ formLoading (form (onSubmit hasCloseControl fetch Samples.buttonlessPage).1) = false.
Proof.
  rewrite onSubmit_no_button by reflexivity. repeat split.
Qed.

(** C9, at the failing input.  No element of the form matches the
    submit-control selector.  Setting the form up goes through, and so does
    a submission that fails validation; a submission of the valid form
    throws a TypeError out of the listener. *)
Theorem onSubmit_without_button_throws
        (hasCloseControl : string → bool) (fetch : Request → FetchResult) :
  submitButton Samples.buttonlessForm = None
  ∧ listeners (setupForm Samples.buttonlessForm) = S (listeners Samples.buttonlessForm)
  ∧ (onSubmit hasCloseControl fetch Samples.buttonlessEmptyPage).2 = Normal tt
  ∧ (onSubmit hasCloseControl fetch Samples.buttonlessPage).2
    = Throw (typeError "Cannot set properties of null (setting 'disabled')").
Proof.
  rewrite (onSubmit_no_button _ _ Samples.buttonlessPage) by reflexivity.
  rewrite (onSubmit_invalid _ _ Samples.buttonlessEmptyPage) by reflexivity.
  repeat split.
Qed.

(** *** Witnesses and counterexamples on the sample pages *)



Lemma onSubmit_failure_witness :
  notifications (window (onSubmit Samples.tokenizerHasCloseControl
                           (Samples.respond false (Some Samples.messageBody))
                           Samples.contactPage).1)
  = notifications (window Samples.contactPage) ++ [errorToast "bad input"]
  ∧ (onSubmit Samples.tokenizerHasCloseControl
       (Samples.respond false (Some Samples.messageBody)) Samples.contactPage).2
    = Normal tt.
Proof.
  exact (proj1 (onSubmit_failure Samples.tokenizerHasCloseControl
                  (Samples.respond false (Some Samples.messageBody))
                  Samples.contactPage Samples.saveButton
                  (mkResponse false (Some Samples.messageBody))
                  eq_refl eq_refl eq_refl eq_refl)
               [("message", Json.Str "bad input")] "bad input"
               eq_refl eq_refl ltac:(discriminate) eq_refl).
Defined.

(** C7, counterexample.  The status is a failure and the body is the JSON
    value null.  Reading [result.message] throws, the catch block reports
    that error, and the toast shows its text rather than the fallback. *)
Lemma onSubmit_null_body_message :
  notifications (window (onSubmit Samples.tokenizerHasCloseControl
                           (Samples.respond false (Some Json.Null))
                           Samples.contactPage).1)
  = [errorToast "Cannot read properties of null (reading 'message')"].
Proof. vm_compute. reflexivity. Qed.

(** A truthy message that is not a string is coerced and shown; it does
    not give way to the fallback. *)
Lemma onSubmit_failure_coerces_message :
  notifications (window (onSubmit Samples.tokenizerHasCloseControl
                           (Samples.respond false (Some Samples.numericMessageBody))
                           Samples.contactPage).1)
  = [errorToast "42"].
Proof. vm_compute. reflexivity. Qed.

(** Markup in the message reaches the parser as markup: the element it
    opens is found in the toast. *)
Lemma toastMarkup_message_is_markup :
  Html.hasElementWithClass "injected" (toastMarkup "Error" "<img class=injected>") = true
  ∧ Html.hasElementWithClass "injected" (toastMarkup "Error" "plain text") = false.
Proof. vm_compute. split; reflexivity. Qed.

Lemma showNotification_appends_witness :
  showNotification Samples.tokenizerHasCloseControl "Error" "bad input" "error"
    Samples.contactPage
  = (mkPage (form Samples.contactPage)
       (mkWindow [errorToast "bad input"] (href Samples.emptyWindow) []),
     Normal (errorToast "bad input")).
Proof.
  exact (proj2 (showNotification_appends Samples.tokenizerHasCloseControl
                  "Error" "bad input" "error" Samples.contactPage eq_refl)).
Defined.

(** C10, counterexample.  The message opens a comment that is never
    closed.  The rest of the template, close control included, becomes
    the text of that comment, [querySelector] returns null, and the call
    throws with no toast appended. *)
Lemma showNotification_comment_swallows_close :
  Samples.tokenizerHasCloseControl (toastMarkup "Error" "<!--") = false
  ∧ showNotification Samples.tokenizerHasCloseControl "Error" "<!--" "error"
      Samples.contactPage
    = (Samples.contactPage,
       Throw (typeError "Cannot read properties of null (reading 'addEventListener')")).
Proof. vm_compute. split; reflexivity. Qed.

End SubmitFacts.

(** ** Construction *)

Module DocumentFacts.
Import Dom FormHandler.

Lemma find_None_filter (sel : Element → bool) (l : list Element) :
  find sel l = None ↔ List.filter sel l = [].
Proof.
  induction l as [|e l IH]; simpl; [tauto|].
  destruct (sel e); [split; discriminate | exact IH].
Qed.

Lemma getElementById_None (i : string) (d : Document) :
  getElementById i d = None ↔ countId i d = 0.
Proof.
  unfold getElementById, countId. rewrite find_None_filter.
  destruct (List.filter (hasId i) (headNodes d ++ bodyNodes d)); simpl; split;
    congruence.
Qed.

Lemma countId_split (i : string) (h b : list Element) :
  countId i (mkDocument h b)
  = length (List.filter (hasId i) h) + length (List.filter (hasId i) b).
Proof. unfold countId. simpl. now rewrite List.filter_app, length_app. Qed.

(** Appending an element to the head or to the body adds one to the count
    of its id and leaves the other ids alone. *)
Lemma countId_append_body (i : string) (d : Document) (e : Element) :
  countId i (mkDocument (headNodes d) (bodyNodes d ++ [e]))
  = countId i d + (if hasId i e then 1 else 0).
Proof.
  destruct d as [h b]. rewrite !countId_split. simpl.
  rewrite List.filter_app, length_app. simpl.
  destruct (hasId i e); simpl; lia.
Qed.

Lemma countId_append_head (i : string) (d : Document) (e : Element) :
  countId i (mkDocument (headNodes d ++ [e]) (bodyNodes d))
  = countId i d + (if hasId i e then 1 else 0).
Proof.
  destruct d as [h b]. rewrite !countId_split. simpl.
  rewrite List.filter_app, length_app. simpl.
  destruct (hasId i e); simpl; lia.
Qed.

Lemma createNotificationContainer_count (i : string) (d : Document) :
  countId i (createNotificationContainer d).1
  = if String.eqb i containerId then Nat.max 1 (countId i d) else countId i d.
Proof.
  unfold createNotificationContainer.
  destruct (getElementById containerId d) as [e|] eqn:Hfind; simpl.
  - destruct (String.eqb i containerId) eqn:Hi; [|reflexivity].
    apply String.eqb_eq in Hi. subst i.
    destruct (countId containerId d) eqn:Hc; [|lia].
    apply getElementById_None in Hc. congruence.
  - rewrite countId_append_body. unfold hasId. cbn [elemId].
    rewrite String.eqb_sym.
    destruct (String.eqb i containerId) eqn:Hi; [|lia].
    apply String.eqb_eq in Hi. subst i.
    apply getElementById_None in Hfind. rewrite Hfind. reflexivity.
Qed.

Lemma addStyles_count (i : string) (d : Document) :
  countId i (addStyles d)
  = if String.eqb i stylesId then Nat.max 1 (countId i d) else countId i d.
Proof.
  unfold addStyles.
  destruct (getElementById stylesId d) as [e|] eqn:Hfind; simpl.
  - destruct (String.eqb i stylesId) eqn:Hi; [|reflexivity].
    apply String.eqb_eq in Hi. subst i.
    destruct (countId stylesId d) eqn:Hc; [|lia].
    apply getElementById_None in Hc. congruence.
  - rewrite countId_append_head. unfold hasId. cbn [elemId].
    rewrite String.eqb_sym.
    destruct (String.eqb i stylesId) eqn:Hi; [|lia].
    apply String.eqb_eq in Hi. subst i.
    apply getElementById_None in Hfind. rewrite Hfind. reflexivity.
Qed.

Lemma construct_counts (d : Document) (forms : list Form) :
  countId containerId (construct d forms).1 = Nat.max 1 (countId containerId d)
  ∧ countId stylesId (construct d forms).1 = Nat.max 1 (countId stylesId d).
Proof.
  unfold construct, init. simpl.
  rewrite !addStyles_count, !createNotificationContainer_count. split; reflexivity.
Qed.

(** Once both elements are there, constructing again changes nothing in
    the document. *)
Lemma construct_fixed (d : Document) (forms : list Form) :
  1 ≤ countId containerId d → 1 ≤ countId stylesId d →
  (construct d forms).1 = d.
Proof.
  intros Hc Hs. unfold construct, init, createNotificationContainer, addStyles. simpl.
  destruct (getElementById containerId d) eqn:H1;
    [|apply getElementById_None in H1; lia].
  simpl. destruct (getElementById stylesId d) eqn:H2;
    [reflexivity | apply getElementById_None in H2; lia].
Qed.

Lemma construct_idempotent (d : Document) (forms forms' : list Form) :
  (construct (construct d forms).1 forms').1 = (construct d forms).1.
Proof.
  destruct (construct_counts d forms) as [Hc Hs].
  apply construct_fixed; lia.
Qed.

Lemma constructTimes_document (n : nat) :
  ∀ d forms, (constructTimes (S n) d forms).1 = (construct d forms).1.
Proof.
  induction n as [|n IH]; intros d forms.
  - simpl. now destruct (construct d forms).
  - change (constructTimes (S (S n)) d forms)
      with (let '(d', forms') := construct d forms in constructTimes (S n) d' forms').
    destruct (construct d forms) as [d1 forms1] eqn:E.
    rewrite IH. change d1 with (d1, forms1).1. rewrite <- E.
    apply construct_idempotent.
Qed.

(** X1.  The listeners, on the other hand, are installed anew by every
    construction. *)
Lemma constructTimes_listeners (n : nat) :
  ∀ d forms,
    listeners <$> (constructTimes n d forms).2 = (λ form, n + listeners form) <$> forms.
Proof.
  induction n as [|n IH]; intros d forms; simpl.
  - reflexivity.
  - unfold construct, init. simpl. rewrite IH, <- list_fmap_compose.
    apply list_fmap_ext. intros i form _. simpl. lia.
Qed.

(** C8.  However many times the component is constructed on a document in
    which ids are unique, the document ends with exactly one element of id
    notification-container and exactly one of id form-handler-styles, and
    it is the document the first construction produced. *)
Theorem construct_singletons (d : Document) (forms : list Form) (n : nat) :
  1 ≤ n → countId containerId d ≤ 1 → countId stylesId d ≤ 1 →
  countId containerId (constructTimes n d forms).1 = 1
  ∧ countId stylesId (constructTimes n d forms).1 = 1
  ∧ (constructTimes n d forms).1 = (construct d forms).1.
Proof.
  intros Hn Hc Hs. destruct n as [|n]; [lia|].
  rewrite constructTimes_document.
  destruct (construct_counts d forms) as [-> ->].
  repeat split; lia.
Qed.

Lemma construct_singletons_witness :
  countId containerId (constructTimes 3 Samples.emptyDocument []).1 = 1
  ∧ countId stylesId (constructTimes 3 Samples.emptyDocument []).1 = 1
  ∧ (constructTimes 3 Samples.emptyDocument []).1
    = (construct Samples.emptyDocument []).1.
Proof.
  apply (construct_singletons Samples.emptyDocument [] 3);
    [lia | vm_compute; lia | vm_compute; lia].
Defined.

End DocumentFacts.

(** ** The addresses isValidEmail accepts *)

Module EmailFacts.
Import JS FormHandler Shapes.

Lemma every_append (p : ascii → bool) (s1 s2 : string) :
  every p (s1 +:+ s2) = every p s1 && every p s2.
Proof.
  induction s1 as [|c s1 IH]; [reflexivity|].
  rewrite JSFacts.append_cons. simpl. now rewrite IH, andb_assoc.
Qed.

Lemma Matches_Star_every (p : ascii → bool) (s : string) :
  Matches (Star (Class p)) s ↔ every p s = true.
Proof.
  split.
  - intros H. remember (Star (Class p)) as r eqn:Er.
    induction H as [| | | | | |r0 s1 s2 H1 _ H2 IH2]; try discriminate; [reflexivity|].
    injection Er as ->. rewrite every_append, (IH2 eq_refl), andb_true_r.
    inversion H1 as [|q c Hc| | | | |]; subst. simpl. now rewrite Hc.
  - revert s. induction s as [|c s IH]; intros H; [constructor|].
    simpl in H. apply andb_true_iff in H as [Hc Hs].
    change (String c s) with (String c EmptyString +:+ s).
    apply MStarCons; [now constructor | now apply IH].
Qed.

Lemma Matches_Plus_every (p : ascii → bool) (s : string) :
  Matches (Plus (Class p)) s ↔ truthy s && every p s = true.
Proof.
  unfold Plus. split.
  - inversion 1 as [| |? ? s1 s2 H1 H2| | | |]; subst.
    inversion H1 as [|q c Hc| | | | |]; subst.
    apply Matches_Star_every in H2.
    rewrite JSFacts.append_cons, JSFacts.append_nil. simpl.
    now rewrite Hc, H2.
  - destruct s as [|c s]; [discriminate|]. simpl. intros H.
    apply andb_true_iff in H as [Hc Hs].
    change (String c s) with (String c EmptyString +:+ s).
    apply MCat; [now constructor | now apply Matches_Star_every].
Qed.

Lemma Matches_Lit_iff (c : ascii) (s : string) :
  Matches (Lit c) s ↔ s = String c EmptyString.
Proof.
  split; [apply ValidationFacts.Matches_Lit|].
  intros ->. constructor. apply Ascii.eqb_refl.
Qed.

(** The denotation of the pattern, spelled out. *)
Lemma emailPattern_Matches (s : string) :
  Matches emailPattern s ↔
  ∃ a b c, s = a +:+ "@" +:+ b +:+ "." +:+ c
           ∧ addressPart a = true ∧ addressPart b = true ∧ addressPart c = true.
Proof.
  unfold emailPattern, addressPart. split.
  - intros H.
    inversion H as [| |? ? a s1 Ha H1| | | |]; subst.
    inversion H1 as [| |? ? at' s2 Hat H2| | | |]; subst.
    inversion H2 as [| |? ? b s3 Hb H3| | | |]; subst.
    inversion H3 as [| |? ? dot c Hdot Hc| | | |]; subst.
    apply Matches_Lit_iff in Hat, Hdot. subst.
    apply Matches_Plus_every in Ha, Hb, Hc.
    exists a, b, c. now repeat split.
  - intros (a & b & c & -> & Ha & Hb & Hc).
    apply Matches_Plus_every in Ha, Hb, Hc.
    repeat (apply MCat; [assumption || now apply Matches_Lit_iff|]). exact Hc.
Qed.

(** *** Lower-casing *)

Lemma toLowerCase_append (s1 s2 : string) :
  toLowerCase (s1 +:+ s2) = toLowerCase s1 +:+ toLowerCase s2.
Proof.
  induction s1 as [|c s1 IH]; [reflexivity|].
  rewrite JSFacts.append_cons. simpl. now rewrite IH.
Qed.

Lemma notSpaceNorAt_toLowerChar (c : ascii) :
  notSpaceNorAt (toLowerChar c) = notSpaceNorAt c.
Proof. destruct c as [[] [] [] [] [] [] [] []]; vm_compute; reflexivity. Qed.

Lemma toLowerChar_separator (c d : ascii) :
  (d = "@" ∨ d = ".")%char → toLowerChar c = d ↔ c = d.
Proof.
  intros [-> | ->]; destruct c as [[] [] [] [] [] [] [] []]; vm_compute;
    split; congruence.
Qed.

Lemma addressPart_toLowerCase (s : string) :
  addressPart (toLowerCase s) = addressPart s.
Proof.
  unfold addressPart. f_equal; [now destruct s|].
  induction s as [|c s IH]; [reflexivity|].
  simpl. now rewrite notSpaceNorAt_toLowerChar, IH.
Qed.

(** A split of the lower-cased string is the image of a split of the
    string. *)
Lemma toLowerCase_split (s : string) :
  ∀ x y, toLowerCase s = x +:+ y →
         ∃ s1 s2, s = s1 +:+ s2 ∧ toLowerCase s1 = x ∧ toLowerCase s2 = y.
Proof.
  induction s as [|c s IH]; intros x y E.
  - simpl in E. symmetry in E. apply JSFacts.append_eq_empty in E as [-> ->].
    exists EmptyString, EmptyString. now repeat split.
  - simpl in E. symmetry in E.
    apply JSFacts.append_eq_cons in E as [[-> ->]|(x' & -> & E)].
    + exists EmptyString, (String c s). now repeat split.
    + destruct (IH x' y E) as (s1 & s2 & -> & <- & <-).
      exists (String c s1), s2. now repeat split.
Qed.

Lemma toLowerCase_separator (s : string) (d : ascii) :
  (d = "@" ∨ d = ".")%char →
  toLowerCase s = String d EmptyString → s = String d EmptyString.
Proof.
  intros Hd E. destruct s as [|c [|c' s]]; try discriminate.
  simpl in E. injection E as E. apply (toLowerChar_separator c d Hd) in E. now subst.
Qed.

(** The pattern has no letters in it, so it cannot tell a string from its
    lower-cased form. *)
Lemma emailPattern_toLowerCase (s : string) :
  Matches emailPattern (toLowerCase s) ↔ Matches emailPattern s.
Proof.
  rewrite !emailPattern_Matches. split.
  - intros (a & b & c & E & Ha & Hb & Hc).
    apply toLowerCase_split in E as (a0 & r1 & -> & <- & E).
    apply toLowerCase_split in E as (at0 & r2 & -> & Hat & E).
    apply toLowerCase_split in E as (b0 & r3 & -> & <- & E).
    apply toLowerCase_split in E as (dot0 & c0 & -> & Hdot & <-).
    apply toLowerCase_separator in Hat; [|now left].
    apply toLowerCase_separator in Hdot; [|now right]. subst.
    rewrite addressPart_toLowerCase in Ha, Hb, Hc.
    exists a0, b0, c0. now repeat split.
  - intros (a & b & c & -> & Ha & Hb & Hc).
    exists (toLowerCase a), (toLowerCase b), (toLowerCase c).
    rewrite !toLowerCase_append, !addressPart_toLowerCase. now repeat split.
Qed.

(** X2.  An address is accepted exactly when it reads [a@b.c] with [a], [b]
    and [c] non-empty and free of white space and at signs: so there is
    exactly one at sign, with a dot somewhere after it that is neither
    next to it nor last.  Dots may occur anywhere else as well. *)
Theorem isValidEmail_iff (email : string) :
  isValidEmail email = true ↔
  ∃ a b c, email = a +:+ "@" +:+ b +:+ "." +:+ c
           ∧ addressPart a = true ∧ addressPart b = true ∧ addressPart c = true.
Proof.
  unfold isValidEmail.
  now rewrite JSFacts.test_Matches, emailPattern_toLowerCase, emailPattern_Matches.
Qed.

(** X3.  Lower-casing the address before the test changes no verdict: the
    pattern gives the same answer on the address as it was typed. *)
Theorem isValidEmail_ignores_case (email : string) :
  isValidEmail email = test emailPattern email
  ∧ isValidEmail (toLowerCase email) = isValidEmail email.
Proof.
  assert (H : ∀ s, isValidEmail s = test emailPattern s).
  { intros s. apply eq_true_iff_eq. unfold isValidEmail.
    now rewrite !JSFacts.test_Matches, emailPattern_toLowerCase. }
  split; [apply H|]. rewrite (H (toLowerCase email)). reflexivity.
Qed.

End EmailFacts.

(** ** Annotations: what validation touches, and how messages add up *)

Module AnnotationFacts.
Import Dom FormHandler Rules Shapes.

#[local] Arguments markFieldAsInvalid : simpl never.
#[local] Arguments clearFieldValidation : simpl never.

(** *** Fields that differ by the class only *)

Lemma sameButClass_setInvalid (b : bool) (f : Field) : sameButClass (setInvalid b f) f.
Proof. reflexivity. Qed.

Lemma sameButClass_refl (f : Field) : sameButClass f f.
Proof. now destruct f. Qed.

Lemma sameButClass_attributes (f' f : Field) :
  sameButClass f' f →
  tag f' = tag f ∧ name f' = name f ∧ type f' = type f ∧ required f' = required f
  ∧ value f' = value f ∧ defaultValue f' = defaultValue f ∧ minLength f' = minLength f
  ∧ confirm f' = confirm f ∧ group f' = group f.
Proof. intros ->. now repeat split. Qed.

Lemma validateForm_sameButClass (form : Form) :
  Forall2 sameButClass (fields (validateForm form).1) (fields form).
Proof.
  apply Forall2_lookup. intros i. rewrite SubmitFacts.validateForm_lookup.
  destruct (fields form !! i) as [f|]; simpl; constructor.
  destruct (failing form i); [apply sameButClass_setInvalid | apply sameButClass_refl].
Qed.



(** *** At most one message per form group *)

Lemma length_replaceMessage (ms : list string) (m : string) :
  length (replaceMessage ms m) = Nat.max 1 (length ms).
Proof. unfold replaceMessage. rewrite length_app, length_drop. simpl. lia. Qed.

Lemma length_foldl_replaceMessage (l ms : list string) :
  length (foldl replaceMessage ms l)
  = match l with [] => length ms | _ => Nat.max 1 (length ms) end.
Proof.
  revert ms. induction l as [|m l IH]; intros ms; [reflexivity|].
  simpl. rewrite IH, length_replaceMessage. destruct l; lia.
Qed.

(** On a group showing at most one message, the messages sent to it leave
    the last one alone on display. *)
Lemma foldl_replaceMessage_single (l ms : list string) :
  length ms ≤ 1 →
  foldl replaceMessage ms l = match last l with Some m => [m] | None => ms end.
Proof.
  intros Hms.
  pose proof (ValidationFacts.last_foldl_replaceMessage l ms) as Hlast.
  pose proof (length_foldl_replaceMessage l ms) as Hlen.
  destruct (last l) as [m|] eqn:El.
  - destruct l as [|x l]; [discriminate|].
    destruct (foldl replaceMessage ms (x :: l)) as [|a [|b r]]; simpl in Hlen; try lia.
    simpl in Hlast. congruence.
  - apply last_None in El. now subst.
Qed.

Lemma dispatchAt_messages (listener : Field → gmap nat (list string) → Field * gmap nat (list string))
      (i : nat) (form : Form) (g : nat) :
  messages (feedback (dispatchAt listener i form)) g
  = match fields form !! i with
    | Some f => messages (listener f (feedback form)).2 g
    | None => messages (feedback form) g
    end.
Proof.
  unfold dispatchAt. destruct (fields form !! i) as [f|]; [|reflexivity].
  now destruct (listener f (feedback form)).
Qed.

Lemma onBlur_messages_length (f : Field) (fb : gmap nat (list string)) (g : nat) :
  length (messages fb g) ≤ 1 → length (messages (onBlur f fb).2 g) ≤ 1.
Proof.
  intros H. unfold onBlur.
  repeat match goal with |- context [if ?b then _ else _] => destruct b end;
    try exact H;
    rewrite ValidationFacts.markFieldAsInvalid_messages;
    (destruct (decide (group f = g)); [rewrite length_replaceMessage; lia | exact H]).
Qed.

(** On forms.  A form on which no form group shows more than one message stays so
    under validation at submit, under a blur at any control, and under
    typing into any control: messages are replaced, never stacked. *)
Theorem single_message_preserved (form : Form) :
  singleMessages (feedback form) →
  singleMessages (feedback (validateForm form).1)
  ∧ (∀ i, singleMessages (feedback (dispatchAt onBlur i form)))
  ∧ (∀ i v, singleMessages (feedback (userTypes i v form))).
Proof.
  intros Hone. split; [|split].
  - intros g. destruct (ValidationFacts.validateForm_spec form) as (_ & _ & Hm & _).
    rewrite Hm, length_foldl_replaceMessage. specialize (Hone g).
    destruct (loopMessages g (fields form) ++ confirmMessages g (fields form)); lia.
  - intros i g. rewrite dispatchAt_messages.
    destruct (fields form !! i); [apply onBlur_messages_length|]; apply Hone.
  - intros i v g. unfold userTypes. rewrite dispatchAt_messages. simpl.
    destruct (alter (setValue v) i (fields form) !! i) as [f|]; [|apply Hone].
    rewrite ValidationFacts.messages_alter by reflexivity.
    specialize (Hone g). destruct (decide (group f = g)); [rewrite length_drop|]; lia.
Qed.

(** *** Two failing fields in one form group *)

(** On forms.  Two fields of one form group are marked one after the other, on a
    group showing at most one message: both carry the class, but the
    group shows only the message of the second.  Typing into the first
    field then removes that message, although the listener does not touch
    the second field, which keeps its class. *)
Theorem markFieldAsInvalid_shared_group (f1 f2 : Field) (m1 m2 : string)
        (fb : gmap nat (list string)) :
  group f1 = group f2 → length (messages fb (group f1)) ≤ 1 →
  let r1 := markFieldAsInvalid f1 m1 fb in
  let r2 := markFieldAsInvalid f2 m2 r1.2 in
  isInvalid r1.1 = true ∧ isInvalid r2.1 = true
  ∧ messages r2.2 (group f1) = [m2]
  ∧ messages (onInput r1.1 r2.2).2 (group f1) = [].
Proof.
  intros Hg Hlen r1 r2. subst r1 r2.
  rewrite !ValidationFacts.markFieldAsInvalid_field.
  assert (Hshown : messages (markFieldAsInvalid f2 m2 (markFieldAsInvalid f1 m1 fb).2).2
                             (group f1) = [m2]).
  { rewrite !ValidationFacts.markFieldAsInvalid_messages.
    rewrite decide_True by (symmetry; exact Hg). rewrite decide_True by reflexivity.
    unfold replaceMessage.
    destruct (messages fb (group f1)) as [|a [|b r]]; simpl in *; [reflexivity..|lia]. }
  repeat split; [exact Hshown|].
  unfold onInput. rewrite ValidationFacts.clearFieldValidation_messages.
  rewrite Hshown. change (group (setInvalid true f1)) with (group f1).
  now rewrite decide_True by reflexivity.
Qed.

(** *** Validating twice *)

Lemma fieldRule_sameButClass (f' f : Field) : sameButClass f' f → fieldRule f' = fieldRule f.
Proof. now intros ->. Qed.

Lemma loopMessages_sameButClass (g : nat) (fs' fs : list Field) :
  Forall2 sameButClass fs' fs → loopMessages g fs' = loopMessages g fs.
Proof.
  induction 1 as [|f' f fs' fs Hf _ IH]; [reflexivity|].
  rewrite !ValidationFacts.loopMessages_cons, IH, (fieldRule_sameButClass _ _ Hf).
  destruct (sameButClass_attributes _ _ Hf) as (_ & _ & _ & -> & _ & _ & _ & _ & ->).
  reflexivity.
Qed.

Lemma querySelectorFrom_sameButClass {A} (sel : Field → bool) (h : Field → A)
      (fs' fs : list Field) :
  (∀ b f, sel (setInvalid b f) = sel f) → (∀ b f, h (setInvalid b f) = h f) →
  Forall2 sameButClass fs' fs →
  ∀ k, prod_map id h <$> querySelectorFrom k sel fs'
       = prod_map id h <$> querySelectorFrom k sel fs.
Proof.
  intros Hsel Hh. induction 1 as [|f' f fs' fs Hf _ IH]; intros k; [reflexivity|].
  simpl. rewrite Hf, Hsel. destruct (sel f); [|apply IH].
  simpl. unfold prod_map. simpl. now rewrite Hh.
Qed.

Lemma confirmTarget_sameButClass (fs' fs : list Field) :
  Forall2 sameButClass fs' fs → confirmTarget fs' = confirmTarget fs.
Proof.
  intros Hsame. unfold confirmTarget, querySelector.
  pose proof (querySelectorFrom_sameButClass isPasswordInput value fs' fs
                (λ _ _, eq_refl) (λ _ _, eq_refl) Hsame 0) as Hp.
  pose proof (querySelectorFrom_sameButClass isConfirmInput value fs' fs
                (λ _ _, eq_refl) (λ _ _, eq_refl) Hsame 0) as Hc.
  destruct (querySelectorFrom 0 isPasswordInput fs') as [[i' p']|],
           (querySelectorFrom 0 isPasswordInput fs) as [[i p]|]; try discriminate;
    destruct (querySelectorFrom 0 isConfirmInput fs') as [[j' c']|],
             (querySelectorFrom 0 isConfirmInput fs) as [[j c]|]; try discriminate;
    try reflexivity.
  unfold prod_map in Hp, Hc. simpl in Hp, Hc.
  injection Hp as _ ->. injection Hc as -> ->. reflexivity.
Qed.

Lemma confirmMessages_sameButClass (g : nat) (fs' fs : list Field) :
  Forall2 sameButClass fs' fs → confirmMessages g fs' = confirmMessages g fs.
Proof.
  intros Hsame. unfold confirmMessages. rewrite (confirmTarget_sameButClass _ _ Hsame).
  destruct (confirmTarget fs) as [j|]; [|reflexivity].
  pose proof (proj1 (Forall2_lookup _ _ _) Hsame j) as Hj.
  destruct Hj as [c' c Hc|]; [|reflexivity].
  now destruct (sameButClass_attributes _ _ Hc) as (_ & _ & _ & _ & _ & _ & _ & _ & ->).
Qed.

Lemma failing_sameButClass (form' form : Form) (i : nat) :
  Forall2 sameButClass (fields form') (fields form) → failing form' i = failing form i.
Proof.
  intros Hsame. unfold failing. rewrite (confirmTarget_sameButClass _ _ Hsame).
  pose proof (proj1 (Forall2_lookup _ _ _) Hsame i) as Hi.
  destruct Hi as [f' f Hf|]; [|reflexivity].
  rewrite (fieldRule_sameButClass _ _ Hf).
  now destruct (sameButClass_attributes _ _ Hf) as (_ & _ & _ & -> & _).
Qed.

(** What a form group shows after validation, when it showed at most one
    message before: the last message sent to it, or what it showed. *)
Lemma validateForm_messages_single (form : Form) (g : nat) :
  length (messages (feedback form) g) ≤ 1 →
  messages (feedback (validateForm form).1) g
  = match last (loopMessages g (fields form) ++ confirmMessages g (fields form)) with
    | Some m => [m]
    | None => messages (feedback form) g
    end.
Proof.
  intros Hone. destruct (ValidationFacts.validateForm_spec form) as (_ & _ & Hm & _).
  rewrite Hm. now apply foldl_replaceMessage_single.
Qed.

(** On forms.  Validating again a form that has just been validated, with no edit in
    between, gives the same answer and leaves every class and every message
    as the first call left them, provided no form group showed more than one
    message to begin with. *)
Theorem validateForm_idempotent (form : Form) :
  singleMessages (feedback form) →
  let once := validateForm form in
  let twice := validateForm once.1 in
  twice.2 = once.2 ∧ fields twice.1 = fields once.1
  ∧ ∀ g, messages (feedback twice.1) g = messages (feedback once.1) g.
Proof.
  intros Hone once twice. subst once twice.
  pose proof (validateForm_sameButClass form) as Hsame.
  split; [|split].
  - apply eq_true_iff_eq. rewrite !ValidationFacts.validateForm_true_iff.
    split; intros H i; [rewrite <- (failing_sameButClass _ _ i Hsame)
                       | rewrite (failing_sameButClass _ _ i Hsame)]; apply H.
  - apply list_eq. intros i.
    rewrite (SubmitFacts.validateForm_lookup (validateForm form).1),
      (failing_sameButClass _ _ i Hsame), SubmitFacts.validateForm_lookup.
    destruct (fields form !! i) as [f|]; [|reflexivity]. simpl.
    now destruct (failing form i).
  - intros g.
    assert (Hfirst := validateForm_messages_single form g (Hone g)).
    assert (Hlen : length (messages (feedback (validateForm form).1) g) ≤ 1).
    { rewrite Hfirst. specialize (Hone g).
      now destruct (last (loopMessages g (fields form) ++ confirmMessages g (fields form))). }
    rewrite (validateForm_messages_single _ g Hlen),
      (loopMessages_sameButClass _ _ _ Hsame), (confirmMessages_sameButClass _ _ _ Hsame).
    rewrite Hfirst.
    now destruct (last (loopMessages g (fields form) ++ confirmMessages g (fields form))).
Qed.

(** *** Typing into a control *)

(** On forms.  Typing into a control stores the new value, removes the class from
    that control and the first message of its form group, and checks
    nothing, whatever the value: no other control and no other form group
    changes, and a required control emptied by the user ends without the
    class. *)
Theorem userTypes_clears_only_that_field (form : Form) (i : nat) (v : string) (f : Field) :
  fields form !! i = Some f →
  let form' := userTypes i v form in
  fields form' = <[i := setInvalid false (setValue v f)]> (fields form)
  ∧ messages (feedback form') (group f) = drop 1 (messages (feedback form) (group f))
  ∧ (∀ g, g ≠ group f → messages (feedback form') g = messages (feedback form) g).
Proof.
  intros Hf form'. subst form'. unfold userTypes, dispatchAt. cbn [fields feedback withFields].
  assert (Hi : alter (setValue v) i (fields form) !! i = Some (setValue v f)).
  { now rewrite list_lookup_alter_eq, Hf. }
  rewrite Hi. unfold onInput, clearFieldValidation. cbn [fields feedback withFields].
  split; [|split].
  - apply list_eq. intros j. destruct (decide (j = i)) as [->|Hj].
    + rewrite !list_lookup_insert_eq; [reflexivity| |].
      * now apply lookup_lt_Some in Hf.
      * rewrite length_alter. now apply lookup_lt_Some in Hf.
    + rewrite !list_lookup_insert_ne by congruence.
      now rewrite list_lookup_alter_ne by congruence.
  - rewrite ValidationFacts.messages_alter by reflexivity.
    change (group (setValue v f)) with (group f). now rewrite decide_True by reflexivity.
  - intros g Hg. rewrite ValidationFacts.messages_alter by reflexivity.
    change (group (setValue v f)) with (group f). now rewrite decide_False by congruence.
Qed.

(** *** The minimum length of a password *)

Lemma parseInt_truthy (s : string) (n : Z) : JS.parseInt s = Some n → JS.truthy s = true.
Proof. now destruct s. Qed.

Lemma fieldRule_password (f : Field) (s : string) :
  type f = "password" → JS.allWhiteSpace (value f) = false → minLength f = Some s →
  fieldRule f
  = match JS.parseInt s with
    | Some n =>
        if (Z.of_nat (String.length (value f)) <? n)%Z then Some (passwordMessage n) else None
    | None => None
    end.
Proof.
  intros Ht Hv Hm. unfold fieldRule, requiredEmpty, emailMalformed, passwordTooShort.
  rewrite Hv, Ht, Hm. cbn [andb]. change (String.eqb "password" "email") with false.
  change (String.eqb "password" "password") with true. cbn [andb].
  destruct (JS.parseInt s) as [n|] eqn:Hn; [|reflexivity].
  rewrite (parseInt_truthy _ _ Hn). cbn [andb].
  now destruct (Z.of_nat (String.length (value f)) <? n)%Z.
Qed.

(** On forms.  A required, non-blank password field carrying a minimum-length
    attribute, and not the target of the confirmation check: when the
    attribute reads as a number (as parseInt reads it) and the value has
    fewer code units, the field is marked with the message naming that
    number; when the attribute does not read as a number, or the value is
    long enough, validation leaves the field exactly as it was. *)
Theorem validateForm_password_minimum (form : Form) (i : nat) (f : Field) (s : string) :
  fields form !! i = Some f → required f = true → type f = "password" →
  JS.allWhiteSpace (value f) = false → minLength f = Some s →
  confirmTarget (fields form) ≠ Some i →
  (∀ n, JS.parseInt s = Some n → (Z.of_nat (String.length (value f)) < n)%Z →
        markedWith form i f (passwordMessage n))
  ∧ ((JS.parseInt s = None
      ∨ ∃ n, JS.parseInt s = Some n ∧ (n ≤ Z.of_nat (String.length (value f)))%Z) →
     fields (validateForm form).1 !! i = Some f).
Proof.
  intros Hf Hreq Ht Hv Hm Hnot.
  pose proof (fieldRule_password f s Ht Hv Hm) as Hrule. split.
  - intros n Hn Hlt. apply ValidationFacts.failing_markedWith; try assumption.
    rewrite Hrule, Hn. now rewrite (proj2 (Z.ltb_lt _ _) Hlt).
  - intros Hpass. rewrite <- Hf. apply ValidationFacts.validateForm_keeps.
    unfold failing. rewrite Hf, Hreq, Hrule.
    rewrite bool_decide_eq_false_2 by exact Hnot.
    destruct Hpass as [-> | (n & -> & Hle)]; [reflexivity|].
    now rewrite (proj2 (Z.ltb_ge _ _) Hle).
Qed.

(** *** Instances *)

Lemma singleMessages_empty : singleMessages ∅.
Proof. intros g. unfold messages. rewrite lookup_total_empty. simpl. lia. Qed.

Lemma single_message_preserved_witness :
  length (messages (feedback (validateForm Samples.mismatchedForm).1) 1) ≤ 1.
Proof.
  exact (proj1 (single_message_preserved Samples.mismatchedForm singleMessages_empty) 1).
Defined.

Lemma markFieldAsInvalid_shared_group_witness :
  messages (markFieldAsInvalid Scenarios.sharedSecond requiredMessage
              (markFieldAsInvalid Scenarios.sharedFirst requiredMessage ∅).2).2 0
  = [requiredMessage].
Proof.
  destruct (markFieldAsInvalid_shared_group Scenarios.sharedFirst Scenarios.sharedSecond
              requiredMessage requiredMessage ∅ eq_refl) as (_ & _ & Hshown & _).
  - vm_compute. lia.
  - exact Hshown.
Defined.

Lemma validateForm_idempotent_witness :
  (validateForm (validateForm Samples.mismatchedForm).1).2
  = (validateForm Samples.mismatchedForm).2.
Proof.
  exact (proj1 (validateForm_idempotent Samples.mismatchedForm singleMessages_empty)).
Defined.

Lemma userTypes_clears_only_that_field_witness :
  fields (userTypes 0 "secret1" Samples.mismatchedForm)
  = <[0 := setInvalid false
             (setValue "secret1" (Samples.textInput "password" "password" true "secret" 0))]>
      (fields Samples.mismatchedForm).
Proof.
  exact (proj1 (userTypes_clears_only_that_field Samples.mismatchedForm 0 "secret1"
                  (Samples.textInput "password" "password" true "secret" 0) eq_refl)).
Defined.

Lemma validateForm_password_minimum_witness :
  markedWith Scenarios.shortPasswordForm 0 Samples.shortPassword (passwordMessage 8).
Proof.
  refine (proj1 (validateForm_password_minimum Scenarios.shortPasswordForm 0
                   Samples.shortPassword "8" eq_refl eq_refl eq_refl eq_refl eq_refl _)
            8%Z eq_refl _).
  - vm_compute. discriminate.
  - vm_compute. reflexivity.
Defined.

End AnnotationFacts.

(** ** The loading indicator across whole cycles *)

Module LoadingFacts.
Import JS Dom FormHandler Rules Shapes.

Lemma trimStart_append_blank (pre s : string) :
  allWhiteSpace pre = true → trimStart (pre +:+ s) = trimStart s.
Proof.
  induction pre as [|c pre IH]; intros H; [reflexivity|].
  simpl in H. apply andb_true_iff in H as [Hc Hpre].
  rewrite JSFacts.append_cons. simpl. rewrite Hc. now apply IH.
Qed.

Lemma trimStart_append (x s : string) :
  allWhiteSpace x = false → trimStart (x +:+ s) = trimStart x +:+ s.
Proof.
  induction x as [|c x IH]; intros H; [discriminate|].
  simpl in H. rewrite JSFacts.append_cons. simpl.
  destruct (isWhiteSpace c); [now apply IH | now rewrite JSFacts.append_cons].
Qed.

Lemma allWhiteSpace_append (s1 s2 : string) :
  allWhiteSpace (s1 +:+ s2) = allWhiteSpace s1 && allWhiteSpace s2.
Proof.
  induction s1 as [|c s1 IH]; [reflexivity|].
  rewrite JSFacts.append_cons. simpl. now rewrite IH, andb_assoc.
Qed.

Lemma trimEnd_append_blank (s post : string) :
  allWhiteSpace post = true → trimEnd (s +:+ post) = trimEnd s.
Proof.
  intros Hpost. induction s as [|c s IH].
  - rewrite JSFacts.append_nil.
    pose proof (JSFacts.trimEnd_empty post) as H. rewrite Hpost in H.
    now destruct (trimEnd post).
  - rewrite JSFacts.append_cons. simpl. now rewrite IH.
Qed.

Lemma trim_blank (s : string) : allWhiteSpace s = true → trim s = EmptyString.
Proof.
  intros H. pose proof (JSFacts.trim_empty s) as E. rewrite H in E.
  now destruct (trim s).
Qed.

(** Blank text around a string does not show after trimming. *)
Lemma trim_padded (pre x post : string) :
  allWhiteSpace pre = true → allWhiteSpace post = true →
  trim (pre +:+ x +:+ post) = trim x.
Proof.
  intros Hpre Hpost. destruct (allWhiteSpace x) eqn:Hx.
  - rewrite (trim_blank x Hx). apply trim_blank.
    now rewrite !allWhiteSpace_append, Hpre, Hx, Hpost.
  - unfold trim. rewrite (trimStart_append_blank pre _ Hpre), (trimStart_append x post Hx).
    now apply trimEnd_append_blank.
Qed.

Lemma trim_loadingLabel (text : string) : trim (loadingLabel text) = trim text.
Proof.
  unfold loadingLabel.
  rewrite <- (JSFacts.append_assoc LF sp8 _), <- (JSFacts.append_assoc (LF +:+ sp8) LF _),
    <- (JSFacts.append_assoc ((LF +:+ sp8) +:+ LF) sp8 _).
  now apply trim_padded.
Qed.

Lemma trimEnd_idempotent (s : string) : trimEnd (trimEnd s) = trimEnd s.
Proof.
  induction s as [|c s IH]; [reflexivity|].
  simpl. destruct (isWhiteSpace c && isEmpty (trimEnd s)) eqn:E; [reflexivity|].
  simpl. now rewrite IH, E.
Qed.

Lemma trimStart_trimEnd_trimStart (s : string) :
  trimStart (trimEnd (trimStart s)) = trimEnd (trimStart s).
Proof.
  induction s as [|c s IH]; [reflexivity|].
  simpl. destruct (isWhiteSpace c) eqn:Hc; [exact IH|].
  simpl. rewrite Hc. simpl. now rewrite Hc.
Qed.

Lemma trim_idempotent (s : string) : trim (trim s) = trim s.
Proof.
  unfold trim. now rewrite trimStart_trimEnd_trimStart, trimEnd_idempotent.
Qed.

Lemma loadingCycle_run (p : Page) (b : Button) :
  submitButton (form p) = Some b →
  loadingCycle p
  = (mkPage (withLoading (Some (mkButton false false (originalText b) (restoredLabel b) false))
               false (form p))
       (mkWindow (notifications (window p)) (href (window p))
          (trace (window p) ++ [LoadingOn; LoadingOff])),
     Normal tt).
Proof.
  intros Hb. unfold loadingCycle, bind. rewrite (SubmitFacts.setFormLoading_on p b Hb).
  erewrite SubmitFacts.setFormLoading_off by reflexivity.
  unfold restoredLabel. cbn [originalText label form window notifications href trace].
  rewrite trim_loadingLabel, <- app_assoc. reflexivity.
Qed.

(** X10.  Loading switched on and then off: the control ends enabled, whether
    or not it was enabled before, without the loading class and the
    spinner; its label is the data-original-text attribute when that is
    set and not empty, and otherwise the label it had before, trimmed; the
    fields, the messages and the notifications are untouched. *)
Theorem loadingCycle_restores (p : Page) (b : Button) :
  submitButton (form p) = Some b →
  let p' := (loadingCycle p).1 in
  submitButton (form p')
  = Some (mkButton false false (originalText b)
            (if optTruthy (originalText b) then default EmptyString (originalText b)
             else trim (label b)) false)
  ∧ formLoading (form p') = false
  ∧ fields (form p') = fields (form p) ∧ feedback (form p') = feedback (form p)
  ∧ notifications (window p') = notifications (window p)
  ∧ href (window p') = href (window p)
  ∧ (loadingCycle p).2 = Normal tt.
Proof.
  intros Hb p'. subst p'. rewrite (loadingCycle_run p b Hb). now repeat split.
Qed.

(** X11.  The label does not drift: when the control carries a non-empty
    data-original-text, or its label is plain text (no tag or character
    reference for the fragment parser to read), a second loading cycle
    leaves the form as the first one left it. *)
Theorem loadingCycle_stable (p : Page) (b : Button) :
  submitButton (form p) = Some b →
  optTruthy (originalText b) = true ∨ plainText (label b) = true →
  form (loadingCycle (loadingCycle p).1).1 = form (loadingCycle p).1.
Proof.
  intros Hb _. rewrite (loadingCycle_run p b Hb). cbn [fst].
  erewrite loadingCycle_run by reflexivity. cbn [fst form].
  unfold withLoading. cbn. f_equal. f_equal. f_equal.
  unfold restoredLabel. cbn [originalText label].
  destruct (optTruthy (originalText b)); [reflexivity | apply trim_idempotent].
Qed.

Lemma loadingCycle_restores_witness :
  submitButton (form (loadingCycle Scenarios.paddedPage).1)
  = Some (mkButton false false None "Save" false).
Proof.
  exact (proj1 (loadingCycle_restores Scenarios.paddedPage Scenarios.paddedButton eq_refl)).
Defined.

Lemma loadingCycle_stable_witness :
  form (loadingCycle (loadingCycle Scenarios.paddedPage).1).1
  = form (loadingCycle Scenarios.paddedPage).1.
Proof.
  exact (loadingCycle_stable Scenarios.paddedPage Scenarios.paddedButton eq_refl
           (or_intror eq_refl)).
Defined.

End LoadingFacts.

(** ** Further outcomes of a submission *)

Module OutcomeFacts.
Import Dom FormHandler Rules Shapes.

#[local] Arguments toastMarkup : simpl never.

Section Platform.

Variable hasCloseControl : string → bool.
Variable fetch : Request → FetchResult.

Ltac enter p Hb :=
  let Hb1 := fresh "Hb1" in
  let form1 := fresh "form1" in
  let ok1 := fresh "ok1" in
  destruct (ValidationFacts.validateForm_spec (form p)) as (_ & _ & _ & Hb1 & _);
  SubmitFacts.unfold_handler; simpl;
  destruct (validateForm (form p)) as [form1 ok1]; simpl in *; subst ok1;
  simpl in *; rewrite Hb1, Hb; simpl; rewrite !SubmitFacts.submitRequest_loading.

(** X12.  The request is rejected (no connection, say): the error is logged, an
    error toast shows its message, or the fallback text when the message is
    empty, the listener returns normally, and the effects come in this
    order: loading on, request, log, loading off. *)
Theorem onSubmit_network_failure (p : Page) (b : Button) (e : JsError) :
  (validateForm (form p)).2 = true → submitButton (form p) = Some b →
  fetch (submitRequest (validateForm (form p)).1 (window p)) = Rejected e →
  hasCloseControl (toastMarkup "Error" (errorText e)) = true →
  let r := onSubmit hasCloseControl fetch p in
  r.2 = Normal tt
  ∧ notifications (window r.1) = notifications (window p) ++ [errorToast (errorText e)]
  ∧ trace (window r.1)
    = trace (window p)
      ++ [LoadingOn; Fetch (submitRequest (validateForm (form p)).1 (window p));
          ConsoleError e; LoadingOff].
Proof.
  intros Hv Hb Hfetch Hclose. unfold errorText, errorToast in *.
  enter p Hb. rewrite Hfetch. simpl. rewrite Hclose. simpl.
  rewrite <- !app_assoc. now repeat split.
Qed.

(** X13.  Unless the response is successful, a submission neither navigates nor
    resets: whether the request is rejected or answered with a failure
    status, and whether or not the error toast can be shown, the location
    is as before and the fields and messages are those validation left. *)
Theorem onSubmit_failure_keeps_page (p : Page) (b : Button) :
  (validateForm (form p)).2 = true → submitButton (form p) = Some b →
  (∀ response, fetch (submitRequest (validateForm (form p)).1 (window p)) = Resolved response →
               ok response = false) →
  let r := onSubmit hasCloseControl fetch p in
  href (window r.1) = href (window p)
  ∧ fields (form r.1) = fields (validateForm (form p)).1
  ∧ feedback (form r.1) = feedback (validateForm (form p)).1.
Proof.
  intros Hv Hb Hfail.
  enter p Hb.
  destruct (fetch (submitRequest form1 (window p))) as [e|response] eqn:Hfetch.
  - SubmitFacts.crunch; now repeat split.
  - rewrite (Hfail response eq_refl). SubmitFacts.crunch; now repeat split.
Qed.


(** X15.  A successful response whose body is the JSON value [null]: the
    success toast is shown, then reading the redirect target throws, the
    error is logged and an error toast with the engine's message is shown
    as well; the page is neither redirected nor reset, even when it is set
    to reset. *)
Theorem onSubmit_success_null_body (p : Page) (b : Button) (response : Response) :
  (validateForm (form p)).2 = true → submitButton (form p) = Some b →
  fetch (submitRequest (validateForm (form p)).1 (window p)) = Resolved response →
  ok response = true → json response = Some Json.Null →
  hasCloseControl (toastMarkup "Success!" "Operation completed successfully.") = true →
  hasCloseControl (toastMarkup "Error" (message nullRedirectError)) = true →
  let r := onSubmit hasCloseControl fetch p in
  r.2 = Normal tt
  ∧ notifications (window r.1)
    = notifications (window p) ++ [successToast; errorToast (message nullRedirectError)]
  ∧ trace (window r.1)
    = trace (window p)
      ++ [LoadingOn; Fetch (submitRequest (validateForm (form p)).1 (window p));
          ConsoleError nullRedirectError; LoadingOff]
  ∧ href (window r.1) = href (window p)
  ∧ fields (form r.1) = fields (validateForm (form p)).1.
Proof.
  intros Hv Hb Hfetch Hok Hnull Hclose Hclose'. unfold successToast, errorToast in *.
  simpl in Hclose'.
  enter p Hb. rewrite Hfetch. simpl. rewrite Hok, Hclose, Hnull. simpl.
  assert (Hmsg : orElse ("Cannot read properties of null (reading '" +:+ "redirect" +:+ "')")
                   "An error occurred. Please try again."
                 = "Cannot read properties of null (reading 'redirect')") by reflexivity.
  rewrite !Hmsg, Hclose'. simpl.
  rewrite <- !app_assoc. now repeat split.
Qed.

(** X16.  A successful response without a redirect target resets the form only
    when the data attribute reads exactly [true]: with any other value, or
    without the attribute, fields and location stay as they are. *)
Theorem onSubmit_reset_needs_exact_flag (p : Page) (b : Button) (response : Response) :
  (validateForm (form p)).2 = true → submitButton (form p) = Some b →
  fetch (submitRequest (validateForm (form p)).1 (window p)) = Resolved response →
  ok response = true → noRedirect response = true →
  resetOnSuccess (form p) ≠ Some "true" →
  hasCloseControl (toastMarkup "Success!" "Operation completed successfully.") = true →
  let r := onSubmit hasCloseControl fetch p in
  fields (form r.1) = fields (validateForm (form p)).1
  ∧ href (window r.1) = href (window p).
Proof.
  intros Hv Hb Hfetch Hok Hnone Hflag Hclose.
  destruct (SubmitFacts.validateForm_shape (form p)) as (fs & fb & Hshape).
  enter p Hb. subst form1. simpl in *. rewrite Hfetch. simpl. rewrite Hok, Hclose. simpl.
  assert (Hskip : match resetOnSuccess (form p) with
                  | Some flag => String.eqb flag "true"
                  | None => false
                  end = false).
  { destruct (resetOnSuccess (form p)) as [flag|]; [|reflexivity].
    apply String.eqb_neq. congruence. }
  unfold noRedirect in Hnone.
  destruct (json response) as [[| | | | |members]|]; simpl in *; try discriminate.
  all: try (apply negb_true_iff in Hnone;
            destruct (Json.lookupLast "redirect" members) as [v|]; simpl in *;
            [rewrite Hnone|]; simpl).
  all: destruct (resetOnSuccess (form p)) as [flag|]; simpl;
    [rewrite Hskip|]; simpl; now split.
Qed.

(** X17.  A failure response whose message, spliced into the toast, costs the
    markup its close control: the error toast cannot be built, a TypeError
    escapes the listener and no toast is shown; loading is released all the
    same. *)
Theorem onSubmit_error_toast_fails (p : Page) (b : Button) (response : Response)
        (members : list (string * Json.value)) (text : string) :
  (validateForm (form p)).2 = true → submitButton (form p) = Some b →
  fetch (submitRequest (validateForm (form p)).1 (window p)) = Resolved response →
  ok response = false →
  json response = Some (Json.Object members) →
  Json.lookupLast "message" members = Some (Json.Str text) → text ≠ EmptyString →
  hasCloseControl (toastMarkup "Error" text) = false →
  let r := onSubmit hasCloseControl fetch p in
  r.2 = Throw noCloseControlError
  ∧ notifications (window r.1) = notifications (window p)
  ∧ formLoading (form r.1) = false
  ∧ trace (window r.1)
    = trace (window p)
      ++ [LoadingOn; Fetch (submitRequest (validateForm (form p)).1 (window p));
          ConsoleError (mkError "Error" text); LoadingOff].
Proof.
  intros Hv Hb Hfetch Hok Hjson Hmessage Hne Hclose. unfold noCloseControlError.
  enter p Hb. rewrite Hfetch. simpl. rewrite Hok, Hjson. simpl. rewrite Hmessage. simpl.
  destruct text as [|c text]; [contradiction|]. simpl.
  unfold orElse. simpl. rewrite Hclose. simpl.
  rewrite <- !app_assoc. now repeat split.
Qed.

End Platform.

(** *** Instances *)

Lemma onSubmit_network_failure_witness :
  notifications (window (onSubmit Samples.tokenizerHasCloseControl Scenarios.offline
                           Samples.contactPage).1)
  = [errorToast "Failed to fetch"].
Proof.
  destruct (onSubmit_network_failure Samples.tokenizerHasCloseControl Scenarios.offline
              Samples.contactPage Samples.saveButton Scenarios.failedToFetch
              eq_refl eq_refl eq_refl eq_refl) as (_ & Htoast & _).
  exact Htoast.
Defined.

Lemma onSubmit_failure_keeps_page_witness :
  href (window (onSubmit Samples.tokenizerHasCloseControl Scenarios.offline
                  Samples.prefilledPage).1)
  = href Samples.emptyWindow.
Proof.
  refine (proj1 (onSubmit_failure_keeps_page Samples.tokenizerHasCloseControl
                   Scenarios.offline Samples.prefilledPage Samples.saveButton
                   eq_refl eq_refl _)).
  intros response H. discriminate H.
Defined.


Lemma onSubmit_success_null_body_witness :
  notifications (window (onSubmit Samples.tokenizerHasCloseControl
                           (Samples.respond true (Some Json.Null))
                           Samples.prefilledPage).1)
  = [successToast; errorToast "Cannot read properties of null (reading 'redirect')"].
Proof.
  exact (proj1 (proj2 (onSubmit_success_null_body Samples.tokenizerHasCloseControl
                         (Samples.respond true (Some Json.Null))
                         Samples.prefilledPage Samples.saveButton
                         (mkResponse true (Some Json.Null))
                         eq_refl eq_refl eq_refl eq_refl eq_refl eq_refl eq_refl))).
Defined.

Lemma onSubmit_reset_needs_exact_flag_witness :
  value <$> fields (form (onSubmit Samples.tokenizerHasCloseControl
                            (Samples.respond true (Some (Json.Object [])))
                            Scenarios.looselyFlaggedPage).1)
  = ["bob@example.org"].
Proof.
  refine (f_equal (fmap value)
            (proj1 (onSubmit_reset_needs_exact_flag Samples.tokenizerHasCloseControl
                      (Samples.respond true (Some (Json.Object [])))
                      Scenarios.looselyFlaggedPage Samples.saveButton
                      (mkResponse true (Some (Json.Object [])))
                      eq_refl eq_refl eq_refl eq_refl eq_refl _ eq_refl))).
  simpl. discriminate.
Defined.

Lemma onSubmit_error_toast_fails_witness :
  (onSubmit Samples.tokenizerHasCloseControl
     (Samples.respond false (Some Scenarios.commentBody)) Samples.contactPage).2
  = Throw noCloseControlError.
Proof.
  refine (proj1 (onSubmit_error_toast_fails Samples.tokenizerHasCloseControl
                   (Samples.respond false (Some Scenarios.commentBody))
                   Samples.contactPage Samples.saveButton
                   (mkResponse false (Some Scenarios.commentBody))
                   [("message", Json.Str "<!--")] "<!--"
                   eq_refl eq_refl eq_refl eq_refl eq_refl eq_refl _ eq_refl)).
  discriminate.
Defined.

End OutcomeFacts.

(** ** Toasts over time *)

Module ToastFacts.
Import Dom FormHandler Toasts.

Lemma isAttached_true (i : nat) (t : Tray) :
  isAttached i t = true ↔ i ∈ (attached t).*1.
Proof. unfold isAttached. apply bool_decide_eq_true. Qed.

Lemma isAttached_false (i : nat) (t : Tray) :
  isAttached i t = false ↔ i ∉ (attached t).*1.
Proof. unfold isAttached. apply bool_decide_eq_false. Qed.

Lemma elem_of_removeChild (i j : nat) (children : list (nat * Toast)) :
  j ∈ (removeChild i children).*1 ↔ j ∈ children.*1 ∧ j ≠ i.
Proof.
  unfold removeChild. rewrite !list_elem_of_fmap. split.
  - intros (c & -> & Hc). apply list_elem_of_filter in Hc as [Hne Hc].
    split; [exists c; now split | exact Hne].
  - intros [(c & -> & Hc) Hne]. exists c. split; [reflexivity|].
    apply list_elem_of_filter. now split.
Qed.

Lemma removeChild_absent (i : nat) (children : list (nat * Toast)) :
  i ∉ children.*1 → removeChild i children = children.
Proof.
  intros Hi. unfold removeChild. induction children as [|c rest IH]; [reflexivity|].
  rewrite fmap_cons, not_elem_of_cons in Hi. destruct Hi as [Hne Hrest].
  rewrite filter_cons_True by (simpl; congruence). now rewrite IH.
Qed.

Lemma removeNotification_detached (i : nat) (t : Tray) :
  isAttached i t = false → removeNotification (Some i) t = t.
Proof. intros H. unfold removeNotification. now rewrite H. Qed.

Lemma animationEnd_idle (i : nat) (t : Tray) :
  pendingListeners i t = 0 → animationEnd i t = t.
Proof. intros H. unfold animationEnd. now rewrite H. Qed.

Lemma pendingListeners_removeNotification (i j : nat) (t : Tray) :
  isAttached i t = true →
  pendingListeners j (removeNotification (Some i) t)
  = if decide (i = j) then S (pendingListeners j t) else pendingListeners j t.
Proof.
  intros H. unfold removeNotification. rewrite H. unfold pendingListeners. simpl.
  rewrite lookup_insert. destruct (decide (i = j)) as [->|]; reflexivity.
Qed.

(** X18.  Dismissing a toast that is in the container does not detach it at
    once: it stays until the exit animation ends, and then it alone
    leaves, every other toast staying where it is. *)
Theorem dismiss_removes_that_toast (i : nat) (t : Tray) :
  isAttached i t = true →
  attached (removeNotification (Some i) t) = attached t
  ∧ attached (animationEnd i (removeNotification (Some i) t)) = removeChild i (attached t)
  ∧ isAttached i (animationEnd i (removeNotification (Some i) t)) = false
  ∧ ∀ j, j ≠ i →
      isAttached j (animationEnd i (removeNotification (Some i) t)) = isAttached j t.
Proof.
  intros H. unfold animationEnd.
  rewrite (pendingListeners_removeNotification i i t H), decide_True by reflexivity.
  unfold removeNotification. rewrite H. simpl.
  split; [reflexivity|]. split; [reflexivity|]. split.
  - apply isAttached_false. simpl. rewrite elem_of_removeChild. tauto.
  - intros j Hne. unfold isAttached. simpl.
    apply bool_decide_ext. rewrite elem_of_removeChild. tauto.
Qed.

(** *** One step, seen from one toast *)

Section Browser.
Variable hasCloseControl : string → bool.

Lemma removeChild_ids (i : nat) (children : list (nat * Toast)) :
  (removeChild i children).*1 = filter (λ j, j ≠ i) children.*1.
Proof.
  unfold removeChild. induction children as [|c rest IH]; [reflexivity|].
  rewrite fmap_cons. destruct (decide (c.1 = i)) as [Heq|Hne].
  - rewrite !filter_cons_False by (simpl; tauto). exact IH.
  - rewrite !filter_cons_True by exact Hne. rewrite fmap_cons. now rewrite IH.
Qed.

Lemma nextId_step (t : Tray) (e : Event) : nextId t ≤ nextId (step hasCloseControl t e).
Proof.
  destruct e as [title message type duration|j|j|j]; simpl.
  - unfold showNotification. destruct (hasCloseControl _); simpl; lia.
  - unfold removeNotification. destruct (isAttached j t); simpl; lia.
  - case_bool_decide; [|lia]. unfold removeNotification, isAttached. simpl.
    destruct (bool_decide (j ∈ (attached t).*1)); simpl; lia.
  - unfold animationEnd. destruct (pendingListeners j t); simpl; lia.
Qed.

(** Whether a toast that was made is in the container changes in one way
    only: an [animationend] that reaches it while it holds a listener. *)
Lemma isAttached_step (i : nat) (t : Tray) (e : Event) :
  i < nextId t →
  isAttached i (step hasCloseControl t e)
  = match e with
    | AnimationEnd j =>
        if decide (j = i) then
          match pendingListeners i t with 0 => isAttached i t | S _ => false end
        else isAttached i t
    | _ => isAttached i t
    end.
Proof.
  intros Hi. destruct e as [title message type duration|j|j|j]; simpl.
  - unfold showNotification. destruct (hasCloseControl _); simpl; [|reflexivity].
    unfold isAttached. simpl. apply bool_decide_ext.
    rewrite fmap_app, elem_of_app. simpl. rewrite list_elem_of_singleton. split.
    + intros [H|H]; [exact H | lia].
    + now left.
  - unfold removeNotification. now destruct (isAttached j t).
  - case_bool_decide; [|reflexivity]. unfold removeNotification, isAttached. simpl.
    now destruct (bool_decide (j ∈ (attached t).*1)).
  - unfold animationEnd. destruct (decide (j = i)) as [->|Hne].
    + destruct (pendingListeners i t); [reflexivity|].
      apply isAttached_false. simpl. rewrite elem_of_removeChild. tauto.
    + destruct (pendingListeners j t); [reflexivity|].
      unfold isAttached. simpl. apply bool_decide_ext.
      rewrite elem_of_removeChild. split; [tauto | intros H; split; [exact H | congruence]].
Qed.

Lemma pendingListeners_step (i : nat) (t : Tray) (e : Event) :
  pendingListeners i (step hasCloseControl t e)
  = match e with
    | Show _ _ _ _ => pendingListeners i t
    | ClickClose j =>
        if decide (j = i) then
          if isAttached i t then S (pendingListeners i t) else pendingListeners i t
        else pendingListeners i t
    | TimerFires j =>
        if decide (j = i) then
          if bool_decide (i ∈ timers t) && isAttached i t
          then S (pendingListeners i t) else pendingListeners i t
        else pendingListeners i t
    | AnimationEnd j => if decide (j = i) then 0 else pendingListeners i t
    end.
Proof.
  destruct e as [title message type duration|j|j|j]; cbn [step].
  - unfold showNotification. simpl. now destruct (hasCloseControl _).
  - destruct (decide (j = i)) as [->|Hne].
    + destruct (isAttached i t) eqn:Ha.
      * rewrite pendingListeners_removeNotification by exact Ha. now rewrite decide_True.
      * now rewrite removeNotification_detached.
    + destruct (isAttached j t) eqn:Ha.
      * rewrite pendingListeners_removeNotification by exact Ha. now rewrite decide_False.
      * now rewrite removeNotification_detached.
  - destruct (decide (j = i)) as [->|Hne].
    + case_bool_decide as Ht; cbn [andb]; [|reflexivity].
      destruct (isAttached i t) eqn:Ha.
      * rewrite pendingListeners_removeNotification by exact Ha. now rewrite decide_True.
      * now rewrite removeNotification_detached by exact Ha.
    + case_bool_decide as Ht; [|reflexivity].
      destruct (isAttached j t) eqn:Ha.
      * rewrite pendingListeners_removeNotification by exact Ha. now rewrite decide_False.
      * now rewrite removeNotification_detached by exact Ha.
  - unfold animationEnd. destruct (decide (j = i)) as [->|Hne].
    + destruct (pendingListeners i t) eqn:Hp; [exact Hp|].
      unfold pendingListeners. simpl. now rewrite lookup_delete_eq.
    + destruct (pendingListeners j t); [reflexivity|].
      unfold pendingListeners. simpl. now rewrite lookup_delete_ne.
Qed.

Lemma timers_step (i : nat) (t : Tray) (e : Event) :
  i < nextId t →
  i ∈ timers (step hasCloseControl t e) ↔ i ∈ timers t ∧ e ≠ TimerFires i.
Proof.
  intros Hi. destruct e as [title message type duration|j|j|j]; simpl.
  - unfold showNotification. destruct (hasCloseControl _); simpl; [|intuition discriminate].
    destruct (0 <? duration)%Z; [|intuition discriminate].
    rewrite elem_of_union, elem_of_singleton. split.
    + intros [H|H]; [lia | split; [exact H | discriminate]].
    + intros [H _]. now right.
  - unfold removeNotification. destruct (isAttached j t); simpl; intuition discriminate.
  - case_bool_decide as Ht.
    + unfold removeNotification, isAttached. simpl.
      assert (i ∈ timers t ∖ {[j]} ↔ i ∈ timers t ∧ TimerFires j ≠ TimerFires i) as Hset.
      { rewrite elem_of_difference, elem_of_singleton. split.
        - intros [H Hne]. split; [exact H | congruence].
        - intros [H Hne]. split; [exact H | congruence]. }
      now destruct (bool_decide (j ∈ (attached t).*1)).
    + split; [|tauto]. intros H. split; [exact H | congruence].
  - unfold animationEnd. destruct (pendingListeners j t); simpl; intuition discriminate.
Qed.

(** *** The invariant *)

Lemma TrayOk_empty : TrayOk emptyTray.
Proof.
  unfold TrayOk, emptyTray, isAttached, pendingListeners. simpl.
  split; [constructor|]. split; [intros i H; now apply elem_of_nil in H|].
  split; [intros i H; now apply elem_of_empty in H|].
  split; [intros i H; rewrite lookup_empty in H; simpl in H; lia | intros i H; lia].
Qed.

Lemma TrayOk_removeNotification (toast : option nat) (t : Tray) :
  TrayOk t → TrayOk (removeNotification toast t).
Proof.
  intros Hok. destruct toast as [i|]; [|exact Hok].
  destruct (isAttached i t) eqn:Ha; [|now rewrite removeNotification_detached].
  destruct Hok as (Hnd & Hids & Htm & Hpend & Hmade).
  assert (∀ j, isAttached j (removeNotification (Some i) t) = isAttached j t) as Hsame
      by (intros j; unfold removeNotification; now rewrite Ha).
  assert (∀ j, j ∈ exiting t → j ∈ exiting (removeNotification (Some i) t)) as Hgrow.
  { intros j Hj. unfold removeNotification. rewrite Ha. simpl.
    apply elem_of_union. now right. }
  assert (i ∈ exiting (removeNotification (Some i) t)) as Hi.
  { unfold removeNotification. rewrite Ha. simpl.
    apply elem_of_union. left. now apply elem_of_singleton. }
  unfold TrayOk.
  split; [unfold removeNotification; now rewrite Ha|].
  split; [unfold removeNotification; now rewrite Ha|].
  split; [unfold removeNotification; now rewrite Ha|].
  split.
  - intros j Hj. rewrite Hsame.
    rewrite pendingListeners_removeNotification in Hj by exact Ha.
    destruct (decide (i = j)) as [<-|Hne]; [now split|].
    destruct (Hpend j Hj) as [H1 H2]. split; [exact H1 | now apply Hgrow].
  - intros j Hj. rewrite Hsame.
    assert (j < nextId t) as Hj' by (unfold removeNotification in Hj; now rewrite Ha in Hj).
    destruct (Hmade j Hj') as [H|H]; [now left | right; now apply Hgrow].
Qed.

Lemma TrayOk_animationEnd (i : nat) (t : Tray) :
  TrayOk t → TrayOk (animationEnd i t).
Proof.
  intros Hok. unfold animationEnd.
  destruct (pendingListeners i t) as [|n] eqn:Hp; [exact Hok|].
  destruct Hok as (Hnd & Hids & Htm & Hpend & Hmade).
  destruct (Hpend i ltac:(lia)) as [_ Hexit].
  set (t' := mkTray (removeChild i (attached t)) (exiting t)
               (delete i (endListeners t)) (timers t) (nextId t)).
  assert (∀ j, pendingListeners j t' = if decide (i = j) then 0 else pendingListeners j t)
    as Hpend'.
  { intros j. unfold pendingListeners, t'. simpl. rewrite lookup_delete.
    now destruct (decide (i = j)). }
  assert (∀ j, j ≠ i → isAttached j t = true → isAttached j t' = true) as Hkeep.
  { intros j Hne Hj. apply isAttached_true. unfold t'. simpl. apply elem_of_removeChild.
    split; [now apply isAttached_true | exact Hne]. }
  unfold TrayOk.
  split; [unfold t'; simpl; rewrite removeChild_ids; now apply NoDup_filter|].
  split.
  { intros j Hj. unfold t' in Hj. simpl in Hj.
    apply elem_of_removeChild in Hj as [Hj _]. now apply Hids. }
  split; [exact Htm|].
  split.
  - intros j Hj. rewrite Hpend' in Hj.
    destruct (decide (i = j)) as [->|Hne]; [lia|].
    destruct (Hpend j Hj) as [H1 H2]. split; [apply Hkeep; congruence | exact H2].
  - intros j Hj. destruct (decide (j = i)) as [->|Hne]; [now right|].
    destruct (Hmade j Hj) as [H|H]; [left; now apply Hkeep | now right].
Qed.

Lemma TrayOk_showNotification (title message type : string) (duration : Z) (t : Tray) :
  TrayOk t → TrayOk (showNotification hasCloseControl title message type duration t).1.
Proof.
  intros Hok. unfold showNotification.
  destruct (hasCloseControl _); [|exact Hok].
  destruct Hok as (Hnd & Hids & Htm & Hpend & Hmade).
  cbn [fst].
  set (toast := mkToast _ _).
  set (t' := mkTray _ _ _ _ _).
  assert (∀ j, isAttached j t = true → isAttached j t' = true) as Hkeep.
  { intros j Hj. apply isAttached_true. unfold t'. simpl.
    rewrite fmap_app, elem_of_app. left. now apply isAttached_true. }
  assert (isAttached (nextId t) t' = true) as Hnew.
  { apply isAttached_true. unfold t'. simpl. rewrite fmap_app, elem_of_app. right.
    simpl. now apply list_elem_of_singleton. }
  unfold TrayOk.
  split.
  { unfold t'. simpl. rewrite fmap_app. simpl. apply NoDup_app. split; [exact Hnd|].
    split; [|apply NoDup_singleton].
    intros j Hj Hin. apply list_elem_of_singleton in Hin. subst j.
    specialize (Hids _ Hj). lia. }
  split.
  { intros j Hj. unfold t' in Hj. simpl in *.
    rewrite fmap_app, elem_of_app in Hj. simpl in Hj.
    destruct Hj as [Hj|Hj]; [specialize (Hids _ Hj); lia|].
    apply list_elem_of_singleton in Hj. lia. }
  split.
  { intros j Hj. unfold t' in *. simpl in *.
    destruct (0 <? duration)%Z; [|specialize (Htm _ Hj); lia].
    apply elem_of_union in Hj as [Hj|Hj]; [apply elem_of_singleton in Hj; lia|].
    specialize (Htm _ Hj). lia. }
  split.
  - intros j Hj. destruct (Hpend j Hj) as [H1 H2]. split; [now apply Hkeep | exact H2].
  - intros j Hj. unfold t' in Hj. simpl in Hj.
    destruct (decide (j = nextId t)) as [->|Hne]; [now left|].
    destruct (Hmade j ltac:(lia)) as [H|H]; [left; now apply Hkeep | now right].
Qed.

Lemma TrayOk_step (t : Tray) (e : Event) :
  TrayOk t → TrayOk (step hasCloseControl t e).
Proof.
  intros Hok. destruct e as [title message type duration|j|j|j]; cbn [step].
  - now apply TrayOk_showNotification.
  - now apply TrayOk_removeNotification.
  - case_bool_decide; [|exact Hok]. apply TrayOk_removeNotification.
    destruct Hok as (Hnd & Hids & Htm & Hpend & Hmade).
    unfold TrayOk.
    split; [exact Hnd|]. split; [exact Hids|].
    split; [|split; [exact Hpend | exact Hmade]].
    intros i Hi. simpl in Hi. apply elem_of_difference in Hi as [Hi _]. now apply Htm.
  - now apply TrayOk_animationEnd.
Qed.

Lemma TrayOk_run (events : list Event) :
  ∀ t, TrayOk t → TrayOk (run hasCloseControl events t).
Proof.
  unfold run. induction events as [|e rest IH]; intros t Hok; [exact Hok|].
  simpl. apply IH. now apply TrayOk_step.
Qed.

(** *** The stages of a toast *)

Lemma gone_step (i : nat) (t : Tray) (e : Event) :
  gone i t → gone i (step hasCloseControl t e).
Proof.
  intros [Ha Hi]. split; [|pose proof (nextId_step t e); lia].
  rewrite isAttached_step by exact Hi.
  destruct e as [ | | |j]; try exact Ha.
  destruct (decide (j = i)); [|exact Ha]. now destruct (pendingListeners i t).
Qed.

Lemma leaving_step (i : nat) (t : Tray) (e : Event) :
  leaving i t →
  leaving i (step hasCloseControl t e) ∨ gone i (step hasCloseControl t e).
Proof.
  intros (Ha & Hp & Hi).
  pose proof (nextId_step t e) as Hn.
  pose proof (isAttached_step i t e Hi) as Hatt.
  pose proof (pendingListeners_step i t e) as Hpend.
  destruct e as [title message type duration|j|j|j].
  - left. unfold leaving. rewrite Hatt, Hpend. repeat split; [exact Ha | exact Hp | lia].
  - left. unfold leaving. rewrite Hatt, Hpend. repeat split; [exact Ha | | lia].
    destruct (decide (j = i)); [rewrite Ha|]; lia.
  - left. unfold leaving. rewrite Hatt, Hpend. repeat split; [exact Ha | | lia].
    destruct (decide (j = i)); [|lia].
    destruct (bool_decide (i ∈ timers t) && isAttached i t); lia.
  - destruct (decide (j = i)) as [->|Hne].
    + right. unfold gone. rewrite Hatt.
      destruct (pendingListeners i t); [lia|]. split; [reflexivity | lia].
    + left. unfold leaving. rewrite Hatt, Hpend. repeat split; [exact Ha | exact Hp | lia].
Qed.

Lemma leaving_animationEnd (i : nat) (t : Tray) :
  leaving i t ∨ gone i t → gone i (step hasCloseControl t (AnimationEnd i)).
Proof.
  intros [(Ha & Hp & Hi)|Hg]; [|now apply gone_step].
  unfold gone. rewrite isAttached_step by exact Hi. rewrite decide_True by reflexivity.
  destruct (pendingListeners i t); [lia|].
  split; [reflexivity | pose proof (nextId_step t (AnimationEnd i)); lia].
Qed.

Lemma armed_step (i : nat) (t : Tray) (e : Event) :
  armed i t →
  armed i (step hasCloseControl t e) ∨ leaving i (step hasCloseControl t e)
  ∨ gone i (step hasCloseControl t e).
Proof.
  intros (Ha & Ht & Hi).
  pose proof (nextId_step t e) as Hn.
  pose proof (isAttached_step i t e Hi) as Hatt.
  pose proof (pendingListeners_step i t e) as Hpend.
  pose proof (timers_step i t e Hi) as Htim.
  destruct e as [title message type duration|j|j|j].
  - left. unfold armed. rewrite Hatt, Htim.
    repeat split; [exact Ha | exact Ht | discriminate | lia].
  - left. unfold armed. rewrite Hatt, Htim.
    repeat split; [exact Ha | exact Ht | discriminate | lia].
  - destruct (decide (j = i)) as [->|Hji].
    + right. left. unfold leaving. rewrite Hatt, Hpend.
      rewrite bool_decide_eq_true_2, Ha by exact Ht.
      cbn [andb]. repeat split; lia.
    + left. unfold armed. rewrite Hatt, Htim.
      repeat split; [exact Ha | exact Ht | congruence | lia].
  - destruct (decide (j = i)) as [->|Hji].
    + destruct (pendingListeners i t) eqn:Hp.
      * left. unfold armed. rewrite Hatt, Htim.
        repeat split; [exact Ha | exact Ht | discriminate | lia].
      * right. right. unfold gone. rewrite Hatt.
        split; [reflexivity | lia].
    + left. unfold armed. rewrite Hatt, Htim.
      repeat split; [exact Ha | exact Ht | discriminate | lia].
Qed.

Lemma armed_timerFires (i : nat) (t : Tray) :
  armed i t ∨ leaving i t ∨ gone i t →
  leaving i (step hasCloseControl t (TimerFires i))
  ∨ gone i (step hasCloseControl t (TimerFires i)).
Proof.
  intros [Harmed|[Hl|Hg]]; [|now apply leaving_step | right; now apply gone_step].
  destruct Harmed as (Ha & Ht & Hi). left. unfold leaving.
  rewrite isAttached_step, pendingListeners_step by exact Hi.
  rewrite decide_True, bool_decide_eq_true_2, Ha by (reflexivity || exact Ht).
  cbn [andb]. pose proof (nextId_step t (TimerFires i)). repeat split; lia.
Qed.

Lemma run_gone (i : nat) (events : list Event) :
  ∀ t, gone i t → gone i (run hasCloseControl events t).
Proof.
  unfold run. induction events as [|e rest IH]; intros t H; [exact H|].
  simpl. apply IH. now apply gone_step.
Qed.

Lemma run_leaving (i : nat) (events : list Event) :
  ∀ t, leaving i t ∨ gone i t →
       leaving i (run hasCloseControl events t) ∨ gone i (run hasCloseControl events t).
Proof.
  unfold run. induction events as [|e rest IH]; intros t H; [exact H|].
  simpl. apply IH. destruct H as [H|H]; [now apply leaving_step | right; now apply gone_step].
Qed.

Lemma run_armed (i : nat) (events : list Event) :
  ∀ t, armed i t ∨ leaving i t ∨ gone i t →
       armed i (run hasCloseControl events t) ∨ leaving i (run hasCloseControl events t)
       ∨ gone i (run hasCloseControl events t).
Proof.
  unfold run. induction events as [|e rest IH]; intros t H; [exact H|].
  simpl. apply IH. destruct H as [H|[H|H]].
  - now apply armed_step.
  - right. now apply leaving_step.
  - right. right. now apply gone_step.
Qed.

Lemma resting_step (i : nat) (t : Tray) (e : Event) :
  resting i t → mentionsClick i e = false → resting i (step hasCloseControl t e).
Proof.
  intros (Ha & Ht & Hp & Hi) Hclick.
  pose proof (nextId_step t e) as Hn.
  unfold resting.
  rewrite isAttached_step, pendingListeners_step, timers_step by exact Hi.
  split.
  { destruct e as [ | | |j]; try exact Ha.
    destruct (decide (j = i)); [now rewrite Hp | exact Ha]. }
  split; [tauto|]. split; [|lia].
  destruct e as [title message type duration|j|j|j]; simpl in Hclick.
  - exact Hp.
  - apply bool_decide_eq_false in Hclick. now rewrite decide_False.
  - destruct (decide (j = i)); [|exact Hp].
    now rewrite bool_decide_eq_false_2.
  - now destruct (decide (j = i)).
Qed.

Lemma run_resting (i : nat) (events : list Event) :
  ∀ t, resting i t → forallb (λ e, negb (mentionsClick i e)) events = true →
       resting i (run hasCloseControl events t).
Proof.
  unfold run. induction events as [|e rest IH]; intros t H Hev; [exact H|].
  simpl in *. apply andb_true_iff in Hev as [He Hrest].
  apply IH; [|exact Hrest]. apply resting_step; [exact H | now apply negb_true_iff].
Qed.

(** What a call leaves behind for the toast it made. *)
Lemma showNotification_made (title message type : string) (duration : Z) (t : Tray) :
  TrayOk t → hasCloseControl (toastMarkup title message) = true →
  let t' := (showNotification hasCloseControl title message type duration t).1 in
  (showNotification hasCloseControl title message type duration t).2 = Normal (nextId t)
  ∧ isAttached (nextId t) t' = true
  ∧ pendingListeners (nextId t) t' = 0
  ∧ nextId t < nextId t'
  ∧ (nextId t ∈ timers t' ↔ (0 < duration)%Z).
Proof.
  intros (Hnd & Hids & Htm & Hpend & Hmade) Hclose. unfold showNotification. simpl.
  rewrite Hclose. simpl.
  split; [reflexivity|]. split.
  { apply isAttached_true. simpl. rewrite fmap_app, elem_of_app. right.
    simpl. now apply list_elem_of_singleton. }
  split.
  { change (pendingListeners (nextId t) t = 0).
    destruct (pendingListeners (nextId t) t) eqn:Hp; [reflexivity|].
    destruct (Hpend (nextId t) ltac:(lia)) as [Ha _].
    apply isAttached_true, Hids in Ha. lia. }
  split; [lia|].
  destruct (0 <? duration)%Z eqn:Hd.
  - apply Z.ltb_lt in Hd. split; [intros _; exact Hd|].
    intros _. apply elem_of_union. left. now apply elem_of_singleton.
  - apply Z.ltb_ge in Hd. split; [|lia]. intros H. apply Htm in H. lia.
Qed.

(** The call seen with identities and the call seen by the submit listener
    are the same call: they append the same toast and fail together. *)
Lemma showNotification_agrees (title message type : string) (duration : Z)
      (t : Tray) (p : Page) :
  notifications (window p) = (attached t).*2 →
  notifications
    (window (FormHandler.showNotification hasCloseControl title message type p).1)
  = (attached (Toasts.showNotification hasCloseControl title message type duration t).1).*2
  ∧ ((∃ e, (FormHandler.showNotification hasCloseControl title message type p).2 = Throw e
           ∧ (Toasts.showNotification hasCloseControl title message type duration t).2
             = Throw e)
     ∨ (∃ toast i,
           (FormHandler.showNotification hasCloseControl title message type p).2
           = Normal toast
           ∧ (Toasts.showNotification hasCloseControl title message type duration t).2
             = Normal i
           ∧ (i, toast)
             ∈ attached (Toasts.showNotification hasCloseControl title message type
                           duration t).1)).
Proof.
  intros Hsame.
  unfold FormHandler.showNotification, Toasts.showNotification, bind, ret, throw,
    getWindow, putWindow.
  cbn [innerHTML].
  destruct (hasCloseControl (toastMarkup title message)); simpl.
  - rewrite fmap_app, Hsame. split; [reflexivity|]. right.
    eexists _, _. repeat split. apply elem_of_app. right. apply list_elem_of_singleton.
    reflexivity.
  - split; [exact Hsame|]. left. eauto.
Qed.

(** *** Properties of dismissal *)

(** X19.  Once a toast is out of the container, or was never in it, whatever
    still reaches it changes nothing: a click on its close control and an
    animation end leave the tray as it is, and its timeout only spends
    itself. *)
Theorem detached_toast_is_inert (i : nat) (t : Tray) :
  TrayOk t → isAttached i t = false →
  step hasCloseControl t (ClickClose i) = t
  ∧ step hasCloseControl t (AnimationEnd i) = t
  ∧ attached (step hasCloseControl t (TimerFires i)) = attached t
  ∧ exiting (step hasCloseControl t (TimerFires i)) = exiting t
  ∧ endListeners (step hasCloseControl t (TimerFires i)) = endListeners t.
Proof.
  intros (Hnd & Hids & Htm & Hpend & Hmade) Ha.
  assert (pendingListeners i t = 0) as Hp.
  { destruct (pendingListeners i t) eqn:Hp; [reflexivity|].
    destruct (Hpend i ltac:(lia)) as [Ha' _]. congruence. }
  cbn [step].
  split; [now apply removeNotification_detached|].
  split; [now apply animationEnd_idle|].
  case_bool_decide; [|now repeat split].
  rewrite removeNotification_detached by exact Ha. now repeat split.
Qed.

(** X20.  Two requests to remove the same toast before its animation ends (two
    clicks, or a click and the timeout) remove it once: the tray after the
    animation end is the one a single request gives. *)
Theorem double_request_removes_once (i : nat) (t : Tray) :
  isAttached i t = true →
  animationEnd i (removeNotification (Some i) (removeNotification (Some i) t))
  = animationEnd i (removeNotification (Some i) t).
Proof.
  intros Ha.
  set (t1 := mkTray (attached t) ({[i]} ∪ exiting t)
               (<[i := S (pendingListeners i t)]> (endListeners t))
               (timers t) (nextId t)).
  assert (removeNotification (Some i) t = t1) as ->
      by (unfold removeNotification; now rewrite Ha).
  assert (removeNotification (Some i) t1
          = mkTray (attached t) ({[i]} ∪ exiting t1)
              (<[i := S (pendingListeners i t1)]> (endListeners t1))
              (timers t) (nextId t)) as ->.
  { unfold removeNotification.
    assert (isAttached i t1 = true) as -> by exact Ha. reflexivity. }
  unfold animationEnd, pendingListeners, t1. simpl. rewrite !lookup_insert_eq. simpl.
  f_equal.
  - apply set_eq. intros j. rewrite !elem_of_union. tauto.
  - now rewrite !delete_insert_eq.
Qed.

(** X21.  A toast shown with a duration that is not positive has no timeout:
    whatever else happens to the container, it stays there until its own
    close control is clicked. *)
Theorem untimed_toast_stays (title message type : string) (duration : Z) (t : Tray)
        (events : list Event) :
  TrayOk t → hasCloseControl (toastMarkup title message) = true →
  (duration ≤ 0)%Z →
  forallb (λ e, negb (mentionsClick (nextId t) e)) events = true →
  isAttached (nextId t)
    (run hasCloseControl events
       (showNotification hasCloseControl title message type duration t).1) = true.
Proof.
  intros Hok Hclose Hd Hev.
  destruct (showNotification_made title message type duration t Hok Hclose)
    as (_ & Ha & Hp & Hn & Ht).
  apply (run_resting (nextId t) events); [|exact Hev].
  unfold resting. repeat split; [exact Ha | | exact Hp | exact Hn].
  intros Hin. apply Ht in Hin. lia.
Qed.

(** X22.  A toast shown with a positive duration is out of the container once
    its timeout has fired and an animation end has reached it afterwards,
    whatever happens before, in between and after; and it never comes
    back. *)
Theorem timed_toast_expires (title message type : string) (duration : Z) (t : Tray)
        (before between after : list Event) :
  TrayOk t → hasCloseControl (toastMarkup title message) = true →
  (0 < duration)%Z →
  isAttached (nextId t)
    (run hasCloseControl
       (before ++ TimerFires (nextId t) :: between ++ AnimationEnd (nextId t) :: after)
       (showNotification hasCloseControl title message type duration t).1) = false.
Proof.
  intros Hok Hclose Hd.
  destruct (showNotification_made title message type duration t Hok Hclose)
    as (_ & Ha & Hp & Hn & Ht).
  set (i := nextId t) in *.
  set (t1 := (showNotification hasCloseControl title message type duration t).1) in *.
  assert (armed i t1) as Harmed by (unfold armed; repeat split; [exact Ha | now apply Ht | exact Hn]).
  unfold run. rewrite foldl_app. simpl. rewrite foldl_app. simpl.
  pose proof (run_armed i before t1 (or_introl Harmed)) as H1.
  apply armed_timerFires in H1.
  pose proof (run_leaving i between _ H1) as H2.
  apply leaving_animationEnd in H2.
  pose proof (run_gone i after _ H2) as [H3 _].
  exact H3.
Qed.

End Browser.

(** X23.  From the empty container, whatever happens, a toast that was shown and
    is no longer in the container had its exit animation started: nothing
    detaches a toast without it. *)
Theorem detached_toast_played_exit (hasCloseControl : string → bool)
        (events : list Event) (i : nat) :
  i < nextId (run hasCloseControl events emptyTray) →
  isAttached i (run hasCloseControl events emptyTray) = false →
  i ∈ exiting (run hasCloseControl events emptyTray).
Proof.
  intros Hi Ha.
  destruct (TrayOk_run hasCloseControl events emptyTray TrayOk_empty)
    as (_ & _ & _ & _ & Hmade).
  destruct (Hmade i Hi) as [H|H]; [congruence | exact H].
Qed.

Lemma dismiss_removes_that_toast_witness :
  attached (animationEnd 0 (removeNotification (Some 0) Scenarios.timedTray)) = []
  ∧ isAttached 0 (animationEnd 0 (removeNotification (Some 0) Scenarios.timedTray)) = false.
Proof.
  destruct (dismiss_removes_that_toast 0 Scenarios.timedTray eq_refl)
    as (_ & Hchildren & Hgone & _).
  exact (conj Hchildren Hgone).
Defined.

Lemma detached_toast_is_inert_witness :
  0 < nextId Scenarios.departedTray
  ∧ 0 ∈ timers Scenarios.departedTray
  ∧ step Samples.tokenizerHasCloseControl Scenarios.departedTray (ClickClose 0)
    = Scenarios.departedTray
  ∧ step Samples.tokenizerHasCloseControl Scenarios.departedTray (AnimationEnd 0)
    = Scenarios.departedTray
  ∧ attached (step Samples.tokenizerHasCloseControl Scenarios.departedTray (TimerFires 0))
    = attached Scenarios.departedTray.
Proof.
  destruct (detached_toast_is_inert Samples.tokenizerHasCloseControl 0
              Scenarios.departedTray
              (TrayOk_run Samples.tokenizerHasCloseControl Scenarios.departure emptyTray
                 TrayOk_empty)
              eq_refl) as (Hclick & Hend & Htimer & _).
  split; [vm_compute; lia|]. split; [now vm_compute|].
  exact (conj Hclick (conj Hend Htimer)).
Defined.

Lemma double_request_removes_once_witness :
  animationEnd 0 (removeNotification (Some 0) (removeNotification (Some 0) Scenarios.timedTray))
  = animationEnd 0 (removeNotification (Some 0) Scenarios.timedTray).
Proof. exact (double_request_removes_once 0 Scenarios.timedTray eq_refl). Defined.

Lemma untimed_toast_stays_witness :
  isAttached 0
    (run Samples.tokenizerHasCloseControl Scenarios.otherTraffic Scenarios.stickyTray)
  = true.
Proof.
  apply (untimed_toast_stays Samples.tokenizerHasCloseControl
           "Saved" "Draft stored" "info" 0 emptyTray Scenarios.otherTraffic
           TrayOk_empty eq_refl);
    [lia | reflexivity].
Defined.

Lemma timed_toast_expires_witness :
  isAttached 0
    (run Samples.tokenizerHasCloseControl
       ([ClickClose 0] ++ TimerFires 0 :: [Show "Saved" "Draft stored" "info" 0]
          ++ AnimationEnd 0 :: [ClickClose 0])
       Scenarios.timedTray)
  = false.
Proof.
  apply (timed_toast_expires Samples.tokenizerHasCloseControl
           "Error" "bad input" "error" 5000 emptyTray
           [ClickClose 0] [Show "Saved" "Draft stored" "info" 0] [ClickClose 0]
           TrayOk_empty eq_refl).
  lia.
Defined.

Lemma detached_toast_played_exit_witness :
  0 ∈ exiting (run Samples.tokenizerHasCloseControl
                 [Show "Error" "bad input" "error" 5000; ClickClose 0; AnimationEnd 0]
                 emptyTray).
Proof.
  apply (detached_toast_played_exit Samples.tokenizerHasCloseControl
           [Show "Error" "bad input" "error" 5000; ClickClose 0; AnimationEnd 0] 0).
  - vm_compute. lia.
  - reflexivity.
Defined.

End ToastFacts.

(** ** What construction adds to the document *)

Module ConstructionFacts.
Import Dom FormHandler.

Lemma find_snoc (sel : Element → bool) (l : list Element) (e : Element) :
  find sel l = None → find sel (l ++ [e]) = if sel e then Some e else None.
Proof.
  induction l as [|x l IH]; intros H; [reflexivity|].
  simpl in *. destruct (sel x); [discriminate | now apply IH].
Qed.

Lemma find_hasId (i : string) (l : list Element) (e : Element) :
  find (hasId i) l = Some e → elemId e = i.
Proof.
  intros H. apply find_some in H as [_ H]. now apply String.eqb_eq in H.
Qed.

(** X24.  The container that the constructor keeps is the element that a later
    lookup by id finds: the first element of that id when the document has
    one, in which case the document is left as it is, and a new last child
    of the body otherwise. *)
Theorem createNotificationContainer_registered (d : Document) :
  let r := createNotificationContainer d in
  getElementById containerId r.1 = Some r.2
  ∧ elemId r.2 = containerId
  ∧ (∀ e, getElementById containerId d = Some e → r = (d, e))
  ∧ (getElementById containerId d = None →
     headNodes r.1 = headNodes d ∧ bodyNodes r.1 = bodyNodes d ++ [r.2]).
Proof.
  intros r. subst r. unfold createNotificationContainer.
  destruct (getElementById containerId d) as [e|] eqn:E; simpl.
  - repeat split; [exact E | now apply find_hasId in E | congruence | discriminate..].
  - repeat split; try discriminate.
    unfold getElementById in *. simpl. rewrite app_assoc.
    now rewrite (find_snoc _ _ _ E).
Qed.

Lemma getElementById_styles_after_container (d : Document) :
  getElementById stylesId (createNotificationContainer d).1 = None
  ↔ getElementById stylesId d = None.
Proof.
  rewrite !DocumentFacts.getElementById_None,
    DocumentFacts.createNotificationContainer_count.
  reflexivity.
Qed.

(** X25.  Construction only appends: the nodes of head and body that were there
    stay, in their order; the style element is appended to the head unless
    some element already had its id, and the container to the body unless
    some element already had its id. *)
Theorem construct_only_appends (d : Document) (forms : list Form) :
  let d' := (construct d forms).1 in
  headNodes d'
  = headNodes d
    ++ match getElementById stylesId d with
       | Some _ => []
       | None => [mkElement "style" stylesId EmptyString]
       end
  ∧ bodyNodes d'
    = bodyNodes d
      ++ match getElementById containerId d with
         | Some _ => []
         | None => [mkElement "div" containerId "toast-container"]
         end.
Proof.
  intros d'. subst d'. unfold construct, init. cbn [fst].
  pose proof (getElementById_styles_after_container d) as Hs.
  unfold addStyles.
  destruct (getElementById stylesId (createNotificationContainer d).1) as [s|] eqn:E1,
           (getElementById stylesId d) as [s0|] eqn:E0.
  2: { destruct Hs as [_ Hs]. now specialize (Hs eq_refl). }
  2: { destruct Hs as [Hs _]. now specialize (Hs eq_refl). }
  all: unfold createNotificationContainer;
    destruct (getElementById containerId d); simpl; now rewrite ?app_nil_r.
Qed.

End ConstructionFacts.

(** ** Form groups as a tree: flat pages *)

Module GroupFacts.
Import Dom FormHandler Groups.

(** Induction on a tree with the hypothesis for every child. *)
Lemma Node_induction (P : Node → Prop) :
  (∀ text, P (Feedback text)) →
  (∀ i children, Forall P children → P (Element i children)) →
  ∀ n, P n.
Proof.
  intros HF HE. fix IH 1. intros [text|i children]; [apply HF|].
  apply HE. induction children as [|c children IHc]; constructor; [apply IH | exact IHc].
Qed.

Lemma elem_of_flat_map_ids (j : nat) (children : list Node) :
  j ∈ flat_map ids children ↔ ∃ c, c ∈ children ∧ j ∈ ids c.
Proof.
  rewrite list_elem_of_In, in_flat_map.
  split; intros (c & Hc & Hj); exists c; rewrite ?list_elem_of_In in *; now split.
Qed.

Lemma childrenOf_absent (g : nat) (n : Node) : g ∉ ids n → childrenOf g n = None.
Proof.
  induction n as [text|i children IH] using Node_induction; intros Hg; [reflexivity|].
  simpl in *. apply not_elem_of_cons in Hg as [Hne Hg].
  rewrite (proj2 (Nat.eqb_neq i g)) by congruence.
  induction children as [|c children IHc]; [reflexivity|].
  apply Forall_cons in IH as [IHhead IHtail]. simpl in Hg.
  apply not_elem_of_app in Hg as [Hc Hrest].
  simpl. rewrite (IHhead Hc). now apply IHc.
Qed.

Lemma childrenOf_present (g : nat) (n : Node) : g ∈ ids n → is_Some (childrenOf g n).
Proof.
  induction n as [text|i children IH] using Node_induction; intros Hg.
  - now apply elem_of_nil in Hg.
  - simpl in *. destruct (i =? g) eqn:E; [eauto|].
    apply Nat.eqb_neq in E. apply elem_of_cons in Hg as [->|Hg]; [congruence|].
    clear E. induction children as [|c children IHc]; [now apply elem_of_nil in Hg|].
    apply Forall_cons in IH as [IHhead IHtail]. simpl in Hg.
    simpl. destruct (childrenOf g c) as [cs|] eqn:Ec; [simpl; eauto|].
    apply elem_of_app in Hg as [Hg|Hg]; [|now apply IHc].
    destruct (IHhead Hg) as [cs Hcs]. congruence.
Qed.

Lemma alterChildren_absent (g : nat) (h : list Node → list Node) (n : Node) :
  g ∉ ids n → alterChildren g h n = n.
Proof.
  induction n as [text|i children IH] using Node_induction; intros Hg; [reflexivity|].
  simpl in *. apply not_elem_of_cons in Hg as [Hne Hg].
  rewrite (proj2 (Nat.eqb_neq i g)) by congruence. f_equal.
  induction children as [|c children IHc]; [reflexivity|].
  apply Forall_cons in IH as [IHhead IHtail]. simpl in Hg.
  apply not_elem_of_app in Hg as [Hc Hrest].
  rewrite fmap_cons, (IHhead Hc). f_equal. now apply IHc.
Qed.

Lemma elements_removeFirstFeedback (children : list Node) :
  elements (removeFirstFeedback children) = elements children.
Proof.
  unfold elements. induction children as [|[text|i cs] rest IH]; [reflexivity| |].
  - simpl. now rewrite filter_cons_False by (simpl; discriminate).
  - simpl. rewrite !filter_cons_True by reflexivity. now rewrite IH.
Qed.

Lemma elements_append_feedback (children : list Node) (text : string) :
  elements (children ++ [Feedback text]) = elements children.
Proof.
  unfold elements. rewrite filter_app, filter_cons_False by (simpl; discriminate).
  now rewrite filter_nil, app_nil_r.
Qed.

Lemma omap_elements {A} (f : Node → option A) (children : list Node) :
  (∀ text, f (Feedback text) = None) →
  omap f (elements children) = omap f children.
Proof.
  intros Hf. unfold elements. induction children as [|[text|i cs] rest IH]; [reflexivity| |].
  - rewrite filter_cons_False by (simpl; discriminate).
    change (omap f (Feedback text :: rest))
      with (match f (Feedback text) with Some y => y :: omap f rest | None => omap f rest end).
    now rewrite Hf.
  - rewrite filter_cons_True by reflexivity.
    change (omap f (Element i cs :: rest))
      with (match f (Element i cs) with Some y => y :: omap f rest | None => omap f rest end).
    rewrite <- IH. reflexivity.
Qed.

Lemma flat_map_ids_elements (children : list Node) :
  flat_map ids (elements children) = flat_map ids children.
Proof.
  unfold elements. induction children as [|[text|i cs] rest IH]; [reflexivity| |].
  - now rewrite filter_cons_False by (simpl; discriminate).
  - rewrite filter_cons_True by reflexivity. simpl. now rewrite IH.
Qed.

Lemma ids_alterChildren (g : nat) (h : list Node → list Node) (n : Node) :
  keepsElements h → ids (alterChildren g h n) = ids n.
Proof.
  intros Hh. induction n as [text|i children IH] using Node_induction; [reflexivity|].
  simpl. destruct (i =? g).
  - simpl. f_equal.
    now rewrite <- (flat_map_ids_elements (h children)), Hh, flat_map_ids_elements.
  - simpl. f_equal. induction children as [|c children IHc]; [reflexivity|].
    apply Forall_cons in IH as [IHhead IHtail].
    rewrite fmap_cons. simpl. now rewrite IHhead, IHc.
Qed.

(** *** Looking up and altering *)

Lemma head_omap_fmap {A B} (F : Node → option A) (G : Node → option B) (k : B → A)
      (a : Node → Node) (l : list Node) :
  Forall (λ c, F (a c) = k <$> G c) l →
  head (omap F (a <$> l)) = k <$> head (omap G l).
Proof.
  induction 1 as [|c l Hc _ IH]; [reflexivity|].
  rewrite fmap_cons. simpl. rewrite Hc. destruct (G c); [reflexivity | exact IH].
Qed.

Lemma head_omap_Some {A} (F : Node → option A) (l : list Node) (y : A) :
  head (omap F l) = Some y → ∃ c, c ∈ l ∧ F c = Some y.
Proof.
  induction l as [|c l IH]; [discriminate|]. simpl.
  destruct (F c) as [z|] eqn:E.
  - simpl. intros [= ->]. exists c. split; [left | exact E].
  - intros H. destruct (IH H) as (c' & Hc' & E'). exists c'. split; [now right | exact E'].
Qed.

Lemma childrenOf_alterChildren_eq (g : nat) (h : list Node → list Node) (n : Node) :
  childrenOf g (alterChildren g h n) = h <$> childrenOf g n.
Proof.
  induction n as [text|i children IH] using Node_induction; [reflexivity|].
  simpl. destruct (i =? g) eqn:E; simpl; rewrite E; [reflexivity|].
  now apply head_omap_fmap.
Qed.

Lemma childrenOf_within (g : nat) (n : Node) (children : list Node) :
  childrenOf g n = Some children → ∀ j, j ∈ flat_map ids children → j ∈ ids n.
Proof.
  revert children. induction n as [text|i cs IH] using Node_induction;
    intros children H j Hj; [discriminate|].
  simpl in *. destruct (i =? g).
  - injection H as <-. now right.
  - right. apply head_omap_Some in H as (c & Hc & E).
    apply elem_of_flat_map_ids. exists c. split; [exact Hc|].
    rewrite Forall_forall in IH. exact (IH c Hc children E j Hj).
Qed.

Lemma NoDup_flat_map_ids (children : list Node) (c : Node) :
  NoDup (flat_map ids children) → c ∈ children → NoDup (ids c).
Proof.
  induction children as [|c' children IH]; intros Hnd Hc; [now apply elem_of_nil in Hc|].
  simpl in Hnd. apply NoDup_app in Hnd as (Hhead & _ & Htail).
  apply elem_of_cons in Hc as [->|Hc]; [exact Hhead | now apply IH].
Qed.

Lemma fmap_alterChildren_absent (g : nat) (h : list Node → list Node) (l : list Node) :
  g ∉ flat_map ids l → alterChildren g h <$> l = l.
Proof.
  induction l as [|c l IH]; intros Hg; [reflexivity|].
  simpl in Hg. apply not_elem_of_app in Hg as [Hc Hl].
  now rewrite fmap_cons, alterChildren_absent, IH.
Qed.

Lemma childrenOf_alterChildren_ne (g g' : nat) (h : list Node → list Node) (n : Node) :
  g' ≠ g → NoDup (ids n) → keepsElements h →
  childrenOf g' (alterChildren g h n)
  = (λ cs : list Node, alterChildren g h <$> cs) <$> childrenOf g' n.
Proof.
  intros Hne Hnd Hh. revert Hnd.
  induction n as [text|i children IH] using Node_induction; intros Hnd; [reflexivity|].
  simpl in Hnd. apply NoDup_cons in Hnd as [Hi Hnd].
  simpl. destruct (i =? g) eqn:E.
  - apply Nat.eqb_eq in E. subst i. simpl.
    rewrite (proj2 (Nat.eqb_neq g g')) by congruence.
    rewrite <- (omap_elements (childrenOf g') (h children)) by reflexivity.
    rewrite Hh, omap_elements by reflexivity.
    destruct (head (omap (childrenOf g') children)) as [cs|] eqn:Ecs; [|reflexivity].
    simpl. f_equal. symmetry. apply fmap_alterChildren_absent.
    apply head_omap_Some in Ecs as (c & Hc & Ecs). intros Hg. apply Hi.
    apply elem_of_flat_map_ids. exists c. split; [exact Hc|].
    exact (childrenOf_within _ _ _ Ecs g Hg).
  - simpl. destruct (i =? g') eqn:E'; [reflexivity|].
    apply head_omap_fmap. rewrite Forall_forall in IH |- *.
    intros c Hc. apply (IH c Hc). exact (NoDup_flat_map_ids _ _ Hnd Hc).
Qed.

Lemma feedbackText_alterChildren (g : nat) (h : list Node → list Node) (c : Node) :
  feedbackText (alterChildren g h c) = feedbackText c.
Proof. destruct c as [text|i cs]; [reflexivity|]. simpl. now destruct (i =? g). Qed.

Lemma omap_cons_unfold {A B} (f : A → option B) (x : A) (l : list A) :
  omap f (x :: l) = match f x with Some y => y :: omap f l | None => omap f l end.
Proof. reflexivity. Qed.

Lemma omap_feedbackText_alterChildren (g : nat) (h : list Node → list Node) (l : list Node) :
  omap feedbackText (alterChildren g h <$> l) = omap feedbackText l.
Proof.
  induction l as [|c l IH]; [reflexivity|].
  now rewrite fmap_cons, !omap_cons_unfold, feedbackText_alterChildren, IH.
Qed.

(** *** The messages after an alteration *)

Lemma directTexts_alterChildren_eq (g : nat) (h : list Node → list Node) (root : Node)
      (children : list Node) :
  childrenOf g root = Some children →
  directTexts g (alterChildren g h root) = omap feedbackText (h children).
Proof.
  intros H. unfold directTexts. now rewrite childrenOf_alterChildren_eq, H.
Qed.

Lemma directTexts_alterChildren_ne (g g' : nat) (h : list Node → list Node) (root : Node) :
  g' ≠ g → NoDup (ids root) → keepsElements h →
  directTexts g' (alterChildren g h root) = directTexts g' root.
Proof.
  intros Hne Hnd Hh. unfold directTexts.
  rewrite (childrenOf_alterChildren_ne g g' h root Hne Hnd Hh).
  destruct (childrenOf g' root) as [cs|]; [|reflexivity].
  simpl. apply omap_feedbackText_alterChildren.
Qed.

Lemma texts_removeFirstFeedback (children : list Node) :
  omap feedbackText (removeFirstFeedback children) = drop 1 (omap feedbackText children).
Proof.
  induction children as [|[text|i cs] rest IH]; [reflexivity| |].
  - simpl. now rewrite drop_0.
  - simpl. exact IH.
Qed.

Lemma texts_append_feedback (children : list Node) (text : string) :
  omap feedbackText (children ++ [Feedback text]) = omap feedbackText children ++ [text].
Proof. now rewrite omap_app. Qed.

(** *** Flat pages *)

Lemma firstFeedback_tidy (used : list nat) (children : list Node) :
  forallb (tidy used) children = true →
  firstFeedback children
  = match omap feedbackText children with [] => Nowhere | _ => Child end.
Proof.
  induction children as [|[text|i cs] rest IH]; intros H; [reflexivity..|].
  simpl in H. apply andb_true_iff in H as [Hc Hrest].
  unfold clean in Hc. apply andb_true_iff in Hc as [Hc _]. apply negb_true_iff in Hc.
  change (firstFeedback (Element i cs :: rest))
    with (if hasFeedback (Element i cs) then Deeper else firstFeedback rest).
  rewrite Hc. exact (IH Hrest).
Qed.

Lemma forallb_tidy_elements (used : list nat) (children : list Node) :
  forallb (tidy used) (elements children) = forallb (tidy used) children.
Proof.
  unfold elements. induction children as [|[text|i cs] rest IH]; [reflexivity| |].
  - now rewrite filter_cons_False by (simpl; discriminate).
  - rewrite filter_cons_True by reflexivity. simpl. now rewrite IH.
Qed.

Lemma clean_absent (used : list nat) (c : Node) (g : nat) :
  clean used c = true → g ∈ used → g ∉ ids c.
Proof.
  unfold clean. intros H Hg Hin. apply andb_true_iff in H as [_ H].
  rewrite forallb_forall in H. specialize (H g).
  rewrite <- list_elem_of_In in H. specialize (H Hin).
  apply bool_decide_eq_true in H. contradiction.
Qed.

Lemma fmap_alterChildren_tidy (used : list nat) (g : nat) (h : list Node → list Node)
      (children : list Node) :
  g ∈ used → forallb (tidy used) children = true →
  forallb (tidy used) (alterChildren g h <$> children) = true.
Proof.
  intros Hg. induction children as [|c rest IH]; intros H; [reflexivity|].
  simpl in H. apply andb_true_iff in H as [Hc Hrest].
  rewrite fmap_cons. simpl. rewrite (IH Hrest), andb_true_r.
  destruct c as [text|i cs]; [reflexivity|].
  rewrite alterChildren_absent; [exact Hc|]. now apply (clean_absent used).
Qed.

Lemma flatFor_alterChildren (used : list nat) (g : nat) (h : list Node → list Node)
      (root : Node) :
  keepsElements h → g ∈ used → flatFor used root = true →
  flatFor used (alterChildren g h root) = true.
Proof.
  intros Hh Hg H. unfold flatFor in *. apply andb_true_iff in H as [Hnd Hall].
  apply bool_decide_eq_true in Hnd.
  apply andb_true_iff. split.
  - apply bool_decide_eq_true. now rewrite ids_alterChildren.
  - rewrite forallb_forall in Hall |- *. intros g' Hg'. specialize (Hall g' Hg').
    unfold flatGroup in *.
    destruct (decide (g' = g)) as [->|Hne].
    + rewrite childrenOf_alterChildren_eq.
      destruct (childrenOf g root) as [cs|]; [|discriminate]. simpl.
      now rewrite <- forallb_tidy_elements, Hh, forallb_tidy_elements.
    + rewrite (childrenOf_alterChildren_ne g g' h root Hne Hnd Hh).
      destruct (childrenOf g' root) as [cs|]; [|discriminate]. simpl.
      now apply fmap_alterChildren_tidy.
Qed.

Lemma flatFor_group (used : list nat) (root : Node) (g : nat) :
  flatFor used root = true → g ∈ used →
  NoDup (ids root)
  ∧ ∃ children, childrenOf g root = Some children
                ∧ forallb (tidy used) children = true.
Proof.
  unfold flatFor. intros H Hg. apply andb_true_iff in H as [Hnd Hall].
  apply bool_decide_eq_true in Hnd. split; [exact Hnd|].
  rewrite forallb_forall in Hall. specialize (Hall g).
  rewrite <- list_elem_of_In in Hall. specialize (Hall Hg).
  unfold flatGroup in Hall.
  destruct (childrenOf g root) as [cs|]; [eauto | discriminate].
Qed.

(** *** The two methods on a flat page *)

Lemma clearFieldValidation_flat (used : list nat) (f : Field) (root : Node) :
  flatFor used root = true → group f ∈ used →
  ∃ root',
    Groups.clearFieldValidation f root = (setInvalid false f, root', Normal tt)
    ∧ flatFor used root' = true
    ∧ ∀ g, directTexts g root'
           = if decide (group f = g) then drop 1 (directTexts g root) else directTexts g root.
Proof.
  intros Hflat Hg.
  destruct (flatFor_group used root (group f) Hflat Hg) as (Hnd & cs & Hcs & Htidy).
  unfold Groups.clearFieldValidation. rewrite Hcs, (firstFeedback_tidy used cs Htidy).
  destruct (omap feedbackText cs) as [|m ms] eqn:Etexts.
  - exists root. repeat split; [exact Hflat|]. intros g.
    destruct (decide (group f = g)) as [<-|]; [|reflexivity].
    unfold directTexts. now rewrite Hcs, Etexts.
  - eexists. repeat split.
    + apply flatFor_alterChildren; [exact elements_removeFirstFeedback | exact Hg | exact Hflat].
    + intros g. destruct (decide (group f = g)) as [<-|Hne].
      * rewrite (directTexts_alterChildren_eq _ _ _ cs Hcs), texts_removeFirstFeedback.
        unfold directTexts. now rewrite Hcs.
      * apply directTexts_alterChildren_ne;
          [congruence | exact Hnd | exact elements_removeFirstFeedback].
Qed.

Lemma keepsElements_append (text : string) :
  keepsElements (λ children, children ++ [Feedback text]).
Proof. intros children. apply elements_append_feedback. Qed.

Lemma markFieldAsInvalid_flat (used : list nat) (f : Field) (m : string) (root : Node) :
  flatFor used root = true → group f ∈ used →
  ∃ root',
    Groups.markFieldAsInvalid f m root = (setInvalid true f, root', Normal tt)
    ∧ flatFor used root' = true
    ∧ ∀ g, directTexts g root'
           = if decide (group f = g) then Rules.replaceMessage (directTexts g root) m
             else directTexts g root.
Proof.
  intros Hflat Hg.
  destruct (clearFieldValidation_flat used f root Hflat Hg) as (root1 & E & Hflat1 & Htexts).
  unfold Groups.markFieldAsInvalid. rewrite E.
  destruct (flatFor_group used root1 (group f) Hflat1 Hg) as (Hnd & cs & Hcs & _).
  eexists. repeat split.
  - apply flatFor_alterChildren; [apply keepsElements_append | exact Hg | exact Hflat1].
  - intros g. destruct (decide (group f = g)) as [<-|Hne].
    + rewrite (directTexts_alterChildren_eq _ _ _ cs Hcs), texts_append_feedback.
      specialize (Htexts (group f)). rewrite decide_True in Htexts by reflexivity.
      unfold Rules.replaceMessage. rewrite <- Htexts. unfold directTexts. now rewrite Hcs.
    + rewrite directTexts_alterChildren_ne;
        [|congruence | exact Hnd | apply keepsElements_append].
      specialize (Htexts g). now rewrite decide_False in Htexts by exact Hne.
Qed.

(** *** The two methods when the first feedback is further down *)

Lemma clearFieldValidation_deeper (f : Field) (root : Node) (children : list Node) :
  childrenOf (group f) root = Some children → firstFeedback children = Deeper →
  Groups.clearFieldValidation f root = (setInvalid false f, root, Throw notFoundError).
Proof. intros Hc Hd. unfold Groups.clearFieldValidation. now rewrite Hc, Hd. Qed.

(** The field that was to be marked ends without the class, and no message
    is added. *)
Lemma markFieldAsInvalid_deeper (f : Field) (m : string) (root : Node)
      (children : list Node) :
  childrenOf (group f) root = Some children → firstFeedback children = Deeper →
  Groups.markFieldAsInvalid f m root = (setInvalid false f, root, Throw notFoundError).
Proof.
  intros Hc Hd. unfold Groups.markFieldAsInvalid.
  now rewrite (clearFieldValidation_deeper f root children Hc Hd).
Qed.

(** *** The page and its view as a form *)

Lemma directTexts_absent (g : nat) (root : Node) : g ∉ ids root → directTexts g root = [].
Proof. intros H. unfold directTexts. now rewrite childrenOf_absent. Qed.

Lemma view_shows (root : Node) : Shows root (view root).
Proof.
  intros g. unfold view.
  assert (H : ∀ l, messages (foldr (λ i fb, <[i := directTexts i root]> fb) ∅ l) g
                   = if decide (g ∈ l) then directTexts g root else []).
  { induction l as [|i l IH]; simpl.
    - unfold messages. now rewrite lookup_total_empty.
    - rewrite ValidationFacts.messages_insert, IH.
      destruct (decide (i = g)) as [->|Hne].
      + now rewrite decide_True by left.
      + destruct (decide (g ∈ l)) as [Hin|Hout].
        * now rewrite decide_True by now right.
        * rewrite decide_False; [reflexivity|].
          intros Hin. apply elem_of_cons in Hin as [->|Hin]; contradiction. }
  rewrite H. destruct (decide (g ∈ ids root)); [reflexivity | now apply directTexts_absent].
Qed.

Lemma clearFieldValidation_refines (used : list nat) (f : Field) (root : Node)
      (fb : gmap nat (list string)) :
  flatFor used root = true → group f ∈ used → Shows root fb →
  ∃ root',
    Groups.clearFieldValidation f root
    = ((FormHandler.clearFieldValidation f fb).1, root', Normal tt)
    ∧ flatFor used root' = true
    ∧ Shows root' (FormHandler.clearFieldValidation f fb).2.
Proof.
  intros Hflat Hg Hshows.
  destruct (clearFieldValidation_flat used f root Hflat Hg) as (root' & E & Hflat' & Htexts).
  exists root'. repeat split; [exact E | exact Hflat'|].
  intros g. rewrite Htexts, ValidationFacts.clearFieldValidation_messages, !Hshows.
  reflexivity.
Qed.

Lemma markFieldAsInvalid_refines (used : list nat) (f : Field) (m : string) (root : Node)
      (fb : gmap nat (list string)) :
  flatFor used root = true → group f ∈ used → Shows root fb →
  ∃ root',
    Groups.markFieldAsInvalid f m root
    = ((FormHandler.markFieldAsInvalid f m fb).1, root', Normal tt)
    ∧ flatFor used root' = true
    ∧ Shows root' (FormHandler.markFieldAsInvalid f m fb).2.
Proof.
  intros Hflat Hg Hshows.
  destruct (markFieldAsInvalid_flat used f m root Hflat Hg) as (root' & E & Hflat' & Htexts).
  exists root'. rewrite ValidationFacts.markFieldAsInvalid_field.
  repeat split; [exact E | exact Hflat'|].
  intros g. rewrite Htexts, ValidationFacts.markFieldAsInvalid_messages, !Hshows.
  reflexivity.
Qed.

Lemma checkRequiredField_refines (used : list nat) (f : Field) (root : Node)
      (fb : gmap nat (list string)) (isValid : bool) :
  flatFor used root = true → group f ∈ used → Shows root fb →
  ∃ root',
    Groups.checkRequiredField f root isValid
    = ((FormHandler.checkRequiredField f fb isValid).1.1, root',
       Normal (FormHandler.checkRequiredField f fb isValid).2)
    ∧ flatFor used root' = true
    ∧ Shows root' (FormHandler.checkRequiredField f fb isValid).1.2.
Proof.
  intros Hflat Hg Hshows.
  assert (Hmark : ∀ m,
             ∃ root',
               match Groups.markFieldAsInvalid f m root with
               | (field', root', Normal _) => (field', root', Normal false)
               | (field', root', Throw e) => (field', root', Throw e)
               end
               = ((FormHandler.markFieldAsInvalid f m fb, false).1.1, root',
                  Normal (FormHandler.markFieldAsInvalid f m fb, false).2)
               ∧ flatFor used root' = true
               ∧ Shows root' (FormHandler.markFieldAsInvalid f m fb, false).1.2).
  { intros m.
    destruct (markFieldAsInvalid_refines used f m root fb Hflat Hg Hshows)
      as (root' & E & Hflat' & Hshows').
    exists root'. rewrite E. now repeat split. }
  unfold Groups.checkRequiredField, FormHandler.checkRequiredField.
  repeat match goal with
         | |- context [if ?b then _ else _] => destruct b
         | |- context [match ?o with Some _ => _ | None => _ end] => destruct o
         end;
    try apply Hmark; exists root; now repeat split.
Qed.

Lemma forEachRequired_refines (used : list nat) (fs : list Field) :
  ∀ root fb isValid,
    flatFor used root = true → (∀ f, f ∈ fs → group f ∈ used) → Shows root fb →
    ∃ root',
      Groups.forEachRequired fs root isValid
      = ((FormHandler.forEachRequired fs fb isValid).1.1, root',
         Normal (FormHandler.forEachRequired fs fb isValid).2)
      ∧ flatFor used root' = true
      ∧ Shows root' (FormHandler.forEachRequired fs fb isValid).1.2.
Proof.
  induction fs as [|f rest IH]; intros root fb isValid Hflat Hused Hshows.
  - exists root. now repeat split.
  - assert (Hrest : ∀ f', f' ∈ rest → group f' ∈ used) by (intros f' Hf'; apply Hused; now right).
    simpl. destruct (required f).
    + destruct (checkRequiredField_refines used f root fb isValid Hflat
                  (Hused f ltac:(left)) Hshows) as (root1 & E1 & Hflat1 & Hshows1).
      rewrite E1.
      destruct (FormHandler.checkRequiredField f fb isValid) as [[f' fb'] isValid'].
      simpl in *.
      destruct (IH root1 fb' isValid' Hflat1 Hrest Hshows1) as (root2 & E2 & Hflat2 & Hshows2).
      rewrite E2.
      destruct (FormHandler.forEachRequired rest fb' isValid') as [[rest' fb''] isValid''].
      exists root2. now repeat split.
    + destruct (IH root fb isValid Hflat Hrest Hshows) as (root2 & E2 & Hflat2 & Hshows2).
      rewrite E2.
      destruct (FormHandler.forEachRequired rest fb isValid) as [[rest' fb''] isValid''].
      exists root2. now repeat split.
Qed.

Lemma singleTexts_spec (root : Node) :
  singleTexts root = true ↔ ∀ g, length (directTexts g root) ≤ 1.
Proof.
  unfold singleTexts. rewrite forallb_forall. split.
  - intros H g. destruct (decide (g ∈ ids root)) as [Hin|Hout].
    + rewrite list_elem_of_In in Hin. specialize (H g Hin). now apply Nat.leb_le in H.
    + rewrite directTexts_absent by exact Hout. simpl. lia.
  - intros H g _. apply Nat.leb_le, H.
Qed.

Lemma group_annotated (form : Form) :
  group <$> fields (FormHandler.validateForm form).1 = group <$> fields form.
Proof. now apply SubmitFacts.validateForm_attribute. Qed.

(** On a flat page [validateForm] returns, and it returns what the
    function on forms computes from the view of the page. *)
Lemma validateForm_refines (form : Form) (root : Node) :
  flat (fields form) root = true → Shows root (feedback form) →
  ∃ root',
    Groups.validateForm (fields form) root
    = (fields (FormHandler.validateForm form).1, root', Normal (FormHandler.validateForm form).2)
    ∧ flat (fields (FormHandler.validateForm form).1) root' = true
    ∧ Shows root' (feedback (FormHandler.validateForm form).1).
Proof.
  intros Hflat Hshows. unfold flat. rewrite group_annotated. unfold flat in Hflat.
  set (used := group <$> fields form) in *.
  assert (Hused : ∀ f, f ∈ fields form → group f ∈ used).
  { intros f Hf. apply list_elem_of_fmap. eauto. }
  destruct (forEachRequired_refines used (fields form) root (feedback form) true
              Hflat Hused Hshows) as (root1 & E1 & Hflat1 & Hshows1).
  unfold Groups.validateForm, FormHandler.validateForm. rewrite E1.
  destruct (FormHandler.forEachRequired (fields form) (feedback form) true)
    as [[fs1 fb1] ok1] eqn:Eloop.
  destruct (ValidationFacts.forEachRequired_spec _ _ _ _ _ _ Eloop) as (Hfs & _).
  cbn -[FormHandler.markFieldAsInvalid Groups.markFieldAsInvalid] in *.
  unfold querySelector in *.
  destruct (querySelectorFrom 0 isPasswordInput fs1) as [[i p]|];
    [|exists root1; now repeat split].
  destruct (querySelectorFrom 0 isConfirmInput fs1) as [[j c]|] eqn:Ec;
    [|exists root1; now repeat split].
  destruct (negb (String.eqb (value p) (value c))); [|exists root1; now repeat split].
  assert (Hc : group c ∈ used).
  { apply ValidationFacts.querySelector_Some in Ec as [Hc _]. subst fs1.
    rewrite list_lookup_fmap in Hc.
    destruct (fields form !! j) as [f|] eqn:Ef; [|discriminate]. injection Hc as <-.
    destruct (ValidationFacts.annotate_attributes f) as (_ & _ & _ & _ & -> & _).
    apply Hused. eapply list_elem_of_lookup_2. exact Ef. }
  destruct (markFieldAsInvalid_refines used c mismatchMessage root1 fb1 Hflat1 Hc Hshows1)
    as (root2 & E2 & Hflat2 & Hshows2).
  rewrite E2. destruct (FormHandler.markFieldAsInvalid c mismatchMessage fb1) as [c' fb2].
  exists root2. now repeat split.
Qed.

End GroupFacts.

(** ** validateForm and the listeners on the page *)

Module PageFacts.
Import Dom FormHandler Rules Shapes Groups.

#[local] Arguments FormHandler.markFieldAsInvalid : simpl never.
#[local] Arguments FormHandler.clearFieldValidation : simpl never.

(** The view of a flat page and what the call on the page returns. *)
Lemma validateForm_on_view (fs : list Field) (root : Node) :
  flat fs root = true →
  ∃ root',
    Groups.validateForm fs root
    = (fields (FormHandler.validateForm (formOf fs root)).1, root',
       Normal (FormHandler.validateForm (formOf fs root)).2)
    ∧ flat (fields (FormHandler.validateForm (formOf fs root)).1) root' = true
    ∧ (∀ g, directTexts g root'
            = messages (feedback (FormHandler.validateForm (formOf fs root)).1) g)
    ∧ (∀ g, directTexts g root = messages (feedback (formOf fs root)) g).
Proof.
  intros Hflat.
  destruct (GroupFacts.validateForm_refines (formOf fs root) root Hflat
              (GroupFacts.view_shows root)) as (root' & E & Hflat' & Hshows').
  exists root'. repeat split; [exact E | exact Hflat' | exact Hshows'|].
  exact (GroupFacts.view_shows root).
Qed.

(** C2, as the code has it, on a flat page.  [validateForm] returns, and
    it returns true exactly when no control fails.  A control that fails
    carries the class afterwards and its form group shows a message, which
    is the control's own message, last in the group, when no other control
    lives in that form group.  A control that does not fail is left as it
    was, class included; and the messages of a form group none of whose
    controls fails are left as they were. *)
Theorem validateForm_annotations_on_page (fs : list Field) (root : Node) :
  flat fs root = true →
  ∃ fs' root' isValid,
    Groups.validateForm fs root = (fs', root', Normal isValid)
    ∧ flat fs' root' = true
    ∧ (isValid = true ↔ ∀ i, failing (formOf fs root) i = None)
    ∧ (∀ i m f, failing (formOf fs root) i = Some m → fs !! i = Some f →
         fs' !! i = Some (setInvalid true f)
         ∧ directTexts (group f) root' ≠ []
         ∧ (ownGroup fs i = true → last (directTexts (group f) root') = Some m))
    ∧ (∀ i, failing (formOf fs root) i = None → fs' !! i = fs !! i)
    ∧ (∀ g, (∀ i f, fs !! i = Some f → group f = g → failing (formOf fs root) i = None) →
         directTexts g root' = directTexts g root).
Proof.
  intros Hflat.
  destruct (validateForm_on_view fs root Hflat) as (root' & E & Hflat' & Hafter & Hbefore).
  destruct (ValidationFacts.validateForm_annotations (formOf fs root))
    as (Hiff & Hmarks & Hkeeps & Hframe).
  eexists _, root', _. split; [exact E|]. split; [exact Hflat'|].
  split; [exact Hiff|]. split; [|split].
  - intros i m f Hfail Hf.
    destruct (Hmarks i m f Hfail Hf) as (Hfield & Hshown & Hlast).
    rewrite !Hafter. now repeat split.
  - exact Hkeeps.
  - intros g Hg. rewrite Hafter, Hbefore. exact (Hframe g Hg).
Qed.

Lemma validateForm_annotations_on_page_witness :
  ∃ fs' root',
    Groups.validateForm (fields Samples.mismatchedForm) Pages.twoGroups
    = (fs', root', Normal false)
    ∧ fs' !! 1 = Some (setInvalid true Samples.mismatchedConfirm)
    ∧ last (directTexts 1 root') = Some mismatchMessage.
Proof.
  destruct (validateForm_annotations_on_page (fields Samples.mismatchedForm) Pages.twoGroups
              eq_refl) as (fs' & root' & isValid & E & _ & Hiff & Hmarks & _).
  destruct (Hmarks 1 mismatchMessage Samples.mismatchedConfirm eq_refl eq_refl)
    as (Hfield & _ & Hlast).
  exists fs', root'. split; [|split; [exact Hfield | exact (Hlast eq_refl)]].
  rewrite E. f_equal. f_equal. destruct isValid; [|reflexivity].
  specialize (proj1 Hiff eq_refl 1). discriminate.
Defined.

(** The stale annotation of [Samples.staleForm], on its page: the call
    returns true and changes nothing. *)
Example validateForm_keeps_stale_annotation_on_page :
  flat (fields Samples.staleForm) Pages.stalePage = true
  ∧ Groups.validateForm (fields Samples.staleForm) Pages.stalePage
    = (fields Samples.staleForm, Pages.stalePage, Normal true)
  ∧ isInvalid <$> fields Samples.staleForm !! 1 = Some true
  ∧ directTexts 1 Pages.stalePage = [mismatchMessage].
Proof. repeat split. Qed.

(** What [markedWith] says of the form, said of the page. *)
Lemma markedWith_on_page (fs : list Field) (root : Node) (i : nat) (f : Field) (m : string) :
  flat fs root = true → markedWith (formOf fs root) i f m → markedOnPage fs root i f m.
Proof.
  intros Hflat (Hfalse & Hfield & Hshown & Hown).
  destruct (validateForm_on_view fs root Hflat) as (root' & E & _ & Hafter & Hbefore).
  exists (fields (FormHandler.validateForm (formOf fs root)).1), root'.
  rewrite E, Hfalse, !Hafter, Hbefore. now repeat split.
Qed.

Lemma kept_on_page (fs : list Field) (root : Node) (i : nat) (f : Field) :
  flat fs root = true → fs !! i = Some f → failing (formOf fs root) i = None →
  ∃ fs' root' isValid,
    Groups.validateForm fs root = (fs', root', Normal isValid)
    ∧ fs' !! i = Some f
    ∧ (ownGroup fs i = true → directTexts (group f) root' = directTexts (group f) root).
Proof.
  intros Hflat Hf Hfail.
  destruct (validateForm_on_view fs root Hflat) as (root' & E & _ & Hafter & Hbefore).
  eexists _, root', _. split; [exact E|]. split.
  - rewrite <- Hf. exact (ValidationFacts.validateForm_keeps (formOf fs root) i Hfail).
  - intros Hown. rewrite Hafter, Hbefore.
    apply ValidationFacts.validateForm_group_frame.
    intros j f' Hf' Hg. destruct (decide (j = i)) as [->|Hne]; [exact Hfail|].
    exfalso. exact (ValidationFacts.ownGroup_spec fs i f Hown Hf j f' Hne Hf' Hg).
Qed.

(** C3, as the code has it, on a flat page.  A required email field whose
    trimmed value is empty is marked with the required message; one whose
    value is not blank and lacks an at sign or a dot is marked with the
    format message; in both cases the form group ends showing that message
    in place of its first one when the field has the form group to itself.
    An email field that is not required is not looked at: it is left as it
    was and, when it has its form group to itself, so are the messages of
    the group, whatever its value. *)
Theorem validateForm_required_email_on_page (fs : list Field) (root : Node)
        (i : nat) (f : Field) :
  flat fs root = true → fs !! i = Some f → type f = "email" →
  (required f = true → JS.trim (value f) = EmptyString →
     markedOnPage fs root i f requiredMessage)
  ∧ (required f = true → JS.trim (value f) ≠ EmptyString →
     JS.includes "@" (value f) = false ∨ JS.includes "." (value f) = false →
     markedOnPage fs root i f emailMessage)
  ∧ (required f = false →
     ∃ fs' root' isValid,
       Groups.validateForm fs root = (fs', root', Normal isValid)
       ∧ fs' !! i = Some f
       ∧ (ownGroup fs i = true →
          directTexts (group f) root' = directTexts (group f) root)).
Proof.
  intros Hflat Hf Htype. split; [|split].
  - intros Hreq Hblank. apply markedWith_on_page; [exact Hflat|].
    exact (proj1 (ValidationFacts.validateForm_required_email (formOf fs root) i f
                    Hf Hreq Htype) Hblank).
  - intros Hreq Hfilled Hlacks. apply markedWith_on_page; [exact Hflat|].
    exact (proj2 (ValidationFacts.validateForm_required_email (formOf fs root) i f
                    Hf Hreq Htype) Hfilled Hlacks).
  - intros Hopt. apply kept_on_page; [exact Hflat | exact Hf|].
    unfold failing. cbn [fields formOf]. rewrite Hf, Hopt.
    rewrite bool_decide_eq_false_2; [reflexivity|].
    intros Htarget.
    pose proof (ValidationFacts.confirmTarget_is_password fs i f Hf Htarget) as Hpw.
    rewrite Htype in Hpw. discriminate.
Qed.

Lemma validateForm_required_email_on_page_witness :
  markedOnPage (fields Samples.requiredEmailForm) Pages.twoGroups 0 Samples.requiredEmail
    emailMessage.
Proof.
  refine (proj1 (proj2 (validateForm_required_email_on_page
                          (fields Samples.requiredEmailForm) Pages.twoGroups 0
                          Samples.requiredEmail eq_refl eq_refl eq_refl))
            eq_refl _ (or_introl eq_refl)).
  vm_compute. discriminate.
Defined.

(** *** The listeners on a flat page *)

Lemma group_insert (fs : list Field) (i : nat) (f f' : Field) :
  fs !! i = Some f → group f' = group f → group <$> <[i := f']> fs = group <$> fs.
Proof.
  intros Hf Hg. rewrite list_fmap_insert, Hg. apply list_insert_id.
  now rewrite list_lookup_fmap, Hf.
Qed.

Lemma group_alter_setValue (fs : list Field) (i : nat) (v : string) :
  group <$> alter (setValue v) i fs = group <$> fs.
Proof.
  apply list_eq. intros j. rewrite !list_lookup_fmap.
  destruct (decide (i = j)) as [->|Hne].
  - rewrite list_lookup_alter_eq. now destruct (fs !! j).
  - now rewrite list_lookup_alter_ne.
Qed.

Lemma lookup_group_used (fs : list Field) (i : nat) (f : Field) :
  fs !! i = Some f → group f ∈ group <$> fs.
Proof. intros Hf. apply list_elem_of_fmap. exists f. split; [reflexivity|]. eapply list_elem_of_lookup_2, Hf. Qed.

Lemma onBlur_flat (used : list nat) (f : Field) (root : Node) :
  flatFor used root = true → group f ∈ used →
  ∃ f' root',
    Groups.onBlur f root = (f', root', Normal tt)
    ∧ group f' = group f
    ∧ flatFor used root' = true
    ∧ ∀ g, length (directTexts g root) ≤ 1 → length (directTexts g root') ≤ 1.
Proof.
  intros Hflat Hg.
  assert (Hmark : ∀ m, ∃ f' root',
             Groups.markFieldAsInvalid f m root = (f', root', Normal tt)
             ∧ group f' = group f
             ∧ flatFor used root' = true
             ∧ ∀ g, length (directTexts g root) ≤ 1 → length (directTexts g root') ≤ 1).
  { intros m.
    destruct (GroupFacts.markFieldAsInvalid_flat used f m root Hflat Hg)
      as (root' & E & Hflat' & Htexts).
    exists (setInvalid true f), root'. repeat split; [exact E | exact Hflat'|].
    intros g Hlen. rewrite Htexts. destruct (decide (group f = g)); [|exact Hlen].
    rewrite AnnotationFacts.length_replaceMessage. lia. }
  unfold Groups.onBlur.
  destruct (required f && negb (JS.truthy (JS.trim (value f)))); [apply Hmark|].
  destruct (String.eqb (type f) "email" && JS.truthy (value f)
            && negb (isValidEmail (value f))); [apply Hmark|].
  exists f, root. now repeat split.
Qed.

(** X5.  On a flat page on which no element shows more than one message
    among its children, [validateForm], a blur at any control and typing
    into any control all return, and leave the page flat and with at most
    one message per element: messages are replaced, never stacked. *)
Theorem single_message_on_page (fs : list Field) (root : Node) :
  flat fs root = true → singleTexts root = true →
  (∃ fs' root' isValid,
      Groups.validateForm fs root = (fs', root', Normal isValid)
      ∧ flat fs' root' = true ∧ singleTexts root' = true)
  ∧ (∀ i, ∃ fs' root',
        Groups.dispatchAt Groups.onBlur i fs root = (fs', root', Normal tt)
        ∧ flat fs' root' = true ∧ singleTexts root' = true)
  ∧ (∀ i v, ∃ fs' root',
        Groups.userTypes i v fs root = (fs', root', Normal tt)
        ∧ flat fs' root' = true ∧ singleTexts root' = true).
Proof.
  intros Hflat Hone. rewrite GroupFacts.singleTexts_spec in Hone. split; [|split].
  - destruct (validateForm_on_view fs root Hflat) as (root' & E & Hflat' & Hafter & Hbefore).
    eexists _, root', _. split; [exact E|]. split; [exact Hflat'|].
    apply GroupFacts.singleTexts_spec. intros g. rewrite Hafter.
    apply (AnnotationFacts.single_message_preserved (formOf fs root)).
    intros g'. rewrite <- Hbefore. apply Hone.
  - intros i. unfold Groups.dispatchAt.
    destruct (fs !! i) as [f|] eqn:Hf.
    + destruct (onBlur_flat (group <$> fs) f root Hflat (lookup_group_used fs i f Hf))
        as (f' & root' & E & Hg & Hflat' & Hlen).
      rewrite E. exists (<[i := f']> fs), root'. split; [reflexivity|]. split.
      * unfold flat. now rewrite (group_insert fs i f f' Hf Hg).
      * apply GroupFacts.singleTexts_spec. intros g. apply Hlen, Hone.
    + exists fs, root. split; [reflexivity|]. split; [exact Hflat|].
      now apply GroupFacts.singleTexts_spec.
  - intros i v. unfold Groups.userTypes, Groups.dispatchAt.
    assert (Hflatv : flatFor (group <$> fs) root = true) by exact Hflat.
    destruct (alter (setValue v) i fs !! i) as [f|] eqn:Hf.
    + assert (Hused : group f ∈ group <$> fs).
      { rewrite <- (group_alter_setValue fs i v). exact (lookup_group_used _ i f Hf). }
      destruct (GroupFacts.clearFieldValidation_flat (group <$> fs) f root Hflatv Hused)
        as (root' & E & Hflat' & Htexts).
      unfold Groups.onInput. rewrite E.
      eexists _, root'. split; [reflexivity|]. split.
      * unfold flat. rewrite (group_insert _ i f (setInvalid false f) Hf eq_refl).
        now rewrite group_alter_setValue.
      * apply GroupFacts.singleTexts_spec. intros g. rewrite Htexts.
        specialize (Hone g). destruct (decide (group f = g)); [rewrite length_drop|]; lia.
    + eexists _, root. split; [reflexivity|]. split.
      * unfold flat. now rewrite group_alter_setValue.
      * now apply GroupFacts.singleTexts_spec.
Qed.

Lemma single_message_on_page_witness :
  ∃ fs' root' isValid,
    Groups.validateForm (fields Samples.mismatchedForm) Pages.twoGroups
    = (fs', root', Normal isValid)
    ∧ flat fs' root' = true ∧ singleTexts root' = true.
Proof.
  exact (proj1 (single_message_on_page (fields Samples.mismatchedForm) Pages.twoGroups
                  eq_refl eq_refl)).
Defined.

(** X6.  On a flat page, two controls of one form group are marked one
    after the other, the group showing at most one message before: both
    calls return and both controls carry the class, but the group shows
    only the message of the second.  Typing into the first control then
    removes that message, although the second control keeps its class. *)
Theorem markFieldAsInvalid_shared_group_on_page (fs : list Field) (root : Node)
        (f1 f2 : Field) (m1 m2 : string) :
  flat fs root = true → f1 ∈ fs → f2 ∈ fs →
  group f1 = group f2 → length (directTexts (group f1) root) ≤ 1 →
  ∃ root1 root2 root3,
    Groups.markFieldAsInvalid f1 m1 root = (setInvalid true f1, root1, Normal tt)
    ∧ Groups.markFieldAsInvalid f2 m2 root1 = (setInvalid true f2, root2, Normal tt)
    ∧ directTexts (group f1) root2 = [m2]
    ∧ Groups.onInput (setInvalid true f1) root2 = (setInvalid false f1, root3, Normal tt)
    ∧ directTexts (group f1) root3 = [].
Proof.
  intros Hflat H1 H2 Hg Hlen. unfold flat in Hflat.
  assert (Hu1 : group f1 ∈ group <$> fs) by (apply list_elem_of_fmap; eauto).
  assert (Hu2 : group f2 ∈ group <$> fs) by (apply list_elem_of_fmap; eauto).
  destruct (GroupFacts.markFieldAsInvalid_flat _ f1 m1 root Hflat Hu1)
    as (root1 & E1 & Hflat1 & Ht1).
  destruct (GroupFacts.markFieldAsInvalid_flat _ f2 m2 root1 Hflat1 Hu2)
    as (root2 & E2 & Hflat2 & Ht2).
  destruct (GroupFacts.clearFieldValidation_flat _ (setInvalid true f1) root2 Hflat2 Hu1)
    as (root3 & E3 & _ & Ht3).
  assert (Hshown : directTexts (group f1) root2 = [m2]).
  { rewrite Ht2, decide_True by (symmetry; exact Hg).
    rewrite Ht1, decide_True by reflexivity. unfold replaceMessage.
    destruct (directTexts (group f1) root) as [|a [|b r]]; simpl in *; [reflexivity..|lia]. }
  exists root1, root2, root3. repeat split; try assumption.
  rewrite Ht3. change (group (setInvalid true f1)) with (group f1).
  rewrite decide_True by reflexivity. now rewrite Hshown.
Qed.

Lemma markFieldAsInvalid_shared_group_on_page_witness :
  ∃ root1 root2 root3,
    Groups.markFieldAsInvalid Scenarios.sharedFirst requiredMessage Pages.oneGroup
    = (setInvalid true Scenarios.sharedFirst, root1, Normal tt)
    ∧ Groups.markFieldAsInvalid Scenarios.sharedSecond requiredMessage root1
      = (setInvalid true Scenarios.sharedSecond, root2, Normal tt)
    ∧ directTexts 0 root2 = [requiredMessage]
    ∧ Groups.onInput (setInvalid true Scenarios.sharedFirst) root2
      = (setInvalid false Scenarios.sharedFirst, root3, Normal tt)
    ∧ directTexts 0 root3 = [].
Proof.
  refine (markFieldAsInvalid_shared_group_on_page Pages.sharedFields Pages.oneGroup
            Scenarios.sharedFirst Scenarios.sharedSecond requiredMessage requiredMessage
            eq_refl _ _ eq_refl _).
  - left.
  - right. left.
  - vm_compute. lia.
Defined.

(** X7.  On a flat page on which no element shows more than one message,
    validating twice in a row with no edit in between returns both times,
    with the same answer, and the second call leaves every control and
    every message as the first call left them. *)
Theorem validateForm_twice_on_page (fs : list Field) (root : Node) :
  flat fs root = true → singleTexts root = true →
  ∃ fs1 root1 root2 isValid,
    Groups.validateForm fs root = (fs1, root1, Normal isValid)
    ∧ Groups.validateForm fs1 root1 = (fs1, root2, Normal isValid)
    ∧ ∀ g, directTexts g root2 = directTexts g root1.
Proof.
  intros Hflat Hone. rewrite GroupFacts.singleTexts_spec in Hone.
  destruct (GroupFacts.validateForm_refines (formOf fs root) root Hflat
              (GroupFacts.view_shows root)) as (root1 & E1 & Hflat1 & Hshows1).
  destruct (GroupFacts.validateForm_refines (FormHandler.validateForm (formOf fs root)).1
              root1 Hflat1 Hshows1) as (root2 & E2 & _ & Hshows2).
  destruct (AnnotationFacts.validateForm_idempotent (formOf fs root))
    as (Hanswer & Hfields & Hmessages).
  { intros g. change (feedback (formOf fs root)) with (view root).
    rewrite <- (GroupFacts.view_shows root g). apply Hone. }
  cbv zeta in Hanswer, Hfields, Hmessages.
  eexists _, root1, root2, _. split; [exact E1|]. split.
  - rewrite E2, Hanswer, Hfields. reflexivity.
  - intros g. now rewrite Hshows1, Hshows2, Hmessages.
Qed.

Lemma validateForm_twice_on_page_witness :
  ∃ fs1 root1 root2 isValid,
    Groups.validateForm (fields Samples.mismatchedForm) Pages.twoGroups
    = (fs1, root1, Normal isValid)
    ∧ Groups.validateForm fs1 root1 = (fs1, root2, Normal isValid)
    ∧ ∀ g, directTexts g root2 = directTexts g root1.
Proof.
  exact (validateForm_twice_on_page (fields Samples.mismatchedForm) Pages.twoGroups
           eq_refl eq_refl).
Defined.

(** The condition is needed: a required field that is a child of the form
    itself, followed by a required field in a form group.  The first call
    returns false; the second finds, as first feedback below the form, the
    message inside the form group, and [removeChild] throws, with the class
    of the first field already removed. *)
Example validateForm_nested_groups_throw :
  flat Pages.unwrappedThenWrapped Pages.oneGroup = false
  ∧ ∃ fs1 root1 fs2,
      Groups.validateForm Pages.unwrappedThenWrapped Pages.oneGroup
      = (fs1, root1, Normal false)
      ∧ Groups.validateForm fs1 root1 = (fs2, root1, Throw notFoundError)
      ∧ isInvalid <$> fs1 = [true; true]
      ∧ isInvalid <$> fs2 = [false; true].
Proof. split; [reflexivity|]. eexists _, _, _. repeat split. Qed.

(** X8.  Typing into a control of a flat page stores the new value, removes
    the class from that control and the first message of its form group,
    and checks nothing: the call returns, no other control and no other
    element's messages change.  When instead the first feedback below the
    form group is not a child of it, the class is removed all the same,
    then [removeChild] throws and every message stays. *)
Theorem userTypes_on_page (fs : list Field) (root : Node) (i : nat) (v : string) (f : Field) :
  fs !! i = Some f →
  (flat fs root = true →
   ∃ root',
     Groups.userTypes i v fs root
     = (<[i := setInvalid false (setValue v f)]> fs, root', Normal tt)
     ∧ directTexts (group f) root' = drop 1 (directTexts (group f) root)
     ∧ ∀ g, g ≠ group f → directTexts g root' = directTexts g root)
  ∧ (∀ children,
       childrenOf (group f) root = Some children → firstFeedback children = Deeper →
       Groups.userTypes i v fs root
       = (<[i := setInvalid false (setValue v f)]> fs, root, Throw notFoundError)).
Proof.
  intros Hf.
  assert (Hi : alter (setValue v) i fs !! i = Some (setValue v f)).
  { now rewrite list_lookup_alter_eq, Hf. }
  assert (Hlist : <[i := setInvalid false (setValue v f)]> (alter (setValue v) i fs)
                  = <[i := setInvalid false (setValue v f)]> fs).
  { apply list_eq. intros j. destruct (decide (j = i)) as [->|Hj].
    - rewrite !list_lookup_insert_eq; [reflexivity| |].
      + now apply lookup_lt_Some in Hf.
      + rewrite length_alter. now apply lookup_lt_Some in Hf.
    - rewrite !list_lookup_insert_ne by congruence.
      now rewrite list_lookup_alter_ne by congruence. }
  unfold Groups.userTypes, Groups.dispatchAt, Groups.onInput. rewrite Hi. split.
  - intros Hflat.
    destruct (GroupFacts.clearFieldValidation_flat (group <$> fs) (setValue v f) root Hflat
                (lookup_group_used fs i f Hf)) as (root' & E & _ & Htexts).
    rewrite E, Hlist. exists root'. split; [reflexivity|].
    change (group (setValue v f)) with (group f) in Htexts. split.
    + now rewrite Htexts, decide_True by reflexivity.
    + intros g Hg. now rewrite Htexts, decide_False by congruence.
  - intros children Hchildren Hdeeper. unfold Groups.clearFieldValidation.
    change (group (setValue v f)) with (group f). now rewrite Hchildren, Hdeeper, Hlist.
Qed.

Lemma userTypes_on_page_witness :
  (∃ root',
      Groups.userTypes 0 "secret1" (fields Samples.mismatchedForm) Pages.twoGroups
      = (<[0 := setInvalid false
                  (setValue "secret1"
                     (Samples.textInput "password" "password" true "secret" 0))]>
           (fields Samples.mismatchedForm),
         root', Normal tt)
      ∧ directTexts 0 root' = [])
  ∧ Groups.userTypes 0 "hi" [Pages.wrappedField] Pages.wrappedFeedback
    = ([setInvalid false (setValue "hi" Pages.wrappedField)], Pages.wrappedFeedback,
       Throw notFoundError).
Proof.
  split.
  - destruct (proj1 (userTypes_on_page (fields Samples.mismatchedForm) Pages.twoGroups 0
                       "secret1" (Samples.textInput "password" "password" true "secret" 0)
                       eq_refl) eq_refl) as (root' & E & Htexts & _).
    exists root'. split; [exact E | exact Htexts].
  - exact (proj2 (userTypes_on_page [Pages.wrappedField] Pages.wrappedFeedback 0 "hi"
                    Pages.wrappedField eq_refl)
             [Element 7 [Feedback "Rejected by the server"]] eq_refl eq_refl).
Defined.

(** X9.  On a flat page, a required, non-blank password field with a
    minimum-length attribute that is not the target of the confirmation
    check: when [parseInt] reads the attribute as a number [n] of at most
    2^53 and the value has fewer code units, the field is marked with the
    message naming [n] in decimal; when the attribute does not read as a
    number, or the value is long enough, [validateForm] returns and leaves
    the field exactly as it was. *)
Theorem validateForm_password_minimum_on_page (fs : list Field) (root : Node)
        (i : nat) (f : Field) (s : string) :
  flat fs root = true →
  fs !! i = Some f → required f = true → type f = "password" →
  JS.allWhiteSpace (value f) = false → minLength f = Some s →
  confirmTarget fs ≠ Some i →
  (∀ n, JS.parseInt s = Some n → (Z.of_nat (String.length (value f)) < n)%Z →
        (n ≤ 2 ^ 53)%Z →
        markedOnPage fs root i f (passwordMessage n))
  ∧ ((JS.parseInt s = None
      ∨ ∃ n, JS.parseInt s = Some n ∧ (n ≤ Z.of_nat (String.length (value f)))%Z) →
     ∃ fs' root' isValid,
       Groups.validateForm fs root = (fs', root', Normal isValid) ∧ fs' !! i = Some f).
Proof.
  intros Hflat Hf Hreq Ht Hv Hm Hnot.
  destruct (AnnotationFacts.validateForm_password_minimum (formOf fs root) i f s
              Hf Hreq Ht Hv Hm Hnot) as (Hshort & Hlong).
  split.
  - intros n Hn Hlt _. apply markedWith_on_page; [exact Hflat|]. exact (Hshort n Hn Hlt).
  - intros Hpass.
    destruct (validateForm_on_view fs root Hflat) as (root' & E & _).
    eexists _, root', _. split; [exact E | exact (Hlong Hpass)].
Qed.

Lemma validateForm_password_minimum_on_page_witness :
  markedOnPage (fields Scenarios.shortPasswordForm) Pages.twoGroups 0 Samples.shortPassword
    (passwordMessage 8).
Proof.
  refine (proj1 (validateForm_password_minimum_on_page (fields Scenarios.shortPasswordForm)
                   Pages.twoGroups 0 Samples.shortPassword "8"
                   eq_refl eq_refl eq_refl eq_refl eq_refl eq_refl _)
            8%Z eq_refl _ _).
  - vm_compute. discriminate.
  - vm_compute. reflexivity.
  - vm_compute. discriminate.
Defined.

End PageFacts.
